(** * ai_notes: note indexing, retrieval and agent triggers

    A shallow embedding of the Python modules

      - [modules/db.py]            (the connection and the id counter),
      - [modules/search_engine.py] (the FAISS vector index and full-text search),
      - [modules/audio_to_text.py] (transcription),
      - [modules/note_crud.py]     (create / list / delete / edit),
      - [modules/gemini_client.py] (generation and question answering),
      - [agent_runner.py]          (trigger rules and action handlers),
      - [modules/cli.py]           (the commands),
      - [modules/exporter.py]      (the Markdown and HTML exports),

    followed by the properties of the specification that concern them.

    Python code that mutates module globals, the MongoDB collections and the
    FAISS index is written in a state-and-exception monad over one record
    [world]; an exception keeps the mutations made before it was raised, as in
    Python.  Everything outside the repository (MongoDB, FAISS, the sentence
    encoder, the speech and generation services, the file system, the clock) is
    either given a small executable model or read from an [env] record that says
    how the outside behaves during one operation.

    A Python [str] is modelled by the string of its code points: a character
    of the model is one code point, not a byte of an encoding, so that
    [String.length] is [len] and a slice is a slice.  The model covers the
    strings whose code points are below 256. *)

From Stdlib Require Import ZArith Lia Ascii String.
From stdpp Require Import base option list strings gmap fin_maps sorting pretty.

Local Open Scope string_scope.
Local Open Scope list_scope.
Local Open Scope Z_scope.

(** ** Documents of the [notes] collection *)

(** A note is a Python dict / MongoDB document.  Each field is optional: [None]
    is an absent key, which is what [note.get(...)] and [note[...]] tell apart. *)
Record document := Document {
  title      : option string;
  content    : option string;
  tags       : option (list string);
  workspace  : option string;
  created_at : option Z;
  updated_at : option Z;
}.

Global Instance document_eq_dec : EqDecision document.
Proof. solve_decision. Defined.

(** A note as returned by a query: the [_id] and the other fields. *)
Definition note : Type := Z * document.
Definition _id (n : note) : Z := n.1.
Definition fields (n : note) : document := n.2.

(** ** The vector index (FAISS [IndexIDMap2] over [IndexFlatL2]) *)

(** An embedding.  The 384 [float32] components are represented by integers
    (fixed point); only the order between distances matters below. *)
Abbreviation vec := (list Z).

(** Squared Euclidean distance, as [IndexFlatL2] reports it. *)
Fixpoint l2_distance (x y : vec) : Z :=
  match x, y with
  | a :: x', b :: y' => (a - b) * (a - b) + l2_distance x' y'
  | _, _ => 0
  end.

(** The index holds its vectors in insertion order, each with the id it was
    added under ([id_map]).  Nothing forbids two vectors under one id. *)
Abbreviation faiss_index := (list (Z * vec)).

(** [idx.add_with_ids([v], [id])]: append. *)
Definition add_with_ids (idx : faiss_index) (v : vec) (id : Z) : faiss_index :=
  idx ++ [(id, v)].

(** [idx.remove_ids([id])]: drop every vector stored under [id]. *)
Definition remove_ids (idx : faiss_index) (id : Z) : faiss_index :=
  filter (λ e, e.1 ≠ id) idx.

(** A scored candidate of a query: distance, position in the index, id. *)
Definition hit : Type := Z * nat * Z.
Definition hit_distance (h : hit) : Z := h.1.1.
Definition hit_position (h : hit) : nat := h.1.2.
Definition hit_label (h : hit) : Z := h.2.

(** [closer h1 h2]: [h1] is reported no later than [h2]: smaller distance
    first, and for equal distances the vector that was inserted first. *)
Definition closer (h1 h2 : hit) : Prop :=
  hit_distance h1 < hit_distance h2 ∨
  (hit_distance h1 = hit_distance h2 ∧ (hit_position h1 ≤ hit_position h2)%nat).

Global Instance closer_dec h1 h2 : Decision (closer h1 h2).
Proof. unfold closer. apply _. Defined.

Definition candidates (idx : faiss_index) (q : vec) : list hit :=
  imap (λ pos e, (l2_distance q e.2, pos, e.1)) idx.

(** The [k] nearest stored vectors, nearest first. *)
Definition nearest (idx : faiss_index) (q : vec) (k : nat) : list hit :=
  take k (merge_sort closer (candidates idx q)).

(** ** Exceptions, the outside world, the program state *)

Inductive exn :=
  | KeyError (key : string)
  | RuntimeError (msg : string)
  | EnvironmentError (msg : string)
  | DuplicateKeyError (id : Z)
  | AssertionError (msg : string)
  | ValueError (msg : string)
  | MarkupError (markup : string)
  | ServiceError (what : string).

Inductive outcome (A : Type) :=
  | Ok (a : A)
  | Raise (e : exn).
Arguments Ok {A} a.
Arguments Raise {A} e.

(** [idx.search([q], k)]: the wrapper asserts [k > 0]; for such a [k] it
    returns one row of exactly [k] labels, and the slots for which the index
    has no vector carry the label [-1]. *)
Definition faiss_search (idx : faiss_index) (q : vec) (k : nat) : outcome (list Z) :=
  match k with
  | O => Raise (AssertionError "k > 0")
  | S _ =>
      let hits := nearest idx q k in
      Ok ((hit_label <$> hits) ++ replicate (k - length hits) (-1))
  end.

(** The calls made on the database. *)
Inductive db_call :=
  | CounterInc
  | InsertOne (id : Z)
  | DeleteOne (id : Z)
  | UpdateOne (id : Z)
  | FindOne (id : Z)
  | FindIn (ids : list Z)
  | FindAll
  | EnsureTextIndex
  | TextSearch (query : string).

(** What leaves the process, in the order it happens. *)
Inductive event :=
  | EvTranscribe (audio_path : string)
  | EvEncode (text : string)
  | EvGenerate (prompt : string)
  | EvDb (c : db_call)
  | EvIndexAdd (id : Z) (v : vec)
  | EvIndexRemove (id : Z)
  | EvIndexSearch (k : nat)
  | EvFile (path : string) (data : string)
  | EvAction (action : string) (id : Z)
  | EvUnknownAction (action : string)
  | EvConsole (text : string).

(** One rule of [mcp/agents.json]: [cfg.get("trigger")], [cfg.get("action")]. *)
Record agent_config := AgentConfig {
  trigger : option string;
  action  : option string;
}.

(** How the collaborators behave while one operation runs.  [None] and [true]
    in the fallible fields mean that the call raises. *)
Record env := Env {
  recognize_google  : string → option string;   (* speech service, by audio path *)
  encode            : string → option vec;      (* get_model().encode *)
  generate_content  : string → option string;   (* model.generate_content(p).text *)
  text_match        : string → document → bool; (* MongoDB's $text/$search match *)
  db_fails          : db_call → bool;
  fs_fails          : bool;                     (* makedirs / open / write *)
  GEMINI_API_KEY    : option string;            (* the environment variable *)
  utcnow            : Z;                        (* datetime.utcnow(), in seconds *)
  now               : Z;                        (* datetime.now(), in seconds *)
  strftime          : string → Z → string;      (* rendering of a datetime by format *)
  agents_json       : option (list (string * agent_config)); (* mcp/agents.json *)
  fernet_encrypt    : string → option string;   (* encryption.encrypt_content *)
  rich_render       : string → option string;   (* what console.print shows for a markup *)
}.

Record world := World {
  notes             : gmap Z document;      (* db["notes"], by _id *)
  counter_seq       : option Z;             (* db["counters"], {"_id": "note_id"} *)
  _index            : option faiss_index;   (* search_engine._index *)
  _index_modified   : bool;                 (* search_engine._index_modified *)
  index_file        : option faiss_index;   (* the file at INDEX_PATH *)
  _gemini_configured : bool;                (* gemini_client._gemini_configured *)
  _qa_cache         : gmap string string;   (* gemini_client._qa_cache *)
  trace             : list event;
}.

Definition set_notes (f : gmap Z document → gmap Z document) (w : world) : world :=
  World (f (notes w)) (counter_seq w) (_index w) (_index_modified w)
        (index_file w) (_gemini_configured w) (_qa_cache w) (trace w).
Definition set_counter_seq (c : option Z) (w : world) : world :=
  World (notes w) c (_index w) (_index_modified w)
        (index_file w) (_gemini_configured w) (_qa_cache w) (trace w).
Definition set_index (i : option faiss_index) (w : world) : world :=
  World (notes w) (counter_seq w) i (_index_modified w)
        (index_file w) (_gemini_configured w) (_qa_cache w) (trace w).
Definition set_index_modified (b : bool) (w : world) : world :=
  World (notes w) (counter_seq w) (_index w) b
        (index_file w) (_gemini_configured w) (_qa_cache w) (trace w).
Definition set_index_file (i : option faiss_index) (w : world) : world :=
  World (notes w) (counter_seq w) (_index w) (_index_modified w)
        i (_gemini_configured w) (_qa_cache w) (trace w).
Definition set_gemini_configured (b : bool) (w : world) : world :=
  World (notes w) (counter_seq w) (_index w) (_index_modified w)
        (index_file w) b (_qa_cache w) (trace w).
Definition set_qa_cache (f : gmap string string → gmap string string) (w : world) : world :=
  World (notes w) (counter_seq w) (_index w) (_index_modified w)
        (index_file w) (_gemini_configured w) (f (_qa_cache w)) (trace w).
Definition log (ev : event) (w : world) : world :=
  World (notes w) (counter_seq w) (_index w) (_index_modified w)
        (index_file w) (_gemini_configured w) (_qa_cache w) (trace w ++ [ev]).

(** A fresh process on an empty database, with no index file. *)
Definition empty_world : world := World ∅ None None false None false ∅ [].

(** ** The monad *)

Definition M (A : Type) : Type := world → outcome A * world.

Definition ret {A} (a : A) : M A := λ w, (Ok a, w).
Definition raise {A} (e : exn) : M A := λ w, (Raise e, w).
Definition bind {A B} (m : M A) (k : A → M B) : M B :=
  λ w, match m w with
       | (Ok a, w') => k a w'
       | (Raise e, w') => (Raise e, w')
       end.
(** [try: m except Exception as e: h e] *)
Definition try_except {A} (m : M A) (h : exn → M A) : M A :=
  λ w, match m w with
       | (Ok a, w') => (Ok a, w')
       | (Raise e, w') => h e w'
       end.
Definition get : M world := λ w, (Ok w, w).
Definition modify (f : world → world) : M unit := λ w, (Ok tt, f w).
Definition emit (ev : event) : M unit := modify (log ev).

Declare Scope py_scope.
Delimit Scope py_scope with py.
Notation "x <- m ;; k" := (bind m (λ x, k))
  (at level 100, m at next level, right associativity) : py_scope.
Notation "m ;;> k" := (bind m (λ _, k))
  (at level 100, right associativity) : py_scope.
Local Open Scope py_scope.

(** The outcome of a call that does not touch the state. *)
Definition lift {A} (r : outcome A) : M A := λ w, (r, w).

(** A fallible call to a collaborator that answers with a value. *)
Definition call {A} (ev : event) (r : option A) (what : string) : M A :=
  emit ev ;;> match r with Some a => ret a | None => raise (ServiceError what) end.

(** A call on the database: it is logged, and raises if the database does. *)
Definition db (e : env) (c : db_call) : M unit :=
  emit (EvDb c) ;;>
  if db_fails e c then raise (ServiceError "mongo") else ret tt.

(** ** MongoDB: the [notes] collection and the counter *)

(** [{"$set": updates}] applied to a stored document: the keys of [updates]
    replace the stored ones, the other keys stay. *)
Definition set_field {A} (new old : option A) : option A :=
  match new with Some a => Some a | None => old end.

Definition apply_set (updates d : document) : document :=
  Document (set_field (title updates) (title d))
           (set_field (content updates) (content d))
           (set_field (tags updates) (tags d))
           (set_field (workspace updates) (workspace d))
           (set_field (created_at updates) (created_at d))
           (set_field (updated_at updates) (updated_at d)).

(** [db["notes"].insert_one(note)]; the unique index on [_id] rejects an id
    that is already stored. *)
Definition insert_one (e : env) (id : Z) (d : document) : M unit :=
  db e (InsertOne id) ;;>
  w <- get ;;
  match notes w !! id with
  | Some _ => raise (DuplicateKeyError id)
  | None => modify (set_notes (insert id d))
  end.

(** [db["notes"].delete_one({"_id": id}).deleted_count] *)
Definition delete_one (e : env) (id : Z) : M Z :=
  db e (DeleteOne id) ;;>
  w <- get ;;
  match notes w !! id with
  | Some _ => modify (set_notes (delete id)) ;;> ret 1
  | None => ret 0
  end.

(** [db["notes"].update_one({"_id": id}, {"$set": updates}).modified_count]:
    1 when a document has the id and the update changes it, else 0 (no document
    with the id, or one that already has the values; an empty [updates] is the
    no-op that MongoDB 5 makes of it). *)
Definition update_one (e : env) (id : Z) (updates : document) : M Z :=
  db e (UpdateOne id) ;;>
  w <- get ;;
  match notes w !! id with
  | Some d =>
      if decide (apply_set updates d = d) then ret 0
      else modify (set_notes (insert id (apply_set updates d))) ;;> ret 1
  | None => ret 0
  end.

(** [list(db["notes"].find(query))], the query given as a predicate. *)
Definition find (e : env) (c : db_call) (P : note → Prop) `{∀ n, Decision (P n)}
    : M (list note) :=
  db e c ;;>
  w <- get ;;
  ret (filter P (map_to_list (notes w))).

(** [db["notes"].find_one({"_id": id})] *)
Definition find_one (e : env) (id : Z) : M (option note) :=
  db e (FindOne id) ;;>
  w <- get ;;
  ret ((λ d, (id, d)) <$> notes w !! id).

(** *** modules/db.py *)

(** [find_one_and_update] with [$inc], [upsert=True] and the document returned
    after the update: the first call creates the counter at 1. *)
Definition get_next_note_id (e : env) : M Z :=
  db e CounterInc ;;>
  w <- get ;;
  let seq := match counter_seq w with Some n => n + 1 | None => 1 end in
  modify (set_counter_seq (Some seq)) ;;>
  ret seq.

(** ** modules/search_engine.py *)

Definition load_index : M faiss_index :=
  w <- get ;;
  match _index w with
  | None =>
      let idx := match index_file w with Some f => f | None => [] end in
      modify (set_index (Some idx)) ;;>
      modify (set_index_modified false) ;;>
      ret idx
  | Some idx => ret idx
  end.

Definition save_index : M unit :=
  w <- get ;;
  match _index w with
  | Some idx =>
      if _index_modified w
      then modify (set_index_file (Some idx)) ;;> modify (set_index_modified false)
      else ret tt
  | None => ret tt
  end.

Definition add_note_to_index (e : env) (note_id : Z) (content : string) : M unit :=
  idx <- load_index ;;
  embedding <- call (EvEncode content) (encode e content) "encode" ;;
  emit (EvIndexAdd note_id embedding) ;;>
  modify (set_index (Some (add_with_ids idx embedding note_id))) ;;>
  modify (set_index_modified true).

Definition remove_note_from_index (note_id : Z) : M unit :=
  idx <- load_index ;;
  emit (EvIndexRemove note_id) ;;>
  modify (set_index (Some (remove_ids idx note_id))) ;;>
  modify (set_index_modified true).

Definition search_similar_notes (e : env) (query : string) (k : nat) : M (list Z) :=
  idx <- load_index ;;
  query_embedding <- call (EvEncode query) (encode e query) "encode" ;;
  emit (EvIndexSearch k) ;;>
  indices <- lift (faiss_search idx query_embedding k) ;;
  ret (filter (λ i, i ≠ -1) indices).

(** The text index itself is kept by MongoDB and is not part of [world]. *)
Definition ensure_text_index (e : env) : M unit :=
  db e EnsureTextIndex.

Definition full_text_search (e : env) (query : string) : M (list note) :=
  ensure_text_index e ;;>
  find e (TextSearch query) (λ n, Is_true (text_match e query (fields n))).

(** ** modules/audio_to_text.py *)

(** Whatever goes wrong is raised again as a [RuntimeError]; the text of the
    cause, which the message embeds, is left out. *)
Definition transcribe_audio (e : env) (audio_path : string) : M string :=
  try_except
    (call (EvTranscribe audio_path) (recognize_google e audio_path) "speech")
    (λ _, raise (RuntimeError "Transcription failed")).

(** ** modules/note_crud.py *)

(** Every call site passes a string for [content]; [tags], [workspace] and
    [audio_path] may be [None].  The two readings of the clock give one value. *)
Definition add_note (e : env) (title content : string) (tags : option (list string))
    (workspace audio_path : option string) : M Z :=
  content <- match audio_path with
             | Some p => if decide (p = EmptyString) then ret content else transcribe_audio e p
             | None => ret content
             end ;;
  let tags := default [] tags in
  let workspace := default "default" workspace in
  note_id <- get_next_note_id e ;;
  let note := Document (Some title) (Some content) (Some tags) (Some workspace)
                       (Some (utcnow e)) (Some (utcnow e)) in
  insert_one e note_id note ;;>
  add_note_to_index e note_id content ;;>
  ret note_id.

Definition list_notes (e : env) (filters : note → Prop) `{∀ n, Decision (filters n)}
    : M (list note) :=
  find e FindAll filters.

Definition delete_note (e : env) (note_id : Z) : M Z :=
  deleted_count <- delete_one e note_id ;;
  (if decide (deleted_count = 0) then ret tt else remove_note_from_index note_id) ;;>
  ret deleted_count.

Definition edit_note (e : env) (note_id : Z) (updates : document) : M Z :=
  (match content updates with
   | Some _ => remove_note_from_index note_id
   | None => ret tt
   end) ;;>
  modified_count <- update_one e note_id updates ;;
  (match content updates with
   | Some new_content =>
       if decide (modified_count = 0) then ret tt
       else add_note_to_index e note_id new_content
   | None => ret tt
   end) ;;>
  ret modified_count.

(** ** Python strings *)

Definition nl : string := String "010"%char EmptyString.

(** [s[n:]] *)
Fixpoint slice_from (n : nat) (s : string) : string :=
  match n, s with
  | O, _ => s
  | S n', String _ s' => slice_from n' s'
  | S _, EmptyString => EmptyString
  end.

(** [s.split(sep)] for a one-character separator. *)
Fixpoint split_on (sep : ascii) (s : string) : list string :=
  match s with
  | EmptyString => [EmptyString]
  | String c s' =>
      if decide (c = sep) then EmptyString :: split_on sep s'
      else match split_on sep s' with
           | piece :: rest => String c piece :: rest
           | [] => [String c EmptyString]
           end
  end.

(** [c.isspace()]: the white space of Python among the code points below
    256 is U+0009 to U+000D, U+001C to U+0020, U+0085 and U+00A0. *)
Definition isspace (c : ascii) : bool :=
  let n := nat_of_ascii c in
  ((9 <=? n) && (n <=? 13) || (28 <=? n) && (n <=? 32) || (n =? 133) || (n =? 160))%nat.

Fixpoint lstrip (s : string) : string :=
  match s with
  | String c s' => if isspace c then lstrip s' else s
  | EmptyString => EmptyString
  end.

(** [s.strip()]: white space is what [isspace] says. *)
Definition strip (s : string) : string :=
  String.rev (lstrip (String.rev (lstrip s))).

(** [s.replace(chr(10), "\\n")] *)
Fixpoint escape_newlines (s : string) : string :=
  match s with
  | EmptyString => EmptyString
  | String c s' =>
      if decide (c = "010"%char) then String "\"%char (String "n"%char (escape_newlines s'))
      else String c (escape_newlines s')
  end.

(** [c * n] *)
Fixpoint repeat_char (c : ascii) (n : nat) : string :=
  match n with O => EmptyString | S n' => String c (repeat_char c n') end.

(** [if s:] on a value that is a string or [None]. *)
Definition truthy (s : option string) : bool :=
  match s with
  | Some s => bool_decide (s ≠ EmptyString)
  | None => false
  end.

(** [s or d] *)
Definition or_default (s d : string) : string :=
  if decide (s = EmptyString) then d else s.

(** ** modules/gemini_client.py *)

Definition _ensure_gemini (e : env) : M unit :=
  w <- get ;;
  if _gemini_configured w then ret tt
  else
    let key := default "default_key" (GEMINI_API_KEY e) in
    if decide (key = EmptyString) then raise (EnvironmentError "GEMINI_API_KEY not set")
    else modify (set_gemini_configured true).

Definition AI_RESPONSE_FAILED : string := "[AI response failed]".

Definition generate_response (e : env) (prompt : string) (use_web_search : bool)
    : M string :=
  _ensure_gemini e ;;>
  try_except
    (if use_web_search
     then
       let web_prompt :=
         "Please search the web for current information and answer: " +:+ prompt in
       call (EvGenerate web_prompt) (generate_content e web_prompt) "gemini"
     else call (EvGenerate prompt) (generate_content e prompt) "gemini")
    (λ _, ret AI_RESPONSE_FAILED).

Definition NO_MATCHING_NOTES : string :=
  "I couldn't find any notes that match your question. Please try adding some notes first or rephrase your question.".

(** The candidate list of [ask_question] and [ask_question_web]: the notes of
    the semantic search, fetched in one query, then the full-text results whose
    id the semantic search did not return. *)
Definition collect_relevant_notes (e : env) (similar_note_ids : list Z)
    (full_text_results : list note) : M (list note) :=
  semantic_notes <-
    (if decide (similar_note_ids = []) then ret []
     else find e (FindIn similar_note_ids) (λ n, _id n ∈ similar_note_ids)) ;;
  ret (semantic_notes ++ filter (λ n, _id n ∉ similar_note_ids) full_text_results).

(** The block that [ask_question] adds to the context for the [i]-th note. *)
Definition note_block (e : env) (i : nat) (n : note) : string :=
  let d := fields n in
  "Note " +:+ pretty i +:+ ":" +:+ nl +:+
  "Title: " +:+ default "Untitled" (title d) +:+ nl +:+
  "Content: " +:+ default EmptyString (content d) +:+ nl +:+
  "Tags: " +:+ String.concat ", " (default [] (tags d)) +:+ nl +:+
  "Workspace: " +:+ default "default" (workspace d) +:+ nl +:+
  "Date: " +:+ from_option (strftime e "%Y-%m-%d %H:%M:%S.%f") "Unknown" (created_at d)
           +:+ nl +:+
  repeat_char "-"%char 50 +:+ nl +:+ nl.

Definition qa_prompt (e : env) (question : string) (k : nat) (relevant_notes : list note)
    : string :=
  let context :=
    "Based on the following notes:" +:+ nl +:+ nl +:+
    String.concat EmptyString (imap (λ i n, note_block e (S i) n) (take k relevant_notes)) in
  context +:+ nl +:+ nl +:+ "Question: " +:+ question +:+ nl +:+ nl +:+
  "Please answer the question based on the notes provided above. If the notes don't contain enough information to answer the question, please say so.".

Definition ask_question (e : env) (question : string) (k : nat) : M string :=
  w <- get ;;
  match _qa_cache w !! question with
  | Some answer => ret answer
  | None =>
      similar_note_ids <- search_similar_notes e question k ;;
      full_text_results <- full_text_search e question ;;
      relevant_notes <- collect_relevant_notes e similar_note_ids full_text_results ;;
      match relevant_notes with
      | [] =>
          let response := NO_MATCHING_NOTES in
          modify (set_qa_cache (insert question response)) ;;>
          ret response
      | _ :: _ =>
          let prompt := qa_prompt e question k relevant_notes in
          response <- generate_response e prompt false ;;
          modify (set_qa_cache (insert question response)) ;;>
          ret response
      end
  end.

Definition web_prompt (e : env) (question : string) (k : nat) (relevant_notes : list note)
    : string :=
  let notes_context :=
    match relevant_notes with
    | [] => EmptyString
    | _ :: _ =>
        nl +:+ nl +:+ "Also consider these relevant notes from your database:" +:+ nl +:+ nl +:+
        String.concat EmptyString
          (imap (λ i n, note_block e (S i) n) (take k relevant_notes))
    end in
  "Please provide a comprehensive and up-to-date answer to this question: " +:+
  question +:+ notes_context +:+ nl +:+ nl +:+
  "Please provide current information and insights. If there are relevant notes from the user's database, incorporate that context as well. If the question requires very recent information that might not be in your training data, please note that and provide the best available information.".

Definition ask_question_web (e : env) (question : string) (k : nat) : M string :=
  similar_note_ids <- search_similar_notes e question k ;;
  full_text_results <- full_text_search e question ;;
  relevant_notes <- collect_relevant_notes e similar_note_ids full_text_results ;;
  let prompt := web_prompt e question k relevant_notes in
  generate_response e prompt false.

(** ** agent_runner.py *)

Definition check_trigger (trigger : string) (n : note) : bool :=
  if String.prefix "tag:" trigger then
    let tag_condition := slice_from 4 trigger in
    if decide (tag_condition = "[]") then
      (* not note.get("tags") *)
      match tags (fields n) with
      | None | Some [] => true
      | Some (_ :: _) => false
      end
    else
      (* tag_condition in note.get("tags", []) *)
      bool_decide (tag_condition ∈ default [] (tags (fields n)))
  else false.

(** [note[key]]: a missing key raises [KeyError]. *)
Definition subscript {A} (key : string) (v : option A) : M A :=
  match v with Some a => ret a | None => raise (KeyError key) end.

(** Every step on the file system (creating the directory, opening, writing)
    is one fallible call that leaves the path and the data in the trace. *)
Definition write_file (e : env) (path data : string) : M unit :=
  emit (EvFile path data) ;;>
  if fs_fails e then raise (ServiceError "file system") else ret tt.

Definition ics_content (e : env) (n : note) (title description : string)
    (start_time end_time : Z) : string :=
  "BEGIN:VCALENDAR" +:+ nl +:+
  "VERSION:2.0" +:+ nl +:+
  "PRODID:-//AI Notes App//Calendar Event//EN" +:+ nl +:+
  "CALSCALE:GREGORIAN" +:+ nl +:+
  "METHOD:PUBLISH" +:+ nl +:+
  "BEGIN:VEVENT" +:+ nl +:+
  "UID:" +:+ pretty (_id n) +:+ "@ai-notes-app" +:+ nl +:+
  "DTSTAMP:" +:+ strftime e "%Y%m%dT%H%M%SZ" (now e) +:+ nl +:+
  "DTSTART:" +:+ strftime e "%Y%m%dT%H%M%S" start_time +:+ nl +:+
  "DTEND:" +:+ strftime e "%Y%m%dT%H%M%S" end_time +:+ nl +:+
  "SUMMARY:" +:+ title +:+ nl +:+
  "DESCRIPTION:" +:+ description +:+ nl +:+
  "STATUS:CONFIRMED" +:+ nl +:+
  "SEQUENCE:0" +:+ nl +:+
  "END:VEVENT" +:+ nl +:+
  "END:VCALENDAR" +:+ nl.

Definition add_to_calendar (e : env) (n : note) : M unit :=
  title <- subscript "title" (title (fields n)) ;;
  content <- subscript "content" (content (fields n)) ;;
  let start_time := now e + 86400 in
  let end_time := start_time + 3600 in
  try_except
    (let description := escape_newlines content in
     let ics := ics_content e n title description start_time end_time in
     let event_file := "calendar_events/event_" +:+ pretty (_id n) +:+ ".ics" in
     write_file e event_file ics ;;>
     write_file e "reminders.ics" (ics +:+ nl))
    (λ _, ret tt).

(** The message opens with an emoji in the source; it is outside the code
    points of the model and is left out. *)
Definition share_to_whatsapp (e : env) (n : note) : M unit :=
  title <- subscript "title" (title (fields n)) ;;
  content <- subscript "content" (content (fields n)) ;;
  let message :=
    "Shared Note: " +:+ title +:+ nl +:+ nl +:+ content +:+ nl +:+ nl +:+
    "---" +:+ nl +:+ "Shared via AI Notes App" in
  try_except
    (let timestamp := strftime e "%Y-%m-%d %H:%M:%S" (now e) in
     let log_entry :=
       "[" +:+ timestamp +:+ "] WhatsApp Share: " +:+ title +:+ nl +:+
       "Message: " +:+ message +:+ nl +:+ nl in
     write_file e "whatsapp_shares.log" log_entry ;;>
     let share_file := "whatsapp_share_" +:+ pretty (_id n) +:+ ".txt" in
     write_file e share_file message)
    (λ _, ret tt).

Definition rephrase_note (e : env) (n : note) : M unit :=
  try_except
    (content <- subscript "content" (content (fields n)) ;;
     let prompt := "Rephrase the following note: " +:+ content in
     new_content <- generate_response e prompt false ;;
     update_one e (_id n)
       (Document None (Some new_content) None None None (Some (utcnow e))) ;;>
     ret tt)
    (λ _, ret tt).

(** [list(set(l))]: the elements of [l] once each; Python leaves the order
    open, the model keeps each element where it occurs last. *)
Definition list_set (l : list string) : list string := remove_dups l.

Definition suggest_tags (e : env) (n : note) : M unit :=
  try_except
    (content <- subscript "content" (content (fields n)) ;;
     let prompt := "Suggest 1 to 3 tags for this note: " +:+ content in
     response <- generate_response e prompt false ;;
     let suggested_tags := strip <$> split_on ","%char response in
     let current_tags := default [] (tags (fields n)) in
     let new_tags := list_set (current_tags ++ suggested_tags) in
     update_one e (_id n) (Document None None (Some new_tags) None None None) ;;>
     ret tt)
    (λ _, ret tt).

Definition action_functions (action : string) : option (env → note → M unit) :=
  if decide (action = "calendar_event") then Some add_to_calendar
  else if decide (action = "share_to_whatsapp") then Some share_to_whatsapp
  else if decide (action = "rephrase_with_gemini") then Some rephrase_note
  else if decide (action = "suggest_tags") then Some suggest_tags
  else None.

(** The handler is entered ([EvAction]) or the unknown name is printed. *)
Definition perform_action (e : env) (action : string) (n : note) : M unit :=
  match action_functions action with
  | Some func => emit (EvAction action (_id n)) ;;> func e n
  | None => emit (EvUnknownAction action)
  end.

(** The body of the loop of [run_agents] for one entry of the file. *)
Definition run_agent (e : env) (n : note) (agent : string * agent_config) : M unit :=
  let agent_config := agent.2 in
  let trigger := trigger agent_config in
  let action := action agent_config in
  if truthy trigger && truthy action then
    if check_trigger (default EmptyString trigger) n
    then perform_action e (default EmptyString action) n
    else ret tt
  else ret tt.

(** [for x in l: body(x)] *)
Fixpoint for_each {A} (l : list A) (body : A → M unit) : M unit :=
  match l with
  | [] => ret tt
  | x :: l' => body x ;;> for_each l' body
  end.

Definition run_agents (e : env) (n : note) : M unit :=
  match agents_json e with
  | None => ret tt
  | Some agents => for_each agents (run_agent e n)
  end.

(** ** modules/cli.py *)

(** [[tag.strip() for tag in tags.split(",") if tag.strip()]] *)
Definition tags_list_of (tags : string) : list string :=
  strip <$> filter (λ tag, strip tag ≠ EmptyString) (split_on ","%char tags).

(** The [add] command.  [encrypt_content] raises when the key is not set. *)
Definition cli_add (e : env) (title content tags workspace : string) (encrypt : bool)
    (audio_path : string) : M unit :=
  let tags_list := tags_list_of tags in
  content <-
    (if encrypt && bool_decide (content ≠ EmptyString)
     then match fernet_encrypt e content with
          | Some c => ret c
          | None => raise (EnvironmentError "NOTE_ENCRYPTION_KEY not set")
          end
     else ret content) ;;
  note_id <- add_note e (or_default title EmptyString) (or_default content EmptyString)
               (Some tags_list) (Some (or_default workspace "default"))
               (if decide (audio_path = EmptyString) then None else Some audio_path) ;;
  found <- find_one e note_id ;;
  (match found with
   | Some n => run_agents e n
   | None => ret tt
   end) ;;>
  emit (EvConsole ("Note added with ID " +:+ pretty note_id)).

(** The [edit] command. *)
Definition cli_edit (e : env) (note_id : Z) (title content tags : string) (encrypt : bool)
    : M unit :=
  content_update <-
    (if decide (content = EmptyString) then ret None
     else if encrypt
          then match fernet_encrypt e content with
               | Some c => ret (Some c)
               | None => raise (EnvironmentError "NOTE_ENCRYPTION_KEY not set")
               end
          else ret (Some content)) ;;
  let updates :=
    Document (if decide (title = EmptyString) then None else Some title)
             content_update
             (if decide (tags = EmptyString) then None
              else Some (strip <$> split_on ","%char tags))
             None None None in
  modified_count <- edit_note e note_id updates ;;
  (if decide (modified_count = 0) then ret tt
   else
     found <- find_one e note_id ;;
     match found with
     | Some n => run_agents e n
     | None => ret tt
     end) ;;>
  emit (EvConsole ("Modified " +:+ pretty modified_count +:+ " note(s)")).

(** The [add-voice] command: everything happens inside one [try]. *)
Definition cli_add_voice (e : env) (audio_path title tags workspace : string) : M unit :=
  try_except
    (let tags_list := tags_list_of tags in
     note_id <- add_note e (or_default title EmptyString) EmptyString
                  (Some tags_list) (Some (or_default workspace "default"))
                  (if decide (audio_path = EmptyString) then None else Some audio_path) ;;
     emit (EvConsole ("Voice note added with ID " +:+ pretty note_id)))
    (λ _, ret tt).

(** The [delete] command. *)
Definition cli_delete (e : env) (note_id : Z) : M unit :=
  deleted_count <- delete_note e note_id ;;
  emit (EvConsole ("Deleted " +:+ pretty deleted_count +:+ " note(s)")).

(** [console.print(markup)] of rich, for a markup that holds text of the
    user: the square brackets in it are read as style tags, and a closing tag
    that closes nothing raises [MarkupError].  What is shown is left to
    [rich_render].  (The prints of the other commands have a fixed markup
    around a number; they are given by the text they show.) *)
Definition console_print (e : env) (markup : string) : M unit :=
  match rich_render e markup with
  | Some text => emit (EvConsole text)
  | None => raise (MarkupError markup)
  end.

(** The [ask] command; [k] is left at its default. *)
Definition cli_ask (e : env) (question : string) : M unit :=
  answer <- ask_question e question 5 ;;
  console_print e ("[blue]Answer:[/blue] " +:+ answer).

(** [s[:n]] *)
Fixpoint slice_to (n : nat) (s : string) : string :=
  match n, s with
  | S n', String c s' => String c (slice_to n' s')
  | _, _ => EmptyString
  end.

(** [content[:50] + ("..." if len(content) > 50 else "")], the way [list]
    and [search] show a content: 50 characters, that is, code points. *)
Definition preview (content : string) : string :=
  slice_to 50 content +:+
  (if decide (50 < String.length content)%nat then "..." else EmptyString).

(** The line that [list] and [search] pass to the console for a note. *)
Definition note_line (n : note) : string :=
  "ID: " +:+ pretty (_id n) +:+
  " | Title: " +:+ default EmptyString (title (fields n)) +:+
  " | Content: " +:+ preview (default EmptyString (content (fields n))).

(** The [search] command. *)
Definition cli_search (e : env) (query : string) : M unit :=
  results <- full_text_search e query ;;
  (match results with
   | [] => console_print e ("[yellow]No results found for: " +:+ query +:+ "[/yellow]")
   | _ :: _ => ret tt
   end) ;;>
  for_each results (λ n, console_print e (note_line n)).

(** ** modules/db.py: the connection *)

(** The module globals [_client] (is there a client object) and [_db] (the
    database handle, by the name of the database). *)
Record connection := Connection {
  _client : bool;
  _db     : option string;
}.

(** What one pass through the [try] of [connect_to_db] meets:
    [MongoClient(url)] raises; or the client is made and
    [get_default_database()] raises, returns a database, or returns [None]. *)
Inductive attempt :=
  | ClientRaises
  | DefaultRaises
  | DefaultIs (name : string)
  | DefaultNone.

Inductive connect_event :=
  | Attempt (i : nat)
  | Sleep (delay : Z).

(** The [for attempt in range(retries)] loop, over the attempts still to
    make.  [MONGO_DB_NAME] is the environment variable.  [time.sleep] raises
    [ValueError] for a negative [delay]; raised inside the [except] clause, it
    leaves the loop and the function. *)
Fixpoint connect_loop (outcomes : nat → attempt) (MONGO_DB_NAME : option string)
    (retries : nat) (delay : Z) (attempts : list nat) (st : connection)
    : outcome unit * connection * list connect_event :=
  match attempts with
  | [] => (Ok tt, st, [])
  | i :: attempts' =>
      let except (st' : connection) :=
        if decide (i < retries - 1)%nat
        then
          if decide (delay < 0)
          then (Raise (ValueError "sleep length must be non-negative"), st',
                [Attempt i; Sleep delay])
          else
            let '(r, st'', evs) :=
              connect_loop outcomes MONGO_DB_NAME retries delay attempts' st' in
            (r, st'', Attempt i :: Sleep delay :: evs)
        else (Raise (RuntimeError "Failed to connect to MongoDB"), st', [Attempt i]) in
      match outcomes i with
      | ClientRaises => except st
      | DefaultRaises => except (Connection true (_db st))
      | DefaultIs name => (Ok tt, Connection true (Some name), [Attempt i])
      | DefaultNone =>
          (Ok tt, Connection true (Some (default "ai_notes" MONGO_DB_NAME)), [Attempt i])
      end
  end.

Definition connect_to_db (outcomes : nat → attempt) (MONGO_DB_NAME : option string)
    (retries : nat) (delay : Z) (st : connection)
    : outcome (option string) * connection * list connect_event :=
  if _client st then (Ok (_db st), st, [])
  else
    let '(r, st', evs) :=
      connect_loop outcomes MONGO_DB_NAME retries delay (seq 0 retries) st in
    match r with
    | Ok _ => (Ok (_db st'), st', evs)
    | Raise x => (Raise x, st', evs)
    end.

(** ** modules/exporter.py *)

Definition _MARKDOWN_TEMPLATE : string :=
  nl +:+ "# {title}" +:+ nl +:+ nl +:+
  "**Tags:** {tags}" +:+ nl +:+ nl +:+
  "**Workspace:** {workspace}" +:+ nl +:+ nl +:+
  "{content}" +:+ nl +:+ nl +:+
  "---" +:+ nl +:+ nl.

Definition _HTML_TEMPLATE : string :=
  nl +:+ "<!DOCTYPE html>" +:+ nl +:+
  "<html lang=" +:+ String "034"%char ("en" +:+ String "034"%char (">" +:+ nl +:+
  "<head><meta charset=" +:+ String "034"%char ("UTF-8" +:+ String "034"%char
     ("><title>{title}</title></head>" +:+ nl +:+
  "<body>" +:+ nl +:+
  "  <h1>{title}</h1>" +:+ nl +:+
  "  <p><strong>Tags:</strong> {tags}</p>" +:+ nl +:+
  "  <p><strong>Workspace:</strong> {workspace}</p>" +:+ nl +:+
  "  <div>{content}</div>" +:+ nl +:+
  "</body>" +:+ nl +:+
  "</html>" +:+ nl)))).

(** [s] without one final line feed, if it has one. *)
Fixpoint chomp (s : string) : string :=
  match s with
  | EmptyString => EmptyString
  | String c EmptyString => if decide (c = "010"%char) then EmptyString else s
  | String c s' => String c (chomp s')
  end.

(** [template.render(title=..., tags=..., workspace=..., content=...)] for a
    Jinja2 template made with the default environment.  Jinja2 substitutes
    [{{ name }}]; the templates of this module write [{name}], which is plain
    text to it, so the values are not used.  The default environment drops one
    final line feed of the template. *)
Definition render (template : string) (title tags workspace content : string) : string :=
  chomp template.

(** [s.replace("\n", "<br>")] *)
Fixpoint newlines_to_br (s : string) : string :=
  match s with
  | EmptyString => EmptyString
  | String c s' =>
      if decide (c = "010"%char) then "<br>" +:+ newlines_to_br s'
      else String c (newlines_to_br s')
  end.

(** One pass of the loop of an exporter: the four subscripts, in the order
    of the keyword arguments, then the rendering. *)
Definition export_note (template : string) (prepare : string → string) (n : note)
    : M string :=
  title <- subscript "title" (title (fields n)) ;;
  tags <- subscript "tags" (tags (fields n)) ;;
  workspace <- subscript "workspace" (workspace (fields n)) ;;
  content <- subscript "content" (content (fields n)) ;;
  ret (render template title (String.concat ", " tags) workspace (prepare content)).

Fixpoint export_notes (template : string) (prepare : string → string) (notes : list note)
    (acc : string) : M string :=
  match notes with
  | [] => ret acc
  | n :: notes' =>
      block <- export_note template prepare n ;;
      export_notes template prepare notes' (acc +:+ block)
  end.

Definition export_notes_to_markdown (e : env) (notes : list note)
    (output_path : option string) : M string :=
  md_content <- export_notes _MARKDOWN_TEMPLATE (λ c, c) notes EmptyString ;;
  (if truthy output_path then write_file e (default EmptyString output_path) md_content
   else ret tt) ;;>
  ret md_content.

Definition export_notes_to_html (e : env) (notes : list note)
    (output_path : option string) : M string :=
  html_content <- export_notes _HTML_TEMPLATE newlines_to_br notes EmptyString ;;
  (if truthy output_path then write_file e (default EmptyString output_path) html_content
   else ret tt) ;;>
  ret html_content.

(** ** Sequences of repository operations *)

Inductive op :=
  | Create (title content : string) (tags : option (list string))
           (workspace audio_path : option string)
  | Update (note_id : Z) (updates : document)
  | Delete (note_id : Z).

(** One operation under the environment it meets; the caller goes on with the
    state it leaves, whether it returned or raised. *)
Definition run_op (e : env) (o : op) (w : world) : world :=
  match o with
  | Create title content tags workspace audio_path =>
      (add_note e title content tags workspace audio_path w).2
  | Update note_id updates => (edit_note e note_id updates w).2
  | Delete note_id => (delete_note e note_id w).2
  end.

Definition run_ops (l : list (env * op)) (w : world) : world :=
  foldl (λ w eo, run_op eo.1 eo.2 w) w l.

(** The entries of the vector index as the next use of it sees them: the
    loaded index, or else what [load_index] will read. *)
Definition index_entries (w : world) : faiss_index :=
  match _index w with
  | Some idx => idx
  | None => default [] (index_file w)
  end.

Definition index_ids (w : world) : list Z := fst <$> index_entries w.

(** An environment in which everything works; the encoder is given. *)
Definition working_env (enc : string → vec) : env :=
  Env (λ p, Some ("transcript of " +:+ p)) (λ s, Some (enc s))
      (λ p, Some ("answer")) (λ _ _, false) (λ _, false) false None 0 0
      (λ _ _, "date") None (λ s, Some s) (λ s, Some s).

Definition set_encode (f : string → option vec) (e : env) : env :=
  Env (recognize_google e) f (generate_content e) (text_match e) (db_fails e)
      (fs_fails e) (GEMINI_API_KEY e) (utcnow e) (now e) (strftime e)
      (agents_json e) (fernet_encrypt e) (rich_render e).
Definition set_generate_content (f : string → option string) (e : env) : env :=
  Env (recognize_google e) (encode e) f (text_match e) (db_fails e)
      (fs_fails e) (GEMINI_API_KEY e) (utcnow e) (now e) (strftime e)
      (agents_json e) (fernet_encrypt e) (rich_render e).
Definition set_text_match (f : string → document → bool) (e : env) : env :=
  Env (recognize_google e) (encode e) (generate_content e) f (db_fails e)
      (fs_fails e) (GEMINI_API_KEY e) (utcnow e) (now e) (strftime e)
      (agents_json e) (fernet_encrypt e) (rich_render e).
Definition set_agents_json (a : option (list (string * agent_config))) (e : env) : env :=
  Env (recognize_google e) (encode e) (generate_content e) (text_match e) (db_fails e)
      (fs_fails e) (GEMINI_API_KEY e) (utcnow e) (now e) (strftime e)
      a (fernet_encrypt e) (rich_render e).

(** A stand-in encoder: the code points of the text. *)
Definition code_points (s : string) : vec :=
  (λ c, Z.of_nat (nat_of_ascii c)) <$> list_ascii_of_string s.

(** ** Vocabulary of the properties *)

(** [note.get("tags", [])] *)
Definition note_tags (n : note) : list string := default [] (tags (fields n)).

(** The state after [load_index()]. *)
Definition loaded (w : world) : world :=
  match _index w with
  | None => set_index_modified false (set_index (Some (index_entries w)) w)
  | Some _ => w
  end.

(** The entries that the index holds under one id. *)
Definition entries_for (id : Z) (w : world) : faiss_index :=
  filter (λ en, en.1 = id) (index_entries w).

(** The id that the next [get_next_note_id] hands out. *)
Definition next_seq (counter : option Z) : Z :=
  match counter with Some n => n + 1 | None => 1 end.
Definition next_id (w : world) : Z := next_seq (counter_seq w).

(** The encoder is a function of the text, when it answers. *)
Definition env_encodes (enc : string → vec) (e : env) : Prop :=
  ∀ s v, encode e s = Some v → v = enc s.

(** The index against the database: one entry per id at most, every entry
    under the id of a stored note and computed from the content that the note
    has now; and every stored id was handed out by the counter. *)
Definition consistent_at (enc : string → vec) (ns : gmap Z document)
    (counter : option Z) (idx : faiss_index) : Prop :=
  NoDup idx.*1 ∧
  (∀ id v, (id, v) ∈ idx →
     ∃ d c, ns !! id = Some d ∧ content d = Some c ∧ v = enc c) ∧
  (∀ id, is_Some (ns !! id) → id < next_seq counter).

Definition consistent (enc : string → vec) (w : world) : Prop :=
  consistent_at enc (notes w) (counter_seq w) (index_entries w).

(** The other direction: the note under [id], if there is one, has an index
    entry. *)
Definition indexed (id : Z) (w : world) : Prop :=
  is_Some (notes w !! id) → id ∈ index_ids w.

(** An operation that does not leave the note under [id] without its entry:
    a create that stores the note returns, and so does a content update of the
    stored note, with a modified count that is not zero.  Nothing is asked of
    the other operations, nor of operations on other notes. *)
Definition keeps_entry (id : Z) (e : env) (o : op) (w : world) : Prop :=
  match o with
  | Create title content tags workspace audio_path =>
      notes w !! id = None →
      is_Some (notes (add_note e title content tags workspace audio_path w).2 !! id) →
      ∃ r, (add_note e title content tags workspace audio_path w).1 = Ok r
  | Update note_id updates =>
      note_id = id → is_Some (content updates) → is_Some (notes w !! id) →
      ∃ n, (edit_note e id updates w).1 = Ok n ∧ n ≠ 0
  | Delete _ => True
  end.

Fixpoint keeps_entry_run (id : Z) (l : list (env * op)) (w : world) : Prop :=
  match l with
  | [] => True
  | eo :: l' => keeps_entry id eo.1 eo.2 w ∧ keeps_entry_run id l' (run_op eo.1 eo.2 w)
  end.

(** The invariant as the specification words it: an id has an index entry
    exactly when a note with that id is stored with non-empty content. *)
Definition indexed_iff_content (w : world) : Prop :=
  ∀ id, id ∈ index_ids w ↔
        ∃ d c, notes w !! id = Some d ∧ content d = Some c ∧ c ≠ EmptyString.

(** The document that [add_note] stores. *)
Definition new_note (e : env) (title content : string) (tags : option (list string))
    (workspace : option string) : document :=
  Document (Some title) (Some content) (Some (default [] tags))
           (Some (default "default" workspace)) (Some (utcnow e)) (Some (utcnow e)).

(** Whatever the process can be asked to do between two questions. *)
Inductive command :=
  | Repository (o : op)
  | Ask (question : string) (k : nat)
  | Agents (n : note)
  | SaveIndex.

Definition run_command (e : env) (c : command) (w : world) : world :=
  match c with
  | Repository o => run_op e o w
  | Ask question k => (ask_question e question k w).2
  | Agents n => (run_agents e n w).2
  | SaveIndex => (save_index w).2
  end.

Definition run_commands (l : list (env * command)) (w : world) : world :=
  foldl (λ w ec, run_command ec.1 ec.2 w) w l.

(** A computation that leaves the answer cache as it found it. *)
Definition keeps_cache {A} (m : M A) : Prop :=
  ∀ w, _qa_cache (m w).2 = _qa_cache w.

(** The notes that are stored, as [find] lists them. *)
Definition stored (w : world) : list note := map_to_list (notes w).

(** The events of the two searches of [ask_question]. *)
Definition search_events (question : string) (k : nat) : list event :=
  [EvEncode question; EvIndexSearch k; EvDb EnsureTextIndex; EvDb (TextSearch question)].

(** A computation that returns, whatever the state it starts from. *)
Definition returns {A} (m : M A) : Prop :=
  ∀ w, ∃ a w', m w = (Ok a, w').

(** A note carries the keys that the handlers subscript. *)
Definition has_title_and_content (n : note) : Prop :=
  is_Some (title (fields n)) ∧ is_Some (content (fields n)).

(** Every stored note carries them. *)
Definition stored_keys (w : world) : Prop :=
  ∀ id d, notes w !! id = Some d → has_title_and_content (id, d).

(** A stored document without a title, tagged [reminder], and two rules on
    that tag. *)
Definition untitled : document :=
  Document None (Some "call the bank") (Some ["reminder"]) (Some "default") None None.

Definition reminder_rules : list (string * agent_config) :=
  [("calendar", AgentConfig (Some "tag:reminder") (Some "calendar_event"));
   ("tagger", AgentConfig (Some "tag:reminder") (Some "suggest_tags"))].

Definition reminder_env : env :=
  set_agents_json (Some reminder_rules) (working_env code_points).

(** The content that [add_note] stores: the transcript when a non-empty
    audio path is given, else the content it was passed. *)
Definition stored_content (e : env) (content : string) (audio_path : option string)
    : string :=
  match audio_path with
  | Some p => if decide (p = EmptyString) then content
              else default content (recognize_google e p)
  | None => content
  end.

(** The prompt that [generate_response] sends. *)
Definition sent_prompt (use_web_search : bool) (prompt : string) : string :=
  if use_web_search
  then "Please search the web for current information and answer: " +:+ prompt
  else prompt.

(** [_ensure_gemini] will not raise: the module is configured, or the key
    that [os.getenv("GEMINI_API_KEY", "default_key")] gives is not empty. *)
Definition gemini_ready (e : env) (w : world) : Prop :=
  _gemini_configured w = true ∨
  default "default_key" (GEMINI_API_KEY e) ≠ EmptyString.

(** What [generate_response] returns once the provider was called. *)
Definition response_text (e : env) (prompt : string) : string :=
  default AI_RESPONSE_FAILED (generate_content e prompt).

(** The results of a full-text search on a state. *)
Definition text_matches (e : env) (query : string) (w : world) : list note :=
  filter (λ n, Is_true (text_match e query (fields n))) (stored w).

(** The markups that the [search] command passes to the console, for the
    results of its search. *)
Definition search_markup (query : string) (results : list note) : list string :=
  match results with
  | [] => ["[yellow]No results found for: " +:+ query +:+ "[/yellow]"]
  | _ :: _ => note_line <$> results
  end.

(** The characters of a string. *)
Definition chars (s : string) : list ascii := list_ascii_of_string s.

(** A new process on the same database and the same index file: the module
    globals are back at their initial values. *)
Definition restart (w : world) : world :=
  World (notes w) (counter_seq w) None false (index_file w) false ∅ (trace w).

(** A computation that keeps a property of the state, whether it returns or
    raises. *)
Definition maintains {A} (I : world → Prop) (m : M A) : Prop :=
  ∀ w, I w → I (m w).2.

(** What there is of the vector index: the loaded index, its dirty flag, the
    file. *)
Definition index_state (w : world) : option faiss_index * bool * option faiss_index :=
  (_index w, _index_modified w, index_file w).

(** The dirty flag tells the truth: a loaded index that is not marked
    modified is what the file holds. *)
Definition flag_sound (w : world) : Prop :=
  ∀ idx, _index w = Some idx → _index_modified w = false →
         idx = default [] (index_file w).

(** The events of [perform_action]: a handler entered, an unknown name. *)
Definition is_dispatch (ev : event) : bool :=
  match ev with
  | EvAction _ _ | EvUnknownAction _ => true
  | _ => false
  end.

Definition dispatched (w : world) : list event :=
  filter (λ ev, Is_true (is_dispatch ev)) (trace w).

(** What one rule of the file has [run_agents] dispatch for a note. *)
Definition fired (n : note) (agent : string * agent_config) : list event :=
  if truthy (trigger agent.2) && truthy (action agent.2) then
    if check_trigger (default EmptyString (trigger agent.2)) n then
      match action_functions (default EmptyString (action agent.2)) with
      | Some _ => [EvAction (default EmptyString (action agent.2)) (_id n)]
      | None => [EvUnknownAction (default EmptyString (action agent.2))]
      end
    else []
  else [].

(** The event of [perform_action] for an action name. *)
Definition dispatch_of (action : string) (n : note) : event :=
  match action_functions action with
  | Some _ => EvAction action (_id n)
  | None => EvUnknownAction action
  end.

(** The two predicates on tags: the note has no tags at all, for the marker
    [[]]; the note has the tag [X], for every other [X]. *)
Definition satisfies_tag (X : string) (n : note) : Prop :=
  if decide (X = "[]") then note_tags n = [] else X ∈ note_tags n.

(** The failures of an attempt of [connect_to_db]. *)
Definition attempt_fails (a : attempt) : Prop :=
  a = ClientRaises ∨ a = DefaultRaises.

(** The events of a run of [connect_to_db] whose first [j] attempts fail. *)
Definition failed_attempts (delay : Z) (j : nat) : list connect_event :=
  flat_map (λ i, [Attempt i; Sleep delay]) (seq 0 j).

(** The database that a pass through the [try] of [connect_to_db] leaves in
    [_db], if the pass goes through. *)
Definition database_of (MONGO_DB_NAME : option string) (a : attempt) : option string :=
  match a with
  | DefaultIs name => Some name
  | DefaultNone => Some (default "ai_notes" MONGO_DB_NAME)
  | ClientRaises | DefaultRaises => None
  end.

(** A note with the four keys that the exporters read. *)
Definition has_export_keys (n : note) : Prop :=
  is_Some (title (fields n)) ∧ is_Some (tags (fields n)) ∧
  is_Some (workspace (fields n)) ∧ is_Some (content (fields n)).

(** [s * k] *)
Fixpoint repeat_string (k : nat) (s : string) : string :=
  match k with
  | O => EmptyString
  | S k' => s +:+ repeat_string k' s
  end.

(** * Properties *)

(** ** The trigger predicate *)

Lemma check_trigger_marker (n : note) :
  check_trigger "tag:[]" n = true ↔ note_tags n = [].
Proof.
  unfold check_trigger, note_tags. simpl.
  destruct (tags (fields n)) as [[|t ts]|]; simpl; split; intros; congruence.
Qed.

Lemma prefix_tag (X : string) : String.prefix "tag:" ("tag:" +:+ X) = true.
Proof. cbn. by destruct X. Qed.

Lemma check_trigger_tag (n : note) (X : string) :
  X ≠ "[]" → check_trigger ("tag:" +:+ X) n = true ↔ X ∈ note_tags n.
Proof.
  intros HX. unfold check_trigger, note_tags.
  rewrite prefix_tag.
  change (slice_from 4 ("tag:" +:+ X)) with X. cbv iota.
  destruct (decide (X = "[]")) as [?|_]; [done|].
  by rewrite bool_decide_eq_true.
Qed.

(** ** Running the monad *)

Ltac run :=
  unfold bind, ret, raise, try_except, get, modify, emit, call, db in *; simpl in *.

(** Reading a field of a state that was built by the setters. *)
Section projections.
Context (w : world).

Lemma notes_log ev : notes (log ev w) = notes w. Proof. done. Qed.
Lemma notes_set_index i : notes (set_index i w) = notes w. Proof. done. Qed.
Lemma notes_set_index_modified b : notes (set_index_modified b w) = notes w.
Proof. done. Qed.
Lemma notes_set_counter_seq c : notes (set_counter_seq c w) = notes w.
Proof. done. Qed.
Lemma notes_set_notes f : notes (set_notes f w) = f (notes w). Proof. done. Qed.
Lemma notes_set_qa_cache f : notes (set_qa_cache f w) = notes w. Proof. done. Qed.
Lemma notes_set_gemini b : notes (set_gemini_configured b w) = notes w.
Proof. done. Qed.

Lemma counter_log ev : counter_seq (log ev w) = counter_seq w. Proof. done. Qed.
Lemma counter_set_index i : counter_seq (set_index i w) = counter_seq w.
Proof. done. Qed.
Lemma counter_set_index_modified b :
  counter_seq (set_index_modified b w) = counter_seq w.
Proof. done. Qed.
Lemma counter_set_counter_seq c : counter_seq (set_counter_seq c w) = c.
Proof. done. Qed.
Lemma counter_set_notes f : counter_seq (set_notes f w) = counter_seq w.
Proof. done. Qed.
Lemma counter_set_qa_cache f : counter_seq (set_qa_cache f w) = counter_seq w.
Proof. done. Qed.
Lemma counter_set_gemini b : counter_seq (set_gemini_configured b w) = counter_seq w.
Proof. done. Qed.

Lemma entries_log ev : index_entries (log ev w) = index_entries w. Proof. done. Qed.
Lemma entries_set_index idx : index_entries (set_index (Some idx) w) = idx.
Proof. done. Qed.
Lemma entries_set_index_modified b :
  index_entries (set_index_modified b w) = index_entries w.
Proof. done. Qed.
Lemma entries_set_counter_seq c : index_entries (set_counter_seq c w) = index_entries w.
Proof. done. Qed.
Lemma entries_set_notes f : index_entries (set_notes f w) = index_entries w.
Proof. done. Qed.
Lemma entries_set_qa_cache f : index_entries (set_qa_cache f w) = index_entries w.
Proof. done. Qed.
Lemma entries_set_gemini b :
  index_entries (set_gemini_configured b w) = index_entries w.
Proof. done. Qed.

Lemma cache_log ev : _qa_cache (log ev w) = _qa_cache w. Proof. done. Qed.
Lemma cache_set_index i : _qa_cache (set_index i w) = _qa_cache w. Proof. done. Qed.
Lemma cache_set_index_modified b : _qa_cache (set_index_modified b w) = _qa_cache w.
Proof. done. Qed.
Lemma cache_set_counter_seq c : _qa_cache (set_counter_seq c w) = _qa_cache w.
Proof. done. Qed.
Lemma cache_set_notes f : _qa_cache (set_notes f w) = _qa_cache w. Proof. done. Qed.
Lemma cache_set_qa_cache f : _qa_cache (set_qa_cache f w) = f (_qa_cache w).
Proof. done. Qed.
Lemma cache_set_gemini b : _qa_cache (set_gemini_configured b w) = _qa_cache w.
Proof. done. Qed.

Lemma trace_log ev : trace (log ev w) = trace w ++ [ev]. Proof. done. Qed.
Lemma trace_set_index i : trace (set_index i w) = trace w. Proof. done. Qed.
Lemma trace_set_index_modified b : trace (set_index_modified b w) = trace w.
Proof. done. Qed.
Lemma trace_set_counter_seq c : trace (set_counter_seq c w) = trace w.
Proof. done. Qed.
Lemma trace_set_notes f : trace (set_notes f w) = trace w. Proof. done. Qed.
Lemma trace_set_qa_cache f : trace (set_qa_cache f w) = trace w. Proof. done. Qed.
Lemma trace_set_gemini b : trace (set_gemini_configured b w) = trace w.
Proof. done. Qed.
End projections.

Create Rewrite HintDb world.
#[global] Hint Rewrite notes_log notes_set_index notes_set_index_modified notes_set_counter_seq
  notes_set_notes notes_set_qa_cache notes_set_gemini
  counter_log counter_set_index counter_set_index_modified counter_set_counter_seq
  counter_set_notes counter_set_qa_cache counter_set_gemini
  entries_log entries_set_index entries_set_index_modified entries_set_counter_seq
  entries_set_notes entries_set_qa_cache entries_set_gemini
  cache_log cache_set_index cache_set_index_modified cache_set_counter_seq
  cache_set_notes cache_set_qa_cache cache_set_gemini
  trace_log trace_set_index trace_set_index_modified trace_set_counter_seq
  trace_set_notes trace_set_qa_cache trace_set_gemini : world.

Lemma load_index_run (w : world) : load_index w = (Ok (index_entries w), loaded w).
Proof.
  unfold load_index, loaded, index_entries. run.
  destruct (_index w); [done|]. by destruct (index_file w).
Qed.

Lemma loaded_index (w : world) : _index (loaded w) = Some (index_entries w).
Proof. unfold loaded, index_entries. by destruct (_index w) eqn:E. Qed.

Lemma loaded_entries (w : world) : index_entries (loaded w) = index_entries w.
Proof. unfold index_entries at 1. by rewrite loaded_index. Qed.

Lemma loaded_notes (w : world) : notes (loaded w) = notes w.
Proof. unfold loaded. by destruct (_index w). Qed.

Lemma loaded_counter (w : world) : counter_seq (loaded w) = counter_seq w.
Proof. unfold loaded. by destruct (_index w). Qed.

Lemma loaded_cache (w : world) : _qa_cache (loaded w) = _qa_cache w.
Proof. unfold loaded. by destruct (_index w). Qed.

Lemma loaded_trace (w : world) : trace (loaded w) = trace w.
Proof. unfold loaded. by destruct (_index w). Qed.

#[global] Hint Rewrite loaded_entries loaded_notes loaded_counter loaded_cache loaded_trace : world.

(** Normalise the fields of the final state of a run. *)
Ltac fields :=
  cbn [fst snd] in *; autorewrite with world in *; rewrite <- ?app_assoc; simpl app.

(** The state after a successful [add_note_to_index]. *)
Lemma add_note_to_index_run (e : env) (id : Z) (text : string) (w : world) :
  add_note_to_index e id text w =
  match encode e text with
  | Some v =>
      (Ok tt,
       set_index_modified true
         (set_index (Some (add_with_ids (index_entries w) v id))
            (log (EvIndexAdd id v) (log (EvEncode text) (loaded w)))))
  | None => (Raise (ServiceError "encode"), log (EvEncode text) (loaded w))
  end.
Proof.
  unfold add_note_to_index. unfold bind at 1. rewrite load_index_run.
  by destruct (encode e text); run.
Qed.

Lemma remove_note_from_index_run (id : Z) (w : world) :
  remove_note_from_index id w =
  (Ok tt,
   set_index_modified true
     (set_index (Some (remove_ids (index_entries w) id))
        (log (EvIndexRemove id) (loaded w)))).
Proof.
  unfold remove_note_from_index. unfold bind at 1. rewrite load_index_run.
  by run.
Qed.

(** ** Adding to the vector index *)

Lemma filter_snoc_length {A} (P : A → Prop) `{∀ x, Decision (P x)} (l : list A) (x : A) :
  P x → length (filter P (l ++ [x])) = S (length (filter P l)).
Proof.
  intros Hx. rewrite filter_app, length_app, (filter_singleton_True P x l Hx).
  simpl. lia.
Qed.

Lemma filter_none {A} (P : A → Prop) `{∀ x, Decision (P x)} (l : list A) :
  (∀ x, x ∈ l → ¬ P x) → filter P l = [].
Proof.
  induction l as [|x l IH]; intros Hl; [done|].
  rewrite filter_cons_False by (apply Hl; left).
  apply IH. intros y Hy. apply Hl. by right.
Qed.

(** C3, as the code has it.  [add_note_to_index] appends one entry for the id,
    the embedding of the given text, and keeps every entry that was there,
    those under the same id included: the id has one entry more than before.
    It has exactly one entry afterwards when it had none before. *)
Theorem add_note_to_index_appends (e : env) (w : world) (id : Z) (text : string) (v : vec) :
  encode e text = Some v →
  ∃ w', add_note_to_index e id text w = (Ok tt, w') ∧
        index_entries w' = index_entries w ++ [(id, v)] ∧
        length (entries_for id w') = S (length (entries_for id w)) ∧
        (id ∉ index_ids w → entries_for id w' = [(id, v)]).
Proof.
  intros Henc. rewrite add_note_to_index_run, Henc.
  eexists. split; [done|]. unfold entries_for, index_entries; simpl.
  fold (index_entries w). unfold add_with_ids.
  split; [done|]. split.
  - by apply filter_snoc_length.
  - intros Hfresh. rewrite filter_app.
    rewrite (filter_singleton_True _ (id, v) []) by done.
    rewrite filter_none; [done|].
    intros [i u] Hin Hi. simpl in Hi. subst i. apply Hfresh.
    unfold index_ids. apply list_elem_of_fmap. by exists (id, u).
Qed.

Lemma add_note_to_index_appends_witness :
  ∃ w', add_note_to_index (working_env code_points) 1 "a" empty_world = (Ok tt, w') ∧
        index_entries w' = [(1, [97])].
Proof.
  destruct (add_note_to_index_appends (working_env code_points) empty_world 1 "a" [97]
              eq_refl) as (w' & Hrun & Hentries & _).
  exists w'. split; [exact Hrun | exact Hentries].
Defined.

(** The index after [add_note_to_index(1, "a")] and then
    [add_note_to_index(1, "b")] on a fresh process. *)
Lemma add_note_to_index_twice :
  ∃ w1 w2,
    add_note_to_index (working_env code_points) 1 "a" empty_world = (Ok tt, w1) ∧
    add_note_to_index (working_env code_points) 1 "b" w1 = (Ok tt, w2) ∧
    entries_for 1 w2 = [(1, [97]); (1, [98])] ∧
    ¬ (length (entries_for 1 w2) ≤ 1)%nat.
Proof.
  eexists _, _. split; [reflexivity|]. split; [reflexivity|].
  split; [reflexivity|]. vm_compute. lia.
Qed.

(** ** Querying the vector index *)

Global Instance closer_total : Total closer.
Proof. intros [[d1 p1] l1] [[d2 p2] l2]. unfold closer; simpl. lia. Qed.

Global Instance closer_trans : Transitive closer.
Proof. intros [[d1 p1] l1] [[d2 p2] l2] [[d3 p3] l3]. unfold closer; simpl. lia. Qed.

Lemma closer_distance (h1 h2 : hit) : closer h1 h2 → hit_distance h1 ≤ hit_distance h2.
Proof. unfold closer. lia. Qed.

Lemma ranking_sorted (idx : faiss_index) (q : vec) :
  StronglySorted closer (merge_sort closer (candidates idx q)).
Proof. apply Sorted_StronglySorted; [apply _|]. apply Sorted_merge_sort; apply _. Qed.

Lemma nearest_sorted (idx : faiss_index) (q : vec) (k : nat) :
  StronglySorted closer (nearest idx q k).
Proof.
  pose proof (ranking_sorted idx q) as Hs.
  rewrite <- (take_drop k (merge_sort closer (candidates idx q))) in Hs.
  apply StronglySorted_app in Hs. unfold nearest. tauto.
Qed.

Lemma nearest_candidates (idx : faiss_index) (q : vec) (k : nat) (h : hit) :
  h ∈ nearest idx q k → h ∈ candidates idx q.
Proof.
  unfold nearest. intros Hin%subseteq_take.
  by rewrite <- (merge_sort_Permutation closer).
Qed.

(** The hits are the nearest candidates: whatever was left out comes after
    every hit in the ranking. *)
Lemma nearest_before_rest (idx : faiss_index) (q : vec) (k : nat) (h h' : hit) :
  h ∈ nearest idx q k → h' ∈ candidates idx q → h' ∉ nearest idx q k → closer h h'.
Proof.
  intros Hh Hc Hout.
  pose proof (ranking_sorted idx q) as Hs.
  rewrite <- (take_drop k (merge_sort closer (candidates idx q))) in Hs.
  apply StronglySorted_app in Hs as (Hcross & _ & _).
  apply Hcross; [done|].
  rewrite <- (merge_sort_Permutation closer), <- (take_drop k) in Hc.
  apply elem_of_app in Hc as [Hc|Hc]; [by destruct Hout | done].
Qed.

Lemma nearest_length (idx : faiss_index) (q : vec) (k : nat) :
  length (nearest idx q k) = (k `min` length idx)%nat.
Proof.
  unfold nearest. rewrite length_take, (merge_sort_Permutation closer).
  unfold candidates. by rewrite length_imap.
Qed.

Lemma filter_sentinel_padding (l : list Z) (n : nat) :
  filter (λ i, i ≠ -1) (l ++ replicate n (-1)) = filter (λ i, i ≠ -1) l.
Proof.
  rewrite filter_app, (filter_none _ (replicate n (-1))); [by rewrite app_nil_r|].
  intros x Hx%elem_of_replicate. tauto.
Qed.

Lemma search_similar_notes_run (e : env) (query : string) (k : nat) (w : world) :
  search_similar_notes e query k w =
  match encode e query with
  | Some q =>
      match k with
      | O => (Raise (AssertionError "k > 0"),
              log (EvIndexSearch k) (log (EvEncode query) (loaded w)))
      | S _ =>
          (Ok (filter (λ i, i ≠ -1) (hit_label <$> nearest (index_entries w) q k)),
           log (EvIndexSearch k) (log (EvEncode query) (loaded w)))
      end
  | None => (Raise (ServiceError "encode"), log (EvEncode query) (loaded w))
  end.
Proof.
  unfold search_similar_notes. unfold bind at 1. rewrite load_index_run.
  destruct (encode e query); run; [|done].
  destruct k as [|k]; [done|].
  unfold lift, faiss_search. cbv zeta. by rewrite filter_sentinel_padding.
Qed.

(** C7.  A query for [k >= 1] ids whose text is embedded returns the ids of
    the [k] nearest entries of the index, nearest first and, at equal
    distance, first inserted first, without the sentinel [-1]: at most [k]
    ids, fewer when the index holds fewer than [k] entries, none when it is
    empty.  A query for [k = 0] ids does not return the empty list: the
    assertion of the index on [k] fails and the error reaches the caller. *)
Theorem search_similar_notes_ranked (e : env) (w : world) (query : string) (k : nat)
    (q : vec) :
  encode e query = Some q →
  ((0 < k)%nat →
   ∃ ids w',
    search_similar_notes e query k w = (Ok ids, w') ∧
    ids = filter (λ i, i ≠ -1) (hit_label <$> nearest (index_entries w) q k) ∧
    (length ids ≤ k)%nat ∧
    (length ids ≤ length (index_entries w))%nat ∧
    (-1 ∉ ids) ∧
    StronglySorted closer (nearest (index_entries w) q k) ∧
    (∀ h, h ∈ nearest (index_entries w) q k → h ∈ candidates (index_entries w) q) ∧
    (∀ h h', h ∈ nearest (index_entries w) q k →
             h' ∈ candidates (index_entries w) q →
             h' ∉ nearest (index_entries w) q k →
             hit_distance h ≤ hit_distance h') ∧
    (index_entries w = [] → ids = [])) ∧
  (k = 0%nat →
   ∃ w', search_similar_notes e query k w = (Raise (AssertionError "k > 0"), w') ∧
         trace w' = trace w ++ [EvEncode query; EvIndexSearch 0]).
Proof.
  intros Henc. rewrite search_similar_notes_run, Henc. split.
  2:{ intros ->. eexists. split; [done|]. by fields. }
  intros Hk. destruct k as [|k']; [lia|]. set (k := S k') in *.
  eexists _, _. split; [done|]. split; [done|].
  assert (Hlen : (length (filter (λ i, (i ≠ -1)%Z)
                    (hit_label <$> nearest (index_entries w) q k))
                  ≤ k `min` length (index_entries w))%nat).
  { etrans; [apply length_filter|]. by rewrite length_fmap, nearest_length. }
  split; [lia|]. split; [lia|]. split.
  { intros Hin%list_elem_of_filter. tauto. }
  split; [apply nearest_sorted|]. split; [apply nearest_candidates|]. split.
  { intros h h' Hh Hc Hout. apply closer_distance. by eapply nearest_before_rest. }
  intros Hnil. rewrite Hnil in Hlen |- *. cbn [length] in Hlen.
  rewrite Nat.min_0_r in Hlen. apply length_zero_iff_nil. lia.
Qed.

Lemma search_similar_notes_ranked_witness :
  ∃ ids w',
    search_similar_notes (working_env code_points) "b" 5
      (set_index (Some [(1, [97]); (2, [98]); (3, [99])]) empty_world) = (Ok ids, w') ∧
    ids = [2; 1; 3].
Proof.
  destruct (proj1 (search_similar_notes_ranked (working_env code_points)
                     (set_index (Some [(1, [97]); (2, [98]); (3, [99])]) empty_world)
                     "b" 5 [98] eq_refl) ltac:(lia)) as (ids & w' & Hrun & Hids & _).
  exists ids, w'. split; [exact Hrun|]. rewrite Hids. vm_compute. reflexivity.
Defined.

(** A query for no id at all, on an index of three entries: not the empty
    list, an error. *)
Lemma search_similar_notes_zero :
  ¬ ∃ ids w',
      search_similar_notes (working_env code_points) "b" 0
        (set_index (Some [(1, [97]); (2, [98]); (3, [99])]) empty_world) = (Ok ids, w').
Proof. intros (ids & w' & Hrun). vm_compute in Hrun. discriminate Hrun. Qed.

(** ** The database calls *)

Lemma get_next_note_id_run (e : env) (w : world) :
  get_next_note_id e w =
  if db_fails e CounterInc
  then (Raise (ServiceError "mongo"), log (EvDb CounterInc) w)
  else (Ok (next_id w), set_counter_seq (Some (next_id w)) (log (EvDb CounterInc) w)).
Proof. unfold get_next_note_id, next_id. run. by destruct (db_fails e CounterInc). Qed.

Lemma insert_one_run (e : env) (id : Z) (d : document) (w : world) :
  insert_one e id d w =
  if db_fails e (InsertOne id)
  then (Raise (ServiceError "mongo"), log (EvDb (InsertOne id)) w)
  else match notes w !! id with
       | Some _ => (Raise (DuplicateKeyError id), log (EvDb (InsertOne id)) w)
       | None => (Ok tt, set_notes (insert id d) (log (EvDb (InsertOne id)) w))
       end.
Proof.
  unfold insert_one. run. destruct (db_fails e (InsertOne id)); [done|].
  simpl. by destruct (notes w !! id).
Qed.

Lemma delete_one_run (e : env) (id : Z) (w : world) :
  delete_one e id w =
  if db_fails e (DeleteOne id)
  then (Raise (ServiceError "mongo"), log (EvDb (DeleteOne id)) w)
  else match notes w !! id with
       | Some _ => (Ok 1, set_notes (delete id) (log (EvDb (DeleteOne id)) w))
       | None => (Ok 0, log (EvDb (DeleteOne id)) w)
       end.
Proof.
  unfold delete_one. run. destruct (db_fails e (DeleteOne id)); [done|].
  simpl. by destruct (notes w !! id).
Qed.

Lemma update_one_run (e : env) (id : Z) (updates : document) (w : world) :
  update_one e id updates w =
  if db_fails e (UpdateOne id)
  then (Raise (ServiceError "mongo"), log (EvDb (UpdateOne id)) w)
  else match notes w !! id with
       | Some d =>
           if decide (apply_set updates d = d)
           then (Ok 0, log (EvDb (UpdateOne id)) w)
           else (Ok 1, set_notes (insert id (apply_set updates d))
                         (log (EvDb (UpdateOne id)) w))
       | None => (Ok 0, log (EvDb (UpdateOne id)) w)
       end.
Proof.
  unfold update_one. run. destruct (db_fails e (UpdateOne id)); [done|].
  simpl. destruct (notes w !! id); [|done]. by case_decide.
Qed.

Lemma transcribe_audio_run (e : env) (p : string) (w : world) :
  transcribe_audio e p w =
  match recognize_google e p with
  | Some text => (Ok text, log (EvTranscribe p) w)
  | None => (Raise (RuntimeError "Transcription failed"), log (EvTranscribe p) w)
  end.
Proof. unfold transcribe_audio. by destruct (recognize_google e p); run. Qed.

(** ** Creating a note *)

(** [add_note] once its content is known. *)
Lemma add_note_run (e : env) (title content : string) (tags : option (list string))
    (workspace : option string) (w : world) :
  add_note e title content tags workspace None w =
  match get_next_note_id e w with
  | (Ok id, w1) =>
      match insert_one e id (new_note e title content tags workspace) w1 with
      | (Ok _, w2) =>
          match add_note_to_index e id content w2 with
          | (Ok _, w3) => (Ok id, w3)
          | (Raise x, w3) => (Raise x, w3)
          end
      | (Raise x, w2) => (Raise x, w2)
      end
  | (Raise x, w1) => (Raise x, w1)
  end.
Proof.
  unfold add_note, new_note. unfold bind, ret.
  destruct (get_next_note_id e w) as [[id|x] w1]; [|done].
  destruct (insert_one e id _ w1) as [[[]|x] w2]; [|done].
  by destruct (add_note_to_index e id content w2) as [[[]|x] w3].
Qed.

(** [add_note] with an audio path: the transcription comes first. *)
Lemma add_note_audio_run (e : env) (w : world) (title content : string)
    (tags : option (list string)) (workspace : option string) (p : string) :
  p ≠ EmptyString →
  add_note e title content tags workspace (Some p) w =
  match recognize_google e p with
  | Some text => add_note e title text tags workspace None (log (EvTranscribe p) w)
  | None => (Raise (RuntimeError "Transcription failed"), log (EvTranscribe p) w)
  end.
Proof.
  intros Hp. unfold add_note. rewrite decide_False by done.
  unfold bind at 1. rewrite transcribe_audio_run.
  destruct (recognize_google e p) as [text|]; [|done]. by unfold bind at 3.
Qed.

(** The note that a successful [add_note] leaves in the database has every
    key that [add_note] writes. *)
Lemma add_note_stores (e : env) (w w' : world) (title content : string)
    (tags : option (list string)) (workspace audio_path : option string) (id : Z) :
  add_note e title content tags workspace audio_path w = (Ok id, w') →
  notes w' !! id =
    Some (new_note e title
            (match audio_path with
             | Some p => if decide (p = EmptyString) then content
                         else default content (recognize_google e p)
             | None => content
             end) tags workspace).
Proof.
  assert (Htext : ∀ w0 text,
            add_note e title text tags workspace None w0 = (Ok id, w') →
            notes w' !! id = Some (new_note e title text tags workspace)).
  { intros w0 text. rewrite add_note_run, get_next_note_id_run.
    destruct (db_fails e CounterInc); [done|].
    rewrite insert_one_run. destruct (db_fails e (InsertOne _)); [done|].
    fields. destruct (notes w0 !! _); [done|].
    rewrite add_note_to_index_run. destruct (encode e text); [|done].
    intros [= <- <-]. fields. apply lookup_insert_eq. }
  destruct audio_path as [p|]; [|apply Htext].
  destruct (decide (p = EmptyString)) as [->|Hp]; [apply (Htext w content)|].
  rewrite (add_note_audio_run _ _ _ _ _ _ _ Hp).
  destruct (recognize_google e p) as [text|]; [apply Htext|done].
Qed.

(** C8.  When a non-empty audio path is given, [add_note] takes its content
    from the transcription and ignores the content it was passed: it goes on
    exactly as a call without audio and with the transcript as content, and the
    note it stores carries the transcript.  When the transcription fails, the
    error reaches the caller and nothing was done: no id taken from the
    counter, no document inserted, no index entry, no call besides the
    transcription. *)
Theorem add_note_audio (e : env) (w : world) (title content : string)
    (tags : option (list string)) (workspace : option string) (p : string) :
  p ≠ EmptyString →
  (∀ text, recognize_google e p = Some text →
     add_note e title content tags workspace (Some p) w =
       add_note e title text tags workspace None (log (EvTranscribe p) w) ∧
     ∀ id w', add_note e title content tags workspace (Some p) w = (Ok id, w') →
       notes w' !! id = Some (new_note e title text tags workspace)) ∧
  (recognize_google e p = None →
     ∃ w', add_note e title content tags workspace (Some p) w =
             (Raise (RuntimeError "Transcription failed"), w') ∧
           notes w' = notes w ∧
           counter_seq w' = counter_seq w ∧
           _index w' = _index w ∧
           index_file w' = index_file w ∧
           trace w' = trace w ++ [EvTranscribe p]).
Proof.
  intros Hp. split.
  - intros text Htext. split.
    + by rewrite (add_note_audio_run _ _ _ _ _ _ _ Hp), Htext.
    + intros id w' Hrun. apply add_note_stores in Hrun.
      rewrite decide_False in Hrun by done. by rewrite Htext in Hrun.
  - intros Hnone. rewrite (add_note_audio_run _ _ _ _ _ _ _ Hp), Hnone.
    by eexists.
Qed.

Lemma add_note_audio_witness :
  ∃ w', add_note (working_env code_points) "T" "typed" None None (Some "memo.wav")
          empty_world = (Ok 1, w') ∧
        notes w' !! 1 =
          Some (new_note (working_env code_points) "T" "transcript of memo.wav" None None).
Proof.
  destruct (add_note_audio (working_env code_points) empty_world "T" "typed" None None
              "memo.wav" ltac:(discriminate)) as [Hok _].
  destruct (Hok "transcript of memo.wav" eq_refl) as [_ Hstored].
  eexists. split; [vm_compute; reflexivity|]. apply Hstored. vm_compute. reflexivity.
Defined.

(** ** Editing a note *)

Lemma remove_ids_entries (idx : faiss_index) (id : Z) :
  filter (λ en, en.1 = id) (remove_ids idx id) = [].
Proof.
  apply filter_none. intros en Hen%list_elem_of_filter. tauto.
Qed.

Lemma remove_ids_other (idx : faiss_index) (id id' : Z) :
  id' ≠ id →
  filter (λ en, en.1 = id') (remove_ids idx id) = filter (λ en, en.1 = id') idx.
Proof.
  intros Hne. unfold remove_ids. induction idx as [|[i v] idx IH]; [done|].
  rewrite !filter_cons. simpl. repeat case_decide; simpl in *;
    rewrite ?filter_cons; simpl; repeat case_decide; try congruence.
Qed.

Lemma edit_note_run (e : env) (id : Z) (updates : document) (w : world) :
  edit_note e id updates w =
  match content updates with
  | Some c =>
      match update_one e id updates (remove_note_from_index id w).2 with
      | (Ok n, w2) =>
          if decide (n = 0) then (Ok n, w2)
          else match add_note_to_index e id c w2 with
               | (Ok _, w3) => (Ok n, w3)
               | (Raise x, w3) => (Raise x, w3)
               end
      | (Raise x, w2) => (Raise x, w2)
      end
  | None => update_one e id updates w
  end.
Proof.
  unfold edit_note. destruct (content updates) as [c|].
  - unfold bind at 1. rewrite remove_note_from_index_run. cbn [snd].
    unfold bind at 1. destruct (update_one e id updates _) as [[n|x] w2]; [|done].
    unfold bind, ret. case_decide; [done|].
    by destruct (add_note_to_index e id c w2) as [[[]|x] w3].
  - unfold bind, ret. by destruct (update_one e id updates w) as [[n|x] w2].
Qed.

(** C2.  An update that changes [content] removes the index entry of the id
    before the database is written, and adds the entry again, from the new
    content, only after a write that succeeded and modified the note.  When the
    write raises or reports zero modified records the entry is not added
    again.  The entries of the other ids are not touched. *)
Theorem edit_note_content (e : env) (w w' : world) (id : Z) (updates : document)
    (c : string) (r : outcome Z) :
  content updates = Some c →
  edit_note e id updates w = (r, w') →
  (∀ id', id' ≠ id → entries_for id' w' = entries_for id' w) ∧
  ∃ rest,
    trace w' = trace w ++ EvIndexRemove id :: EvDb (UpdateOne id) :: rest ∧
    ((db_fails e (UpdateOne id) = true ∧ r = Raise (ServiceError "mongo") ∧
      rest = [] ∧ entries_for id w' = [] ∧ notes w' = notes w)
     ∨
     (db_fails e (UpdateOne id) = false ∧ r = Ok 0 ∧
      (notes w !! id = None ∨ ∃ d, notes w !! id = Some d ∧ apply_set updates d = d) ∧
      rest = [] ∧ entries_for id w' = [] ∧ notes w' = notes w)
     ∨
     (db_fails e (UpdateOne id) = false ∧
      ∃ d, notes w !! id = Some d ∧ apply_set updates d ≠ d ∧
           notes w' = <[id := apply_set updates d]> (notes w) ∧
           ((∃ v, encode e c = Some v ∧ r = Ok 1 ∧
                  rest = [EvEncode c; EvIndexAdd id v] ∧
                  entries_for id w' = [(id, v)])
            ∨
            (encode e c = None ∧ r = Raise (ServiceError "encode") ∧
             rest = [EvEncode c] ∧ entries_for id w' = [])))).
Proof.
  intros Hc. rewrite edit_note_run, Hc, remove_note_from_index_run, update_one_run.
  cbn [snd]. unfold entries_for.
  destruct (db_fails e (UpdateOne id)) eqn:Hdb.
  { intros [= <- <-]. fields. split.
    - intros id' Hne. by rewrite remove_ids_other.
    - exists []. split; [done|]. left. by rewrite remove_ids_entries. }
  fields. destruct (notes w !! id) as [d|] eqn:Hd.
  - destruct (decide (apply_set updates d = d)) as [Hsame|Hdiff].
    + rewrite decide_True by done. intros [= <- <-]. fields. split.
      * intros id' Hne. by rewrite remove_ids_other.
      * exists []. split; [done|]. right; left. rewrite remove_ids_entries. eauto 10.
    + rewrite decide_False by done. rewrite add_note_to_index_run.
      destruct (encode e c) as [v|] eqn:Henc.
      * intros [= <- <-]. fields. unfold add_with_ids. split.
        { intros id' Hne. rewrite filter_app, (filter_none _ [(id, v)]).
          - by rewrite app_nil_r, remove_ids_other.
          - intros en ->%list_elem_of_singleton. simpl. congruence. }
        exists [EvEncode c; EvIndexAdd id v].
        split; [done|]. right; right. split; [done|]. exists d.
        repeat split; try done. left. exists v. repeat split; try done.
        rewrite filter_app, remove_ids_entries.
        by rewrite (filter_singleton_True _ (id, v) []).
      * intros [= <- <-]. fields. split.
        { intros id' Hne. by rewrite remove_ids_other. }
        exists [EvEncode c].
        split; [done|]. right; right. split; [done|]. exists d.
        repeat split; try done. right. by rewrite remove_ids_entries.
  - intros [= <- <-]. fields. split.
    + intros id' Hne. by rewrite remove_ids_other.
    + exists []. split; [done|]. right; left. rewrite remove_ids_entries. eauto 10.
Qed.

Lemma edit_note_content_witness :
  entries_for 1
    (edit_note (working_env code_points) 1
       (Document None (Some "new") None None None None)
       (run_ops [(working_env code_points, Create "T" "old" None None None)]
          empty_world)).2
  = [(1, code_points "new")].
Proof.
  destruct (edit_note_content (working_env code_points)
              (run_ops [(working_env code_points, Create "T" "old" None None None)]
                 empty_world) _ 1
              (Document None (Some "new") None None None None) "new" _
              eq_refl (surjective_pairing _))
    as (_ & rest & _ & [Hcase | [Hcase | Hcase]]).
  - destruct Hcase as (Hdb & _). vm_compute in Hdb. discriminate Hdb.
  - destruct Hcase as (_ & Hr & _). vm_compute in Hr. discriminate Hr.
  - destruct Hcase as (_ & d & _ & _ & _ & [(v & Hv & _ & _ & Hent) | (Hv & _)]).
    + vm_compute in Hv. injection Hv as <-. exact Hent.
    + vm_compute in Hv. discriminate Hv.
Defined.

Lemma delete_note_run (e : env) (id : Z) (w : world) :
  delete_note e id w =
  match delete_one e id w with
  | (Ok n, w1) =>
      if decide (n = 0) then (Ok n, w1) else (Ok n, (remove_note_from_index id w1).2)
  | (Raise x, w1) => (Raise x, w1)
  end.
Proof.
  unfold delete_note, bind, ret.
  destruct (delete_one e id w) as [[n|x] w1]; [|done].
  case_decide; [done|]. by rewrite remove_note_from_index_run.
Qed.

(** ** The index follows the database *)

Section consistency.
Context (enc : string → vec).

Lemma consistent_at_empty : consistent_at enc ∅ None [].
Proof.
  split; [constructor|]. split.
  - intros id v Hin. by apply elem_of_nil in Hin.
  - intros id [d Hd]. by rewrite lookup_empty in Hd.
Qed.

Lemma consistent_at_unindexed ns counter idx id :
  consistent_at enc ns counter idx → ns !! id = None → id ∉ idx.*1.
Proof.
  intros (_ & Hentry & _) Hfree ([i v] & -> & Hin)%list_elem_of_fmap.
  destruct (Hentry _ _ Hin) as (d & c & Hd & _). simpl in *. congruence.
Qed.

Lemma consistent_at_counter ns counter idx :
  consistent_at enc ns counter idx →
  consistent_at enc ns (Some (next_seq counter)) idx ∧ ns !! next_seq counter = None.
Proof.
  intros (Hnodup & Hentry & Hbound). split.
  - split; [done|]. split; [done|].
    intros id Hid%Hbound. simpl. lia.
  - destruct (ns !! next_seq counter) eqn:Hn; [|done].
    assert (next_seq counter < next_seq counter) by (apply Hbound; eauto). lia.
Qed.

Lemma consistent_at_insert ns counter idx id d :
  consistent_at enc ns counter idx → ns !! id = None → id < next_seq counter →
  consistent_at enc (<[id := d]> ns) counter idx.
Proof.
  intros Hc Hfree Hid. pose proof (consistent_at_unindexed _ _ _ _ Hc Hfree) as Hout.
  destruct Hc as (Hnodup & Hentry & Hbound).
  split; [done|]. split.
  - intros id' v Hin. assert (id' ≠ id).
    { intros ->. apply Hout, list_elem_of_fmap. by exists (id, v). }
    rewrite lookup_insert_ne by done. by apply Hentry.
  - intros id' Hid'. destruct (decide (id' = id)) as [->|Hne]; [done|].
    rewrite lookup_insert_ne in Hid' by done. by apply Hbound.
Qed.

Lemma consistent_at_add ns counter idx id d c :
  consistent_at enc ns counter idx →
  ns !! id = Some d → content d = Some c → id ∉ idx.*1 →
  consistent_at enc ns counter (add_with_ids idx (enc c) id).
Proof.
  intros (Hnodup & Hentry & Hbound) Hd Hc Hout. unfold add_with_ids.
  split; [|split; [|done]].
  - rewrite fmap_app. apply NoDup_app. split; [done|]. split.
    + intros x Hx ->%list_elem_of_singleton. done.
    + apply NoDup_singleton.
  - intros id' v [Hin | [= -> ->]%list_elem_of_singleton]%elem_of_app;
      [by apply Hentry|].
    by exists d, c.
Qed.

Lemma consistent_at_remove ns counter idx id :
  consistent_at enc ns counter idx →
  consistent_at enc ns counter (remove_ids idx id) ∧ id ∉ (remove_ids idx id).*1.
Proof.
  intros (Hnodup & Hentry & Hbound). unfold remove_ids. split.
  - split; [|split; [|done]].
    + eapply sublist_NoDup; [done|]. apply fmap_sublist, sublist_filter.
    + intros id' v Hin%list_elem_of_filter. apply Hentry. tauto.
  - intros ([i v] & -> & Hin%list_elem_of_filter)%list_elem_of_fmap. tauto.
Qed.

Lemma consistent_at_update ns counter idx id d d' :
  consistent_at enc ns counter idx → ns !! id = Some d →
  id ∉ idx.*1 ∨ content d' = content d →
  consistent_at enc (<[id := d']> ns) counter idx.
Proof.
  intros (Hnodup & Hentry & Hbound) Hd Hkeep. split; [done|]. split.
  - intros id' v Hin. destruct (decide (id' = id)) as [->|Hne].
    + destruct Hkeep as [Hout | Hsame].
      * destruct Hout. apply list_elem_of_fmap. by exists (id, v).
      * destruct (Hentry _ _ Hin) as (d0 & c & Hd0 & Hc & Hv).
        rewrite lookup_insert_eq. exists d', c. split; [done|].
        split; [|done]. rewrite Hsame. congruence.
    + rewrite lookup_insert_ne by done. by apply Hentry.
  - intros id' Hid'. destruct (decide (id' = id)) as [->|Hne].
    + apply Hbound. eauto.
    + rewrite lookup_insert_ne in Hid' by done. by apply Hbound.
Qed.

Lemma consistent_at_delete ns counter idx id :
  consistent_at enc ns counter idx → id ∉ idx.*1 →
  consistent_at enc (delete id ns) counter idx.
Proof.
  intros (Hnodup & Hentry & Hbound) Hout. split; [done|]. split.
  - intros id' v Hin. assert (id' ≠ id).
    { intros ->. apply Hout, list_elem_of_fmap. by exists (id, v). }
    rewrite lookup_delete_ne by done. by apply Hentry.
  - intros id' [d' Hd']. apply Hbound.
    apply lookup_delete_Some in Hd' as [_ Hd']. eauto.
Qed.
End consistency.

Section preservation.
Context (enc : string → vec) (e : env) (Henc : env_encodes enc e).

Lemma add_note_text_consistent w title content tags workspace :
  consistent enc w →
  consistent enc (add_note e title content tags workspace None w).2.
Proof.
  unfold consistent. intros Hw.
  destruct (consistent_at_counter _ _ _ _ Hw) as [Hcounter Hfree].
  rewrite add_note_run, get_next_note_id_run.
  destruct (db_fails e CounterInc); [by fields|].
  rewrite insert_one_run.
  destruct (db_fails e (InsertOne _)); [by fields|].
  fields. unfold next_id. rewrite Hfree.
  assert (Hstored : consistent_at enc
            (<[next_seq (counter_seq w) := new_note e title content tags workspace]>
               (notes w))
            (Some (next_seq (counter_seq w))) (index_entries w)).
  { apply consistent_at_insert; [done..|]. simpl. lia. }
  rewrite add_note_to_index_run.
  destruct (encode e content) as [v|] eqn:Hv; [|by fields].
  fields. rewrite (Henc _ _ Hv).
  eapply consistent_at_add; [done| apply lookup_insert_eq | done |].
  eapply consistent_at_unindexed; [exact Hw | exact Hfree].
Qed.

Lemma add_note_consistent w title content tags workspace audio_path :
  consistent enc w →
  consistent enc (add_note e title content tags workspace audio_path w).2.
Proof.
  intros Hw. destruct audio_path as [p|]; [|by apply add_note_text_consistent].
  destruct (decide (p = EmptyString)) as [->|Hp].
  { by apply (add_note_text_consistent w title content tags workspace). }
  rewrite (add_note_audio_run _ _ _ _ _ _ _ Hp).
  destruct (recognize_google e p) as [text|]; [by apply add_note_text_consistent|].
  done.
Qed.

Lemma delete_note_consistent w id :
  consistent enc w → consistent enc (delete_note e id w).2.
Proof.
  unfold consistent. intros Hw. rewrite delete_note_run, delete_one_run.
  destruct (db_fails e (DeleteOne id)); [by fields|].
  destruct (notes w !! id) as [d|] eqn:Hd.
  - rewrite decide_False by done.
    rewrite remove_note_from_index_run. fields.
    destruct (consistent_at_remove _ _ _ _ id Hw) as [Hrem Hout].
    by apply consistent_at_delete.
  - rewrite decide_True by done. by fields.
Qed.

Lemma edit_note_consistent w id updates :
  consistent enc w → consistent enc (edit_note e id updates w).2.
Proof.
  unfold consistent. intros Hw. rewrite edit_note_run.
  destruct (content updates) as [c|] eqn:Hc.
  - rewrite remove_note_from_index_run, update_one_run. cbn [snd].
    destruct (consistent_at_remove _ _ _ _ id Hw) as [Hrem Hout].
    destruct (db_fails e (UpdateOne id)); [by fields|].
    fields. destruct (notes w !! id) as [d|] eqn:Hd;
      [|by rewrite decide_True by done; fields].
    destruct (decide (apply_set updates d = d)) as [Hsame|Hdiff].
    { rewrite decide_True by done. by fields. }
    rewrite decide_False by done.
    assert (Hupdated : consistent_at enc (<[id := apply_set updates d]> (notes w))
                         (counter_seq w) (remove_ids (index_entries w) id)).
    { eapply consistent_at_update; eauto. }
    rewrite add_note_to_index_run.
    destruct (encode e c) as [v|] eqn:Hv; [|by fields].
    fields. rewrite (Henc _ _ Hv).
    eapply consistent_at_add; [done | apply lookup_insert_eq | | done].
    unfold apply_set; simpl. by rewrite Hc.
  - rewrite update_one_run.
    destruct (db_fails e (UpdateOne id)); [by fields|].
    destruct (notes w !! id) as [d|] eqn:Hd; [|by fields].
    case_decide; [by fields|]. fields.
    eapply consistent_at_update; [done..|]. right.
    unfold apply_set; simpl. by rewrite Hc.
Qed.

Lemma run_op_consistent w o : consistent enc w → consistent enc (run_op e o w).
Proof.
  destruct o; simpl.
  - apply add_note_consistent.
  - apply edit_note_consistent.
  - apply delete_note_consistent.
Qed.
End preservation.

Lemma consistent_empty_world (enc : string → vec) : consistent enc empty_world.
Proof. apply consistent_at_empty. Qed.

Lemma run_ops_consistent (enc : string → vec) (ops : list (env * op)) (w : world) :
  Forall (λ eo, env_encodes enc eo.1) ops →
  consistent enc w →
  consistent enc (run_ops ops w).
Proof.
  intros Hops. revert w. induction Hops as [|[e o] ops He Hops IH]; intros w Hw.
  - done.
  - simpl. apply IH. by apply run_op_consistent.
Qed.

(** *** The entry of a stored note *)

Lemma filter_fst_NoDup (idx : faiss_index) (id : Z) (v : vec) :
  NoDup idx.*1 → (id, v) ∈ idx → filter (λ en, en.1 = id) idx = [(id, v)].
Proof.
  induction idx as [|[i u] idx IH]; intros Hnodup Hin.
  { by apply elem_of_nil in Hin. }
  rewrite fmap_cons in Hnodup. apply NoDup_cons in Hnodup as [Hfresh Hnodup].
  apply elem_of_cons in Hin as [[= <- <-]|Hin].
  - rewrite filter_cons_True by done. f_equal.
    apply filter_none. intros [i u] Hiu Hi. simpl in *. subst i.
    apply Hfresh, list_elem_of_fmap. by exists (id, u).
  - rewrite filter_cons_False; [by apply IH|].
    simpl. intros ->. apply Hfresh, list_elem_of_fmap. by exists (id, v).
Qed.

Lemma consistent_entry (enc : string → vec) (w : world) (id : Z) (d : document) :
  consistent enc w → id ∈ index_ids w → notes w !! id = Some d →
  ∃ c, content d = Some c ∧ entries_for id w = [(id, enc c)].
Proof.
  intros (Hnodup & Hentry & _) ([i v] & -> & Hin)%list_elem_of_fmap Hd. simpl in *.
  destruct (Hentry _ _ Hin) as (d' & c & Hd' & Hc & ->).
  assert (d' = d) as -> by congruence.
  exists c. split; [done|]. by apply filter_fst_NoDup.
Qed.

Lemma remove_ids_keeps (idx : faiss_index) (id id' : Z) :
  id ≠ id' → id ∈ idx.*1 → id ∈ (remove_ids idx id').*1.
Proof.
  intros Hne ([i v] & -> & Hin)%list_elem_of_fmap. simpl in *.
  apply list_elem_of_fmap. exists (i, v). split; [done|].
  unfold remove_ids. by apply list_elem_of_filter.
Qed.

Lemma add_note_indexed (e : env) (w : world) (id : Z) (title content : string)
    (tags : option (list string)) (workspace audio_path : option string) :
  indexed id w →
  keeps_entry id e (Create title content tags workspace audio_path) w →
  indexed id (add_note e title content tags workspace audio_path w).2.
Proof.
  intros Hw. cbn [keeps_entry].
  assert (Htext : ∀ w0 text,
            notes w0 = notes w → index_entries w0 = index_entries w →
            (notes w !! id = None →
             is_Some (notes (add_note e title text tags workspace None w0).2 !! id) →
             ∃ r, (add_note e title text tags workspace None w0).1 = Ok r) →
            indexed id (add_note e title text tags workspace None w0).2).
  { intros w0 text Hnotes Hentries. unfold indexed, index_ids in *.
    rewrite add_note_run, get_next_note_id_run.
    destruct (db_fails e CounterInc).
    { intros _. fields. by rewrite Hnotes, Hentries. }
    rewrite insert_one_run. destruct (db_fails e (InsertOne _)).
    { intros _. fields. by rewrite Hnotes, Hentries. }
    fields. rewrite Hnotes. destruct (notes w !! next_id w0) eqn:Hfree.
    { intros _. fields. by rewrite Hnotes, Hentries. }
    rewrite add_note_to_index_run. destruct (encode e text) as [v|].
    - intros _. fields. rewrite Hnotes, Hentries. unfold add_with_ids.
      rewrite fmap_app. intros Hid. apply elem_of_app.
      destruct (decide (id = next_id w0)) as [->|Hne]; [right; by left|].
      left. rewrite lookup_insert_ne in Hid by done. by apply Hw.
    - fields. rewrite Hnotes, Hentries. intros Hkeep Hid.
      destruct (decide (id = next_id w0)) as [->|Hne].
      + destruct (Hkeep Hfree Hid) as [r Hr]. discriminate Hr.
      + rewrite lookup_insert_ne in Hid by done. by apply Hw. }
  destruct audio_path as [p|]; [|by apply Htext].
  destruct (decide (p = EmptyString)) as [->|Hp].
  { intros Hkeep. by apply (Htext w content). }
  rewrite (add_note_audio_run _ _ _ _ _ _ _ Hp).
  destruct (recognize_google e p) as [text|].
  - apply Htext; by fields.
  - intros _. unfold indexed, index_ids in *. by fields.
Qed.

Lemma edit_note_indexed (e : env) (w : world) (id note_id : Z) (updates : document) :
  indexed id w →
  keeps_entry id e (Update note_id updates) w →
  indexed id (edit_note e note_id updates w).2.
Proof.
  unfold indexed, index_ids. cbn [keeps_entry]. intros Hw Hkeep.
  destruct (content updates) as [c|] eqn:Hc.
  - assert (Hstay : ∀ r w', edit_note e note_id updates w = (r, w') →
              (∀ n, r = Ok n → n = 0) →
              notes w' = notes w →
              index_entries w' = remove_ids (index_entries w) note_id →
              is_Some (notes w' !! id) → id ∈ (index_entries w').*1).
    { intros r w' Hrun Hr Hnotes Hentries Hid. rewrite Hnotes in Hid.
      rewrite Hentries. destruct (decide (note_id = id)) as [->|Hne].
      - destruct Hkeep as (n & Hn & Hn0); [done|by eexists|done|].
        rewrite Hrun in Hn. simpl in Hn. destruct Hn0. by apply Hr.
      - apply remove_ids_keeps; [done|by apply Hw]. }
    destruct (edit_note e note_id updates w) as [r w'] eqn:Hrun.
    specialize (Hstay r w' eq_refl). revert Hrun Hstay.
    rewrite edit_note_run, Hc, remove_note_from_index_run, update_one_run. cbn [snd].
    destruct (db_fails e (UpdateOne note_id)).
    { intros [= <- <-] Hstay. apply Hstay; [done|by fields..]. }
    fields. destruct (notes w !! note_id) as [d|] eqn:Hd.
    2:{ rewrite decide_True by done. intros [= <- <-] Hstay.
        apply Hstay; [by intros n [= <-]|by fields..]. }
    destruct (decide (apply_set updates d = d)) as [Hsame|Hdiff].
    { rewrite decide_True by done. intros [= <- <-] Hstay.
      apply Hstay; [by intros n [= <-]|by fields..]. }
    rewrite decide_False by done. rewrite add_note_to_index_run.
    destruct (encode e c) as [v|] eqn:Hv.
    + intros [= <- <-] _. fields. unfold add_with_ids. rewrite fmap_app.
      intros Hid. apply elem_of_app.
      destruct (decide (id = note_id)) as [->|Hne]; [right; by left|].
      left. rewrite lookup_insert_ne in Hid by done.
      apply remove_ids_keeps; [done|by apply Hw].
    + intros [= <- <-] _. fields. intros Hid.
      destruct (decide (note_id = id)) as [->|Hne].
      * destruct Hkeep as (n & Hn & _); [done|by eexists|by eexists|].
        revert Hn. rewrite edit_note_run, Hc, remove_note_from_index_run, update_one_run.
        cbn [snd]. destruct (db_fails e (UpdateOne id)); [done|].
        fields. rewrite Hd, decide_False by done. rewrite decide_False by done.
        by rewrite add_note_to_index_run, Hv.
      * rewrite lookup_insert_ne in Hid by done.
        apply remove_ids_keeps; [done|by apply Hw].
  - rewrite edit_note_run, Hc, update_one_run.
    destruct (db_fails e (UpdateOne note_id)); [by fields|].
    destruct (notes w !! note_id) as [d|] eqn:Hd; [|by fields].
    case_decide; [by fields|]. fields. intros Hid. apply Hw.
    destruct (decide (id = note_id)) as [->|Hne]; [by eexists|].
    by rewrite lookup_insert_ne in Hid.
Qed.

Lemma delete_note_indexed (e : env) (w : world) (id note_id : Z) :
  indexed id w → indexed id (delete_note e note_id w).2.
Proof.
  unfold indexed, index_ids. intros Hw. rewrite delete_note_run, delete_one_run.
  destruct (db_fails e (DeleteOne note_id)); [by fields|].
  destruct (notes w !! note_id) as [d|] eqn:Hd.
  - rewrite decide_False by done. rewrite remove_note_from_index_run. fields.
    intros [Hne Hid]%lookup_delete_is_Some.
    apply remove_ids_keeps; [done|by apply Hw].
  - rewrite decide_True by done. by fields.
Qed.

Lemma run_op_indexed (e : env) (o : op) (w : world) (id : Z) :
  indexed id w → keeps_entry id e o w → indexed id (run_op e o w).
Proof.
  destruct o; cbn [run_op].
  - apply add_note_indexed.
  - apply edit_note_indexed.
  - intros Hw _. by apply delete_note_indexed.
Qed.

Lemma run_ops_indexed (ops : list (env * op)) (w : world) (id : Z) :
  indexed id w → keeps_entry_run id ops w → indexed id (run_ops ops w).
Proof.
  revert w. induction ops as [|[e o] ops IH]; intros w Hw Hkeep; [done|].
  destruct Hkeep as [Hop Hrest]. simpl. apply IH; [|done]. by apply run_op_indexed.
Qed.

(** C1, as the code has it.  Start from the empty repository, or from any
    state in which what follows holds and every stored id is one that the id
    counter has handed out.  After every sequence of create, update and delete
    operations, whichever of them failed and wherever: no id has two index
    entries, and every index entry stands under the id of a note that is stored
    now and is the embedding of the content that this note has now, be it
    empty.  So no entry outlives its note and no entry is stale.  In the other
    direction, a stored note has its entry (exactly one) provided that the
    create that stored it returned and that every content update of it
    returned with a modified count that is not zero: a note is without its
    entry only after a create or a content update of that very note that
    raised, or after a content update of it that reported zero modified
    records. *)
Theorem index_follows_database (enc : string → vec) (ops : list (env * op)) (w : world) :
  Forall (λ eo, env_encodes enc eo.1) ops →
  consistent enc w →
  consistent enc (run_ops ops w) ∧
  ∀ id, indexed id w → keeps_entry_run id ops w →
        ∀ d, notes (run_ops ops w) !! id = Some d →
             ∃ c, content d = Some c ∧
                  entries_for id (run_ops ops w) = [(id, enc c)].
Proof.
  intros Hops Hw.
  pose proof (run_ops_consistent enc ops w Hops Hw) as Hend.
  split; [done|]. intros id Hid Hkeep d Hd.
  apply (consistent_entry enc _ id d Hend); [|done].
  apply (run_ops_indexed ops w id Hid Hkeep). by eexists.
Qed.

(** Two notes are created, the second with empty content; the encoder is
    down while the content of the second is updated; the first is updated.
    The first note has the entry of its new content, the second is stored
    without an entry. *)
Lemma index_follows_database_witness :
  entries_for 1
    (run_ops [(working_env code_points, Create "A" "alpha" None None None);
              (working_env code_points, Create "B" EmptyString None None None);
              (set_encode (λ _, None) (working_env code_points),
               Update 2 (Document None (Some "b") None None None None));
              (working_env code_points,
               Update 1 (Document None (Some "beta") None None None None))]
       empty_world) = [(1, code_points "beta")].
Proof.
  destruct (proj2 (index_follows_database code_points
              [(working_env code_points, Create "A" "alpha" None None None);
               (working_env code_points, Create "B" EmptyString None None None);
               (set_encode (λ _, None) (working_env code_points),
                Update 2 (Document None (Some "b") None None None None));
               (working_env code_points,
                Update 1 (Document None (Some "beta") None None None None))]
              empty_world
              ltac:(repeat constructor; intros s v Hv; simpl in Hv; congruence)
              (consistent_at_empty code_points))
            1 ltac:(intros [d Hd]; vm_compute in Hd; discriminate Hd)
            ltac:(cbn [keeps_entry_run keeps_entry fst snd run_op];
                  repeat split; try discriminate;
                  intros; eexists; vm_compute; repeat split; discriminate)
            (Document (Some "A") (Some "beta") (Some []) (Some "default") (Some 0) (Some 0))
            ltac:(vm_compute; reflexivity))
    as (c & Hc & Hentries).
  injection Hc as <-. exact Hentries.
Defined.

(** The invariant in the words of the specification fails in both
    directions: a note created with empty content is indexed, and a note whose
    embedding failed is stored, with its content, without an index entry. *)
Lemma index_not_iff_content :
  ¬ indexed_iff_content
      (run_ops [(working_env code_points, Create "T" EmptyString None None None)]
         empty_world) ∧
  ¬ indexed_iff_content
      (run_ops [(set_encode (λ _, None) (working_env code_points),
                 Create "T" "C" None None None)]
         empty_world).
Proof.
  split; intros H.
  - destruct (proj1 (H 1)) as (d & c & Hd & Hc & Hne).
    { vm_compute. left. }
    vm_compute in Hd. injection Hd as <-. simpl in Hc. congruence.
  - assert (Hin : 1 ∈ index_ids
             (run_ops [(set_encode (λ _, None) (working_env code_points),
                        Create "T" "C" None None None)] empty_world)).
    { apply H. eexists _, "C". split; [vm_compute; reflexivity|]. done. }
    vm_compute in Hin. by apply elem_of_nil in Hin.
Qed.

(** An update that carries the content the note already has: MongoDB reports
    zero modified records, so the entry that was removed is not added again
    while the note is still stored. *)
Lemma edit_note_unchanged_content :
  ∃ w', edit_note (working_env code_points) 1
          (Document None (Some "C") None None None None)
          (run_ops [(working_env code_points, Create "T" "C" None None None)]
             empty_world) = (Ok 0, w') ∧
        (content <$> notes w' !! 1) = Some (Some "C") ∧
        index_ids w' = [].
Proof. eexists. split; [vm_compute; reflexivity|]. split; vm_compute; reflexivity. Qed.

(** ** Retrieval *)

Lemma find_run (e : env) (c : db_call) (P : note → Prop) `{∀ n, Decision (P n)}
    (w : world) :
  find e c P w =
  if db_fails e c then (Raise (ServiceError "mongo"), log (EvDb c) w)
  else (Ok (filter P (stored w)), log (EvDb c) w).
Proof. unfold find. run. by destruct (db_fails e c). Qed.

Lemma full_text_search_run (e : env) (query : string) (w : world) :
  full_text_search e query w =
  if db_fails e EnsureTextIndex
  then (Raise (ServiceError "mongo"), log (EvDb EnsureTextIndex) w)
  else if db_fails e (TextSearch query)
  then (Raise (ServiceError "mongo"),
        log (EvDb (TextSearch query)) (log (EvDb EnsureTextIndex) w))
  else (Ok (filter (λ n, Is_true (text_match e query (fields n))) (stored w)),
        log (EvDb (TextSearch query)) (log (EvDb EnsureTextIndex) w)).
Proof.
  unfold full_text_search, ensure_text_index. unfold bind at 1. unfold db at 1. run.
  destruct (db_fails e EnsureTextIndex); [done|].
  rewrite find_run. by destruct (db_fails e (TextSearch query)).
Qed.

Lemma collect_relevant_notes_run (e : env) (ids : list Z) (ft : list note) (w : world) :
  collect_relevant_notes e ids ft w =
  if decide (ids = []) then (Ok (filter (λ n, _id n ∉ ids) ft), w)
  else if db_fails e (FindIn ids)
  then (Raise (ServiceError "mongo"), log (EvDb (FindIn ids)) w)
  else (Ok (filter (λ n, _id n ∈ ids) (stored w) ++ filter (λ n, _id n ∉ ids) ft),
        log (EvDb (FindIn ids)) w).
Proof.
  unfold collect_relevant_notes. case_decide; [by run|].
  unfold bind at 1. rewrite find_run. by destruct (db_fails e (FindIn ids)); run.
Qed.

Lemma stored_lookup (w : world) (n : note) :
  n ∈ stored w ↔ notes w !! _id n = Some (fields n).
Proof. destruct n as [id d]. apply elem_of_map_to_list. Qed.

Lemma stored_ids_NoDup (w : world) : NoDup (_id <$> stored w).
Proof. apply NoDup_fst_map_to_list. Qed.

Lemma filter_ids_NoDup (P : note → Prop) `{∀ n, Decision (P n)} (w : world) :
  NoDup (_id <$> filter P (stored w)).
Proof.
  eapply sublist_NoDup; [apply stored_ids_NoDup|]. apply fmap_sublist, sublist_filter.
Qed.

(** Once both searches returned, the candidate list is the stored notes whose
    id the semantic search returned, followed by exactly the full-text matches
    whose id it did not return.  A stored note is a candidate when its id was
    returned or its text matches, whatever its content, and no two candidates
    have the same id. *)
Lemma relevant_notes_collected (e : env) (w w1 w2 w3 : world) (question : string)
    (k : nat) (ids : list Z) (ft rel : list note) :
  search_similar_notes e question k w = (Ok ids, w1) →
  full_text_search e question w1 = (Ok ft, w2) →
  collect_relevant_notes e ids ft w2 = (Ok rel, w3) →
  ft = filter (λ n, Is_true (text_match e question (fields n))) (stored w) ∧
  rel = filter (λ n, _id n ∈ ids) (stored w) ++ filter (λ n, _id n ∉ ids) ft ∧
  (∀ n, n ∈ rel ↔
        n ∈ stored w ∧ (_id n ∈ ids ∨ Is_true (text_match e question (fields n)))) ∧
  NoDup (_id <$> rel).
Proof.
  rewrite search_similar_notes_run. destruct (encode e question) as [q|]; [|done].
  destruct k as [|k']; [done|]. set (k := S k').
  intros [= <- <-]. set (ids := filter _ _).
  rewrite full_text_search_run.
  destruct (db_fails e EnsureTextIndex); [done|].
  destruct (db_fails e (TextSearch question)); [done|].
  intros [= <- <-]. unfold stored. fields. fold (stored w).
  set (ft := filter _ (stored w)).
  assert (Hrel : ∀ w', collect_relevant_notes e ids ft w' = (Ok rel, w3) →
            notes w' = notes w →
            rel = filter (λ n, _id n ∈ ids) (stored w) ++ filter (λ n, _id n ∉ ids) ft).
  { intros w' Hrun Hnotes. rewrite collect_relevant_notes_run in Hrun.
    destruct (decide (ids = [])) as [Hnil|Hsome].
    - injection Hrun as <- <-. rewrite (filter_none (λ n, _id n ∈ ids)); [done|].
      intros n _. rewrite Hnil. apply not_elem_of_nil.
    - destruct (db_fails e (FindIn ids)); [done|].
      injection Hrun as <- <-. unfold stored. by rewrite Hnotes. }
  intros Hrun. apply Hrel in Hrun; [|by fields]. clear Hrel. subst rel.
  split; [done|]. split; [done|]. split.
  - intros n. rewrite elem_of_app, !list_elem_of_filter. subst ft.
    rewrite list_elem_of_filter. destruct (decide (_id n ∈ ids)); tauto.
  - rewrite fmap_app. apply NoDup_app. split; [apply filter_ids_NoDup|]. split.
    + intros id (n1 & -> & Hn1%list_elem_of_filter)%list_elem_of_fmap
                (n2 & Heq & Hn2%list_elem_of_filter)%list_elem_of_fmap.
      destruct Hn2 as [Hout _]. destruct Hn1 as [Hin _]. by rewrite Heq in Hin.
    + eapply sublist_NoDup;
        [apply (filter_ids_NoDup (λ n, Is_true (text_match e question (fields n))) w)|].
      apply fmap_sublist, sublist_filter.
Qed.

(** ** Question answering *)

Lemma ask_question_hit (e : env) (question answer : string) (k : nat) (w : world) :
  _qa_cache w !! question = Some answer →
  ask_question e question k w = (Ok answer, w).
Proof. intros Hhit. unfold ask_question, bind, get, ret. by rewrite Hhit. Qed.

Lemma ask_question_miss (e : env) (question : string) (k : nat) (w : world) :
  _qa_cache w !! question = None →
  ask_question e question k w =
  match search_similar_notes e question k w with
  | (Ok ids, w1) =>
      match full_text_search e question w1 with
      | (Ok ft, w2) =>
          match collect_relevant_notes e ids ft w2 with
          | (Ok [], w3) =>
              (Ok NO_MATCHING_NOTES, set_qa_cache (insert question NO_MATCHING_NOTES) w3)
          | (Ok (n :: rel), w3) =>
              match generate_response e (qa_prompt e question k (n :: rel)) false w3 with
              | (Ok answer, w4) => (Ok answer, set_qa_cache (insert question answer) w4)
              | (Raise x, w4) => (Raise x, w4)
              end
          | (Raise x, w3) => (Raise x, w3)
          end
      | (Raise x, w2) => (Raise x, w2)
      end
  | (Raise x, w1) => (Raise x, w1)
  end.
Proof.
  intros Hmiss. unfold ask_question. unfold bind at 1. unfold get. rewrite Hmiss.
  unfold bind at 1. destruct (search_similar_notes e question k w) as [[ids|x] w1]; [|done].
  unfold bind at 1. destruct (full_text_search e question w1) as [[ft|x] w2]; [|done].
  unfold bind at 1.
  destruct (collect_relevant_notes e ids ft w2) as [[[|n rel]|x] w3]; [by run| |done].
  unfold bind at 1.
  by destruct (generate_response e _ false w3) as [[answer|x] w4]; run.
Qed.

(** C6.  A question that is not cached and for which the vector search and
    the full-text search both return nothing is answered with the fixed
    response; the answer is cached, and nothing happened besides the two
    searches: the generation provider was not called. *)
Theorem no_match_no_generation (e : env) (w w1 w2 : world) (question : string) (k : nat) :
  _qa_cache w !! question = None →
  search_similar_notes e question k w = (Ok [], w1) →
  full_text_search e question w1 = (Ok [], w2) →
  ∃ w', ask_question e question k w = (Ok NO_MATCHING_NOTES, w') ∧
        trace w' = trace w ++ search_events question k ∧
        (∀ prompt, EvGenerate prompt ∉ search_events question k) ∧
        _qa_cache w' = <[question := NO_MATCHING_NOTES]> (_qa_cache w).
Proof.
  intros Hmiss Hvec Hft. rewrite (ask_question_miss _ _ _ _ Hmiss), Hvec, Hft.
  rewrite collect_relevant_notes_run. rewrite decide_True by done. simpl.
  eexists. split; [done|].
  rewrite search_similar_notes_run in Hvec.
  destruct (encode e question); [|done]. destruct k; [done|]. injection Hvec as _ <-.
  rewrite full_text_search_run in Hft.
  destruct (db_fails e EnsureTextIndex); [done|].
  destruct (db_fails e (TextSearch question)); [done|].
  injection Hft as _ <-. fields. split; [done|]. split; [|done].
  intros prompt Hin. unfold search_events in Hin.
  repeat (apply elem_of_cons in Hin as [Hin|Hin]; [discriminate Hin|]).
  by apply elem_of_nil in Hin.
Qed.

Lemma no_match_no_generation_witness :
  ∃ w', ask_question (working_env code_points) "unrelated query" 5 empty_world
          = (Ok NO_MATCHING_NOTES, w') ∧
        trace w' = search_events "unrelated query" 5.
Proof.
  edestruct (no_match_no_generation (working_env code_points) empty_world)
    with (question := "unrelated query") (k := 5%nat)
    as (w' & Hrun & Htrace & _).
  - vm_compute. reflexivity.
  - vm_compute. reflexivity.
  - vm_compute. reflexivity.
  - exists w'. split; [exact Hrun | exact Htrace].
Defined.

(** ** The answer cache *)

Section keeps_cache.
Context {A B : Type}.

Lemma keeps_ret (a : A) : keeps_cache (ret a).
Proof. done. Qed.
Lemma keeps_raise (x : exn) : keeps_cache (@raise A x).
Proof. done. Qed.
Lemma keeps_bind (m : M A) (k : A → M B) :
  keeps_cache m → (∀ a, keeps_cache (k a)) → keeps_cache (bind m k).
Proof.
  intros Hm Hk w. unfold bind. specialize (Hm w).
  destruct (m w) as [[a|x] w1]; simpl in *; [|done].
  by rewrite Hk.
Qed.
Lemma keeps_try_except (m : M A) (h : exn → M A) :
  keeps_cache m → (∀ x, keeps_cache (h x)) → keeps_cache (try_except m h).
Proof.
  intros Hm Hh w. unfold try_except. specialize (Hm w).
  destruct (m w) as [[a|x] w1]; simpl in *; [done|].
  by rewrite Hh.
Qed.
Lemma keeps_modify (f : world → world) :
  (∀ w, _qa_cache (f w) = _qa_cache w) → keeps_cache (modify f).
Proof. intros Hf w. apply Hf. Qed.
End keeps_cache.

Lemma keeps_get : keeps_cache get.
Proof. done. Qed.
Lemma keeps_emit (ev : event) : keeps_cache (emit ev).
Proof. done. Qed.

Create HintDb cache.
#[global] Hint Resolve keeps_get keeps_emit : cache.

(** Walk through a computation: binds, handlers, branches; close the leaves
    with what is already known to keep the cache. *)
Ltac keeps :=
  repeat first
    [ apply keeps_ret
    | apply keeps_raise
    | apply keeps_bind; [|intros ?]
    | apply keeps_try_except; [|intros ?]
    | apply keeps_modify; done
    | solve [auto with cache]
    | progress cbv zeta
    | match goal with
      | |- keeps_cache (match ?x with _ => _ end) => destruct x
      end ].

Lemma keeps_call {A} (ev : event) (r : option A) (what : string) :
  keeps_cache (call ev r what).
Proof. unfold call. keeps. Qed.
Lemma keeps_db (e : env) (c : db_call) : keeps_cache (db e c).
Proof. unfold db. keeps. Qed.
#[global] Hint Resolve keeps_call keeps_db : cache.

Lemma keeps_load_index : keeps_cache load_index.
Proof. unfold load_index. keeps. Qed.
Lemma keeps_save_index : keeps_cache save_index.
Proof. unfold save_index. keeps. Qed.
#[global] Hint Resolve keeps_load_index keeps_save_index : cache.

Lemma keeps_add_note_to_index e id text : keeps_cache (add_note_to_index e id text).
Proof. unfold add_note_to_index. keeps. Qed.
Lemma keeps_remove_note_from_index id : keeps_cache (remove_note_from_index id).
Proof. unfold remove_note_from_index. keeps. Qed.
Lemma keeps_search_similar_notes e query k : keeps_cache (search_similar_notes e query k).
Proof. unfold search_similar_notes. keeps. Qed.
Lemma keeps_find e c (P : note → Prop) `{∀ n, Decision (P n)} : keeps_cache (find e c P).
Proof. unfold find. keeps. Qed.
Lemma keeps_find_one e id : keeps_cache (find_one e id).
Proof. unfold find_one. keeps. Qed.
Lemma keeps_insert_one e id d : keeps_cache (insert_one e id d).
Proof. unfold insert_one. keeps. Qed.
Lemma keeps_delete_one e id : keeps_cache (delete_one e id).
Proof. unfold delete_one. keeps. Qed.
Lemma keeps_update_one e id updates : keeps_cache (update_one e id updates).
Proof. unfold update_one. keeps. Qed.
Lemma keeps_get_next_note_id e : keeps_cache (get_next_note_id e).
Proof. unfold get_next_note_id. keeps. Qed.
Lemma keeps_transcribe_audio e p : keeps_cache (transcribe_audio e p).
Proof. unfold transcribe_audio. keeps. Qed.
#[global] Hint Resolve keeps_add_note_to_index keeps_remove_note_from_index
  keeps_search_similar_notes keeps_find keeps_find_one keeps_insert_one
  keeps_delete_one keeps_update_one keeps_get_next_note_id keeps_transcribe_audio
  : cache.

Lemma keeps_full_text_search e query : keeps_cache (full_text_search e query).
Proof. unfold full_text_search, ensure_text_index. keeps. Qed.
Lemma keeps_collect_relevant_notes e ids ft :
  keeps_cache (collect_relevant_notes e ids ft).
Proof. unfold collect_relevant_notes. keeps. Qed.
Lemma keeps_add_note e title content tags workspace audio_path :
  keeps_cache (add_note e title content tags workspace audio_path).
Proof. unfold add_note. keeps. Qed.
Lemma keeps_delete_note e id : keeps_cache (delete_note e id).
Proof. unfold delete_note. keeps. Qed.
Lemma keeps_edit_note e id updates : keeps_cache (edit_note e id updates).
Proof. unfold edit_note. keeps. Qed.
Lemma keeps_ensure_gemini e : keeps_cache (_ensure_gemini e).
Proof. unfold _ensure_gemini. keeps. Qed.
#[global] Hint Resolve keeps_full_text_search keeps_collect_relevant_notes
  keeps_add_note keeps_delete_note keeps_edit_note keeps_ensure_gemini : cache.

Lemma keeps_generate_response e prompt web : keeps_cache (generate_response e prompt web).
Proof. unfold generate_response. keeps. Qed.
Lemma keeps_subscript {A} key (v : option A) : keeps_cache (subscript key v).
Proof. unfold subscript. keeps. Qed.
Lemma keeps_write_file e path data : keeps_cache (write_file e path data).
Proof. unfold write_file. keeps. Qed.
#[global] Hint Resolve keeps_generate_response keeps_subscript keeps_write_file : cache.

Lemma keeps_add_to_calendar e n : keeps_cache (add_to_calendar e n).
Proof. unfold add_to_calendar. keeps. Qed.
Lemma keeps_share_to_whatsapp e n : keeps_cache (share_to_whatsapp e n).
Proof. unfold share_to_whatsapp. keeps. Qed.
Lemma keeps_rephrase_note e n : keeps_cache (rephrase_note e n).
Proof. unfold rephrase_note. keeps. Qed.
Lemma keeps_suggest_tags e n : keeps_cache (suggest_tags e n).
Proof. unfold suggest_tags. keeps. Qed.
#[global] Hint Resolve keeps_add_to_calendar keeps_share_to_whatsapp
  keeps_rephrase_note keeps_suggest_tags : cache.

Lemma keeps_perform_action e action n : keeps_cache (perform_action e action n).
Proof.
  unfold perform_action, action_functions.
  repeat case_decide; keeps.
Qed.
#[global] Hint Resolve keeps_perform_action : cache.

Lemma keeps_run_agent e n agent : keeps_cache (run_agent e n agent).
Proof. unfold run_agent. keeps. Qed.
#[global] Hint Resolve keeps_run_agent : cache.

Lemma keeps_for_each {A} (l : list A) (body : A → M unit) :
  (∀ x, keeps_cache (body x)) → keeps_cache (for_each l body).
Proof. intros Hbody. induction l as [|x l IH]; simpl; keeps. Qed.

Lemma keeps_run_agents e n : keeps_cache (run_agents e n).
Proof. unfold run_agents. keeps. apply keeps_for_each. auto with cache. Qed.

Lemma keeps_run {A} (m : M A) (w w' : world) (r : outcome A) :
  keeps_cache m → m w = (r, w') → _qa_cache w' = _qa_cache w.
Proof. intros Hm Hrun. specialize (Hm w). by rewrite Hrun in Hm. Qed.

(** What a call of [ask_question] does to the cache: nothing, or it stores
    the answer it returns under a question that was not cached. *)
Lemma ask_question_cache (e : env) (question : string) (k : nat) (w w' : world)
    (r : outcome string) :
  ask_question e question k w = (r, w') →
  (_qa_cache w' = _qa_cache w ∧
   ∀ answer, r = Ok answer → _qa_cache w !! question = Some answer) ∨
  (_qa_cache w !! question = None ∧
   ∃ answer, r = Ok answer ∧ _qa_cache w' = <[question := answer]> (_qa_cache w)).
Proof.
  destruct (_qa_cache w !! question) as [cached|] eqn:Hcache.
  { rewrite (ask_question_hit _ _ _ _ _ Hcache). intros [= <- <-].
    left. split; [done|]. by intros answer [= <-]. }
  rewrite (ask_question_miss _ _ _ _ Hcache).
  destruct (search_similar_notes e question k w) as [[ids|x] w1] eqn:H1.
  2:{ intros [= <- <-]. left. split; [|done].
      eapply keeps_run; [|exact H1]. auto with cache. }
  apply keeps_run in H1; [|auto with cache].
  destruct (full_text_search e question w1) as [[ft|x] w2] eqn:H2.
  2:{ intros [= <- <-]. left. split; [|done].
      apply keeps_run in H2; [|auto with cache]. congruence. }
  apply keeps_run in H2; [|auto with cache].
  destruct (collect_relevant_notes e ids ft w2) as [[[|n rel]|x] w3] eqn:H3.
  3:{ intros [= <- <-]. left. split; [|done].
      apply keeps_run in H3; [|auto with cache]. congruence. }
  - apply keeps_run in H3; [|auto with cache].
    intros [= <- <-]. right. split; [done|]. eexists. split; [done|].
    fields. congruence.
  - apply keeps_run in H3; [|auto with cache].
    destruct (generate_response e _ false w3) as [[answer|x] w4] eqn:H4.
    + apply keeps_run in H4; [|auto with cache].
      intros [= <- <-]. right. split; [done|]. eexists. split; [done|].
      fields. congruence.
    + apply keeps_run in H4; [|auto with cache].
      intros [= <- <-]. left. split; [|done]. congruence.
Qed.

Lemma run_command_cache (e : env) (c : command) (w : world) (question answer : string) :
  _qa_cache w !! question = Some answer →
  _qa_cache (run_command e c w) !! question = Some answer.
Proof.
  intros Hhit. destruct c as [o|question' k|n|]; simpl.
  - destruct o; simpl.
    + by rewrite keeps_add_note.
    + by rewrite keeps_edit_note.
    + by rewrite keeps_delete_note.
  - destruct (ask_question e question' k w) as [r w'] eqn:Hrun. cbn [snd].
    apply ask_question_cache in Hrun as [[-> _] | (Hmiss & a & _ & ->)]; [done|].
    rewrite lookup_insert_ne; [done|]. congruence.
  - by rewrite keeps_run_agents.
  - by rewrite keeps_save_index.
Qed.

Lemma run_commands_cache (cmds : list (env * command)) (w : world)
    (question answer : string) :
  _qa_cache w !! question = Some answer →
  _qa_cache (run_commands cmds w) !! question = Some answer.
Proof.
  revert w. induction cmds as [|[e c] cmds IH]; intros w Hhit; [done|].
  simpl. by apply IH, run_command_cache.
Qed.

Lemma generate_response_run (e : env) (prompt : string) (w : world) :
  generate_response e prompt false w =
  if _gemini_configured w
  then (Ok (default AI_RESPONSE_FAILED (generate_content e prompt)),
        log (EvGenerate prompt) w)
  else if decide (default "default_key" (GEMINI_API_KEY e) = EmptyString)
  then (Raise (EnvironmentError "GEMINI_API_KEY not set"), w)
  else (Ok (default AI_RESPONSE_FAILED (generate_content e prompt)),
        log (EvGenerate prompt) (set_gemini_configured true w)).
Proof.
  unfold generate_response, _ensure_gemini. run.
  destruct (_gemini_configured w).
  - by destruct (generate_content e prompt).
  - case_decide; [done|]. by destruct (generate_content e prompt).
Qed.

(** C10.  The answer that [ask_question] returns is in the cache under the
    question as it was asked.  On a question that was not cached it is the
    fixed no-match response or, the provider having been called last, the text
    of the provider or ["[AI response failed]"] when the provider raised.  From
    then on, whatever the process does in between and however the
    collaborators behave, the same question gets the same text back, and the
    call changes nothing: no search, no generation. *)
Theorem answers_are_cached (e : env) (w w' : world) (question answer : string) (k : nat) :
  ask_question e question k w = (Ok answer, w') →
  _qa_cache w' !! question = Some answer ∧
  (_qa_cache w !! question = None →
     answer = NO_MATCHING_NOTES ∨
     ∃ prompt, last (trace w') = Some (EvGenerate prompt) ∧
               answer = default AI_RESPONSE_FAILED (generate_content e prompt)) ∧
  ∀ (cmds : list (env * command)) (e' : env) (k' : nat),
    ask_question e' question k' (run_commands cmds w')
    = (Ok answer, run_commands cmds w').
Proof.
  intros Hrun.
  assert (Hcached : _qa_cache w' !! question = Some answer).
  { apply ask_question_cache in Hrun as [[-> Hhit] | (_ & a & [= <-] & ->)].
    - by apply Hhit.
    - apply lookup_insert_eq. }
  split; [done|]. split.
  - intros Hmiss. rewrite (ask_question_miss _ _ _ _ Hmiss) in Hrun.
    destruct (search_similar_notes e question k w) as [[ids|x] w1]; [|done].
    destruct (full_text_search e question w1) as [[ft|x] w2]; [|done].
    destruct (collect_relevant_notes e ids ft w2) as [[[|n rel]|x] w3]; [| |done].
    { injection Hrun as <- _. by left. }
    rewrite generate_response_run in Hrun. right.
    exists (qa_prompt e question k (n :: rel)).
    destruct (_gemini_configured w3); [|case_decide; [done|]];
      injection Hrun as <- <-; fields; by rewrite last_snoc.
  - intros cmds e' k'. apply ask_question_hit. by apply run_commands_cache.
Qed.

(** The provider is down for the first call and back for the second, which
    still answers ["[AI response failed]"]. *)
Lemma answers_are_cached_witness :
  ∃ w',
    ask_question (set_generate_content (λ _, None) (working_env code_points)) "same" 5
      (run_ops [(working_env code_points, Create "A" "same" None None None)] empty_world)
    = (Ok AI_RESPONSE_FAILED, w') ∧
    ask_question (working_env code_points) "same" 5
      (run_commands [(working_env code_points,
                      Repository (Create "B" "same" None None None))] w')
    = (Ok AI_RESPONSE_FAILED,
       run_commands [(working_env code_points,
                      Repository (Create "B" "same" None None None))] w').
Proof.
  eexists. split.
  - vm_compute; reflexivity.
  - refine (proj2 (proj2 (answers_are_cached
             (set_generate_content (λ _, None) (working_env code_points))
             (run_ops [(working_env code_points, Create "A" "same" None None None)]
                empty_world)
             _ "same" AI_RESPONSE_FAILED 5 _))
           [(working_env code_points, Repository (Create "B" "same" None None None))]
           (working_env code_points) 5%nat).
    vm_compute; reflexivity.
Defined.

(** ** Agent evaluation *)

Section returns.
Context {A B : Type}.

Lemma returns_ret (a : A) : returns (ret a).
Proof. intros w. by eexists _, _. Qed.
Lemma returns_bind (m : M A) (k : A → M B) :
  returns m → (∀ a, returns (k a)) → returns (bind m k).
Proof.
  intros Hm Hk w. unfold bind. destruct (Hm w) as (a & w1 & ->). apply Hk.
Qed.
Lemma returns_try_except (m : M A) (h : exn → M A) :
  (∀ x, returns (h x)) → returns (try_except m h).
Proof.
  intros Hh w. unfold try_except. destruct (m w) as [[a|x] w1]; [by eexists _, _|].
  apply Hh.
Qed.
End returns.

Lemma returns_emit (ev : event) : returns (emit ev).
Proof. intros w. by eexists _, _. Qed.

Lemma returns_subscript {A} (key : string) (v : option A) :
  is_Some v → returns (subscript key v).
Proof. intros [a ->]. apply returns_ret. Qed.

(** The handlers that subscript outside their [try] return when the keys
    are there; the other two return on every note. *)
Lemma add_to_calendar_returns (e : env) (n : note) :
  has_title_and_content n → returns (add_to_calendar e n).
Proof.
  intros [Ht Hc]. unfold add_to_calendar.
  apply returns_bind; [by apply returns_subscript|]. intros t.
  apply returns_bind; [by apply returns_subscript|]. intros c.
  apply returns_try_except. intros x. apply returns_ret.
Qed.

Lemma share_to_whatsapp_returns (e : env) (n : note) :
  has_title_and_content n → returns (share_to_whatsapp e n).
Proof.
  intros [Ht Hc]. unfold share_to_whatsapp.
  apply returns_bind; [by apply returns_subscript|]. intros t.
  apply returns_bind; [by apply returns_subscript|]. intros c.
  apply returns_try_except. intros x. apply returns_ret.
Qed.

Lemma rephrase_note_returns (e : env) (n : note) : returns (rephrase_note e n).
Proof. apply returns_try_except. intros x. apply returns_ret. Qed.

Lemma suggest_tags_returns (e : env) (n : note) : returns (suggest_tags e n).
Proof. apply returns_try_except. intros x. apply returns_ret. Qed.

Lemma perform_action_returns (e : env) (action : string) (n : note) :
  has_title_and_content n → returns (perform_action e action n).
Proof.
  intros Hn. unfold perform_action, action_functions.
  repeat case_decide; try apply returns_emit;
    (apply returns_bind; [apply returns_emit|intros _]);
    auto using add_to_calendar_returns, share_to_whatsapp_returns,
               rephrase_note_returns, suggest_tags_returns.
Qed.

Lemma run_agent_returns (e : env) (n : note) (agent : string * agent_config) :
  has_title_and_content n → returns (run_agent e n agent).
Proof.
  intros Hn. unfold run_agent. cbv zeta.
  destruct (truthy _ && truthy _); [|apply returns_ret].
  destruct (check_trigger _ n); [by apply perform_action_returns|apply returns_ret].
Qed.

(** On a note that has a title and a content no rule can raise: agent
    evaluation returns, whatever fails inside the handlers. *)
Lemma run_agents_returns (e : env) (n : note) :
  has_title_and_content n → returns (run_agents e n).
Proof.
  intros Hn. unfold run_agents. destruct (agents_json e) as [agents|]; [|apply returns_ret].
  induction agents as [|agent agents IH]; simpl; [apply returns_ret|].
  apply returns_bind; [by apply run_agent_returns|]. by intros _.
Qed.

(** What the isolation rests on.  [add_to_calendar] reads [note["title"]]
    before it enters its [try]: on a document without a title, which the
    program never stores, the [KeyError] would leave the handler and
    [run_agents]. *)
Lemma run_agents_untitled :
  (∃ w', run_agents reminder_env (1, untitled) (set_notes (insert 1 untitled) empty_world)
         = (Raise (KeyError "title"), w') ∧
         trace w' = [EvAction "calendar_event" 1]) ∧
  (∃ w', cli_edit reminder_env 1 EmptyString "call the bank today" EmptyString false
           (set_notes (insert 1 untitled) empty_world)
         = (Raise (KeyError "title"), w') ∧
         (content <$> notes w' !! 1) = Some (Some "call the bank today") ∧
         (∀ text, EvConsole text ∉ trace w') ∧
         (∀ id, EvAction "suggest_tags" id ∉ trace w')).
Proof.
  split.
  - eexists. split; vm_compute; reflexivity.
  - eexists. split; [vm_compute; reflexivity|]. split; [vm_compute; reflexivity|].
    split; intros x Hin; vm_compute in Hin;
      repeat (apply elem_of_cons in Hin as [Hin|Hin]; [discriminate Hin|]);
      by apply elem_of_nil in Hin.
Qed.

(** The [add] command, from the point where its note is stored and read
    back: the agents cannot make it fail, it prints its result. *)
Lemma cli_add_completes (e : env) (w w1 : world) (title content tags workspace : string)
    (audio_path : string) (id : Z) :
  add_note e (or_default title EmptyString) (or_default content EmptyString)
    (Some (tags_list_of tags)) (Some (or_default workspace "default"))
    (if decide (audio_path = EmptyString) then None else Some audio_path) w
  = (Ok id, w1) →
  db_fails e (FindOne id) = false →
  ∃ w', cli_add e title content tags workspace false audio_path w = (Ok tt, w') ∧
        last (trace w') = Some (EvConsole ("Note added with ID " +:+ pretty id)).
Proof.
  intros Hadd Hfind. pose proof (add_note_stores _ _ _ _ _ _ _ _ _ Hadd) as Hnote.
  unfold cli_add. simpl. unfold bind at 1. unfold ret at 1.
  unfold bind at 1. rewrite Hadd.
  unfold bind at 1. unfold find_one. run. rewrite Hfind. simpl. rewrite Hnote. simpl.
  match goal with
  | |- context [run_agents e ?n ?w0] =>
      destruct (run_agents_returns e n ltac:(split; eauto) w0) as ([] & w2 & ->)
  end.
  eexists. split; [done|]. simpl. apply last_snoc.
Qed.

(** * Further properties of the code *)

(** ** What a computation maintains *)

Section maintains_monad.
Context {A B : Type} (I : world → Prop).

Lemma maintains_ret (a : A) : maintains I (ret a).
Proof. by intros w. Qed.
Lemma maintains_raise (x : exn) : maintains I (@raise A x).
Proof. by intros w. Qed.
Lemma maintains_get : maintains I get.
Proof. by intros w. Qed.
Lemma maintains_bind (m : M A) (k : A → M B) :
  maintains I m → (∀ a, maintains I (k a)) → maintains I (bind m k).
Proof.
  intros Hm Hk w Hw. unfold bind. specialize (Hm w Hw).
  destruct (m w) as [[a|x] w1]; simpl in *; [|done]. by apply Hk.
Qed.
Lemma maintains_try_except (m : M A) (h : exn → M A) :
  maintains I m → (∀ x, maintains I (h x)) → maintains I (try_except m h).
Proof.
  intros Hm Hh w Hw. unfold try_except. specialize (Hm w Hw).
  destruct (m w) as [[a|x] w1]; simpl in *; [done|]. by apply Hh.
Qed.
Lemma maintains_modify (f : world → world) :
  (∀ w, I w → I (f w)) → maintains I (modify f).
Proof. intros Hf w. apply Hf. Qed.
End maintains_monad.

(** The functions of the program maintain every property that the writes they
    make maintain.  The three functions that write the index are taken as
    given, so that the section serves for properties of the index too. *)
Section maintains.
Context (I : world → Prop).
Context (Hlog : ∀ ev w, is_dispatch ev = false → I w → I (log ev w)).
Context (Hdispatch : ∀ ev w, is_dispatch ev = true → I w → I (log ev w)).
Context (Hnotes : ∀ f w, I w → I (set_notes f w)).
Context (Hcounter : ∀ c w, I w → I (set_counter_seq c w)).
Context (Hgemini : ∀ b w, I w → I (set_gemini_configured b w)).
Context (Hcache : ∀ f w, I w → I (set_qa_cache f w)).
Context (Hload : maintains I load_index).
Context (Hadd : ∀ e id text, maintains I (add_note_to_index e id text)).
Context (Hremove : ∀ id, maintains I (remove_note_from_index id)).

Ltac maintained :=
  repeat first
    [ assumption
    | solve [auto]
    | apply maintains_ret
    | apply maintains_raise
    | apply maintains_get
    | apply maintains_bind; [|intros ?]
    | apply maintains_try_except; [|intros ?]
    | apply maintains_modify; intros ?;
      first [ apply Hnotes | apply Hcounter | apply Hgemini | apply Hcache
            | apply Hlog; reflexivity | apply Hdispatch; reflexivity ]
    | progress cbv zeta
    | match goal with
      | |- maintains _ (match ?x with _ => _ end) => destruct x
      end ].

Lemma maintains_db e c : maintains I (db e c).
Proof. unfold db, emit. maintained. Qed.
Local Hint Resolve maintains_db : core.

Lemma maintains_insert_one e id d : maintains I (insert_one e id d).
Proof. unfold insert_one. maintained. Qed.
Lemma maintains_delete_one e id : maintains I (delete_one e id).
Proof. unfold delete_one. maintained. Qed.
Lemma maintains_update_one e id updates : maintains I (update_one e id updates).
Proof. unfold update_one. maintained. Qed.
Lemma maintains_find e c (P : note → Prop) `{∀ n, Decision (P n)} :
  maintains I (find e c P).
Proof. unfold find. maintained. Qed.
Lemma maintains_find_one e id : maintains I (find_one e id).
Proof. unfold find_one. maintained. Qed.
Lemma maintains_get_next_note_id e : maintains I (get_next_note_id e).
Proof. unfold get_next_note_id. maintained. Qed.
Lemma maintains_transcribe_audio e p : maintains I (transcribe_audio e p).
Proof. unfold transcribe_audio. maintained. Qed.
Local Hint Resolve maintains_insert_one maintains_delete_one maintains_update_one
  maintains_find maintains_find_one maintains_get_next_note_id
  maintains_transcribe_audio : core.

Lemma maintains_search_similar_notes e query k :
  maintains I (search_similar_notes e query k).
Proof. unfold search_similar_notes. maintained. Qed.
Lemma maintains_full_text_search e query : maintains I (full_text_search e query).
Proof. unfold full_text_search, ensure_text_index. maintained. Qed.
Lemma maintains_collect_relevant_notes e ids ft :
  maintains I (collect_relevant_notes e ids ft).
Proof. unfold collect_relevant_notes. maintained. Qed.
Lemma maintains_add_note e title content tags workspace audio_path :
  maintains I (add_note e title content tags workspace audio_path).
Proof. unfold add_note. maintained. Qed.
Lemma maintains_delete_note e id : maintains I (delete_note e id).
Proof. unfold delete_note. maintained. Qed.
Lemma maintains_edit_note e id updates : maintains I (edit_note e id updates).
Proof. unfold edit_note. maintained. Qed.
Lemma maintains_ensure_gemini e : maintains I (_ensure_gemini e).
Proof. unfold _ensure_gemini. maintained. Qed.
Local Hint Resolve maintains_search_similar_notes maintains_full_text_search
  maintains_collect_relevant_notes maintains_add_note maintains_delete_note
  maintains_edit_note maintains_ensure_gemini : core.

Lemma maintains_generate_response e prompt web :
  maintains I (generate_response e prompt web).
Proof. unfold generate_response. maintained. Qed.
Lemma maintains_subscript {A} key (v : option A) : maintains I (subscript key v).
Proof. unfold subscript. maintained. Qed.
Lemma maintains_write_file e path data : maintains I (write_file e path data).
Proof. unfold write_file, emit. maintained. Qed.
Local Hint Resolve maintains_generate_response maintains_subscript
  maintains_write_file : core.

Lemma maintains_ask_question e question k : maintains I (ask_question e question k).
Proof. unfold ask_question. maintained. Qed.
Lemma maintains_ask_question_web e question k :
  maintains I (ask_question_web e question k).
Proof. unfold ask_question_web. maintained. Qed.

Lemma maintains_add_to_calendar e n : maintains I (add_to_calendar e n).
Proof. unfold add_to_calendar. maintained. Qed.
Lemma maintains_share_to_whatsapp e n : maintains I (share_to_whatsapp e n).
Proof. unfold share_to_whatsapp. maintained. Qed.
Lemma maintains_rephrase_note e n : maintains I (rephrase_note e n).
Proof. unfold rephrase_note. maintained. Qed.
Lemma maintains_suggest_tags e n : maintains I (suggest_tags e n).
Proof. unfold suggest_tags. maintained. Qed.
Local Hint Resolve maintains_add_to_calendar maintains_share_to_whatsapp
  maintains_rephrase_note maintains_suggest_tags : core.

Lemma maintains_perform_action e action n : maintains I (perform_action e action n).
Proof.
  unfold perform_action, action_functions, emit.
  repeat case_decide; maintained.
Qed.
Local Hint Resolve maintains_perform_action : core.

Lemma maintains_run_agent e n agent : maintains I (run_agent e n agent).
Proof. unfold run_agent. maintained. Qed.

Lemma maintains_run_agents e n : maintains I (run_agents e n).
Proof.
  unfold run_agents. destruct (agents_json e) as [agents|]; [|maintained].
  induction agents as [|agent agents IH]; simpl; [maintained|].
  apply maintains_bind; [apply maintains_run_agent|]. by intros _.
Qed.
End maintains.

Lemma maintains_for_each {A} (I : world → Prop) (l : list A) (body : A → M unit) :
  (∀ x, maintains I (body x)) → maintains I (for_each l body).
Proof.
  intros Hbody. induction l as [|x l IH]; simpl.
  - apply maintains_ret.
  - apply maintains_bind; [apply Hbody|]. intros _. exact IH.
Qed.

(** The functions that write the index maintain what does not depend on the
    loaded index and its dirty flag. *)
Lemma maintains_index_functions (I : world → Prop) :
  (∀ ev w, is_dispatch ev = false → I w → I (log ev w)) →
  (∀ i w, I w → I (set_index i w)) →
  (∀ b w, I w → I (set_index_modified b w)) →
  maintains I load_index ∧
  (∀ e id text, maintains I (add_note_to_index e id text)) ∧
  (∀ id, maintains I (remove_note_from_index id)).
Proof.
  intros Hlog Hindex Hmodified.
  assert (Hloaded : ∀ w, I w → I (loaded w)).
  { intros w Hw. unfold loaded. destruct (_index w); [done|]. by apply Hmodified, Hindex. }
  split; [|split].
  - intros w Hw. rewrite load_index_run. by apply Hloaded.
  - intros e id text w Hw. rewrite add_note_to_index_run.
    destruct (encode e text); simpl.
    + apply Hmodified, Hindex, Hlog; [done|]. apply Hlog; [done|]. by apply Hloaded.
    + apply Hlog; [done|]. by apply Hloaded.
  - intros id w Hw. rewrite remove_note_from_index_run. simpl.
    apply Hmodified, Hindex, Hlog; [done|]. by apply Hloaded.
Qed.

(** ** Identifiers *)

Lemma edit_note_counter (e : env) (id : Z) (updates : document) (w : world) :
  counter_seq (edit_note e id updates w).2 = counter_seq w.
Proof.
  destruct (maintains_index_functions (λ w', counter_seq w' = counter_seq w))
    as (_ & Hadd & Hremove); [done..|].
  by apply (maintains_edit_note (λ w', counter_seq w' = counter_seq w)).
Qed.

Lemma delete_note_counter (e : env) (id : Z) (w : world) :
  counter_seq (delete_note e id w).2 = counter_seq w.
Proof.
  destruct (maintains_index_functions (λ w', counter_seq w' = counter_seq w))
    as (_ & Hadd & Hremove); [done..|].
  by apply (maintains_delete_note (λ w', counter_seq w' = counter_seq w)).
Qed.

(** What a call of [add_note] does to the database and the counter. *)
Lemma add_note_inserts (e : env) (w w' : world) (title content : string)
    (tags : option (list string)) (workspace audio_path : option string)
    (r : outcome Z) :
  add_note e title content tags workspace audio_path w = (r, w') →
  (counter_seq w' = counter_seq w ∧ notes w' = notes w ∧ ∀ id, r ≠ Ok id) ∨
  (counter_seq w' = Some (next_id w) ∧ notes w' = notes w ∧ ∀ id, r ≠ Ok id) ∨
  (counter_seq w' = Some (next_id w) ∧ notes w !! next_id w = None ∧
   notes w' = <[next_id w :=
                new_note e title (stored_content e content audio_path) tags workspace]>
                (notes w) ∧
   ∀ id, r = Ok id → id = next_id w).
Proof.
  assert (Htext : ∀ w0 text,
            add_note e title text tags workspace None w0 = (r, w') →
            notes w0 = notes w → counter_seq w0 = counter_seq w →
            (counter_seq w' = counter_seq w ∧ notes w' = notes w ∧ ∀ id, r ≠ Ok id) ∨
            (counter_seq w' = Some (next_id w) ∧ notes w' = notes w ∧ ∀ id, r ≠ Ok id) ∨
            (counter_seq w' = Some (next_id w) ∧ notes w !! next_id w = None ∧
             notes w' = <[next_id w := new_note e title text tags workspace]> (notes w) ∧
             ∀ id, r = Ok id → id = next_id w)).
  { intros w0 text Hrun Hnotes Hcounter. revert Hrun.
    rewrite add_note_run, get_next_note_id_run.
    assert (Hnext : next_id w0 = next_id w) by (unfold next_id; by rewrite Hcounter).
    destruct (db_fails e CounterInc).
    { intros [= <- <-]. fields. left. by rewrite Hnotes, Hcounter. }
    rewrite insert_one_run. destruct (db_fails e (InsertOne _)).
    { intros [= <- <-]. fields. right; left. by rewrite ?Hnotes, ?Hnext. }
    fields. rewrite Hnext, Hnotes. destruct (notes w !! next_id w) eqn:Hfree.
    { intros [= <- <-]. fields. right; left. by rewrite ?Hnotes, ?Hnext. }
    rewrite add_note_to_index_run. destruct (encode e text);
      intros [= <- <-]; fields; rewrite ?Hnotes, ?Hnext; right; right;
      repeat split; try done. by intros id [= <-]. }
  destruct audio_path as [p|]; [|intros Hrun; by eapply Htext].
  unfold stored_content. destruct (decide (p = EmptyString)) as [->|Hp].
  { intros Hrun. by apply (Htext w content). }
  rewrite (add_note_audio_run _ _ _ _ _ _ _ Hp).
  destruct (recognize_google e p) as [text|]; simpl.
  - intros Hrun. by apply (Htext _ text Hrun).
  - intros [= <- <-]. left. by fields.
Qed.

Lemma run_op_next_id (e : env) (o : op) (w : world) :
  next_id w ≤ next_id (run_op e o w).
Proof.
  unfold next_id at 2. destruct o as [title content tags workspace audio_path|id updates|id];
    simpl.
  - destruct (add_note e title content tags workspace audio_path w) as [r w'] eqn:Hrun.
    cbn [snd].
    apply add_note_inserts in Hrun as [(-> & _)|[(-> & _)|(-> & _)]];
      unfold next_id; simpl; lia.
  - rewrite edit_note_counter. done.
  - rewrite delete_note_counter. done.
Qed.

Lemma run_ops_next_id (ops : list (env * op)) (w : world) :
  next_id w ≤ next_id (run_ops ops w).
Proof.
  revert w. induction ops as [|[e o] ops IH]; intros w; [done|].
  simpl. etrans; [apply (run_op_next_id e o)|apply IH].
Qed.

(** X1.  The id of a note that [add_note] created is never handed out again:
    whatever creates, updates and deletes come in between, failed ones
    included, a later successful [add_note] returns a larger id. *)
Theorem ids_never_reused (e1 e2 : env) (w w1 w2 : world) (ops : list (env * op))
    (title1 content1 title2 content2 : string) (tags1 tags2 : option (list string))
    (workspace1 audio_path1 workspace2 audio_path2 : option string) (id1 id2 : Z) :
  add_note e1 title1 content1 tags1 workspace1 audio_path1 w = (Ok id1, w1) →
  add_note e2 title2 content2 tags2 workspace2 audio_path2 (run_ops ops w1) = (Ok id2, w2) →
  notes w !! id1 = None ∧ id1 < id2.
Proof.
  intros H1 H2.
  apply add_note_inserts in H1 as [(_ & _ & Hno)|[(_ & _ & Hno)|(Hc1 & Hfree & _ & Hid1)]];
    [by destruct (Hno id1)..|].
  apply add_note_inserts in H2 as [(_ & _ & Hno)|[(_ & _ & Hno)|(_ & _ & _ & Hid2)]];
    [by destruct (Hno id2)..|].
  rewrite (Hid1 _ eq_refl), (Hid2 _ eq_refl). split; [done|].
  pose proof (run_ops_next_id ops w1) as Hmono.
  unfold next_id at 1 in Hmono. rewrite Hc1 in Hmono. simpl in Hmono. lia.
Qed.

Lemma ids_never_reused_witness :
  ∃ w1 w2,
    add_note (working_env code_points) "A" "a" None None None empty_world = (Ok 1, w1) ∧
    add_note (working_env code_points) "B" "b" None None None
      (run_ops [(working_env code_points, Delete 1)] w1) = (Ok 2, w2) ∧
    1 < 2.
Proof.
  eexists _, _. split; [vm_compute; reflexivity|]. split; [vm_compute; reflexivity|].
  eapply proj2. eapply (ids_never_reused (working_env code_points)
                          (working_env code_points) empty_world _ _
                          [(working_env code_points, Delete 1)]
                          "A" "a" "B" "b" None None None None None None 1 2);
    vm_compute; reflexivity.
Defined.

(** ** Deleting, updating and listing *)

(** X2.  [delete_note] does one of three things.  The database call raises:
    nothing changed.  No note has the id: it returns 0 and neither the
    database nor the index (not even loaded) changed.  A note has the id: it
    returns 1, the note is gone, every index entry of the id is gone and the
    entries of the other ids are as before. *)
Theorem delete_note_cases (e : env) (w w' : world) (id : Z) (r : outcome Z) :
  delete_note e id w = (r, w') →
  (db_fails e (DeleteOne id) = true ∧ r = Raise (ServiceError "mongo") ∧
   notes w' = notes w ∧ index_state w' = index_state w)
  ∨
  (db_fails e (DeleteOne id) = false ∧ notes w !! id = None ∧ r = Ok 0 ∧
   notes w' = notes w ∧ index_state w' = index_state w ∧
   trace w' = trace w ++ [EvDb (DeleteOne id)])
  ∨
  (db_fails e (DeleteOne id) = false ∧ is_Some (notes w !! id) ∧ r = Ok 1 ∧
   notes w' = delete id (notes w) ∧ notes w' !! id = None ∧
   entries_for id w' = [] ∧
   (∀ id', id' ≠ id → entries_for id' w' = entries_for id' w) ∧
   trace w' = trace w ++ [EvDb (DeleteOne id); EvIndexRemove id]).
Proof.
  rewrite delete_note_run, delete_one_run.
  destruct (db_fails e (DeleteOne id)).
  { intros [= <- <-]. left. by fields. }
  destruct (notes w !! id) as [d|] eqn:Hd.
  - rewrite decide_False by done. rewrite remove_note_from_index_run.
    intros [= <- <-]. right; right. unfold entries_for. fields.
    split; [done|]. split; [eauto|]. split; [done|]. split; [done|].
    split; [apply lookup_delete_eq|]. split; [apply remove_ids_entries|].
    split; [|done]. intros id' Hne. by apply remove_ids_other.
  - rewrite decide_True by done. intros [= <- <-]. right; left. by fields.
Qed.

Lemma delete_note_cases_witness :
  (delete_note (working_env code_points) 7 empty_world).1 = Ok 0.
Proof.
  destruct (delete_note_cases (working_env code_points) empty_world _ 7 _
              (surjective_pairing _)) as [(Hdb & _)|[(_ & _ & Hr & _)|(_ & [d Hd] & _)]].
  - vm_compute in Hdb. discriminate Hdb.
  - exact Hr.
  - vm_compute in Hd. discriminate Hd.
Defined.

(** X3.  An update that does not carry [content] is one database call and
    nothing else: the index is neither loaded nor changed, nothing is
    encoded.  It returns 1 exactly when a note has the id and the update
    changes it, and then the note keeps its content. *)
Theorem edit_note_without_content (e : env) (w w' : world) (id : Z) (updates : document)
    (r : outcome Z) :
  content updates = None →
  edit_note e id updates w = (r, w') →
  index_state w' = index_state w ∧
  trace w' = trace w ++ [EvDb (UpdateOne id)] ∧
  ((db_fails e (UpdateOne id) = true ∧ r = Raise (ServiceError "mongo") ∧
    notes w' = notes w)
   ∨
   (db_fails e (UpdateOne id) = false ∧ r = Ok 0 ∧ notes w' = notes w ∧
    (notes w !! id = None ∨ ∃ d, notes w !! id = Some d ∧ apply_set updates d = d))
   ∨
   (db_fails e (UpdateOne id) = false ∧ r = Ok 1 ∧
    ∃ d, notes w !! id = Some d ∧ apply_set updates d ≠ d ∧
         notes w' = <[id := apply_set updates d]> (notes w) ∧
         content (apply_set updates d) = content d)).
Proof.
  intros Hc. rewrite edit_note_run, Hc, update_one_run.
  destruct (db_fails e (UpdateOne id)).
  { intros [= <- <-]. fields. repeat split; try done. by left. }
  destruct (notes w !! id) as [d|] eqn:Hd.
  - case_decide as Hsame; intros [= <- <-]; fields; repeat split; try done.
    + right; left. eauto 10.
    + right; right. repeat split; try done. exists d. repeat split; try done.
      unfold apply_set; simpl. by rewrite Hc.
  - intros [= <- <-]. fields. repeat split; try done. right; left. eauto 10.
Qed.

Lemma edit_note_without_content_witness :
  index_state
    (edit_note (working_env code_points) 1
       (Document (Some "Updated") None (Some ["tag2"]) None None None)
       (run_ops [(working_env code_points, Create "Test" "Content" (Some ["tag1"])
                    (Some "work") None)] empty_world)).2
  = index_state
      (run_ops [(working_env code_points, Create "Test" "Content" (Some ["tag1"])
                   (Some "work") None)] empty_world).
Proof.
  exact (proj1 (edit_note_without_content (working_env code_points) _ _ 1
                  (Document (Some "Updated") None (Some ["tag2"]) None None None) _
                  eq_refl (surjective_pairing _))).
Defined.

Lemma filter_all {A} (P : A → Prop) `{∀ x, Decision (P x)} (l : list A) :
  (∀ x, P x) → filter P l = l.
Proof.
  intros HP. induction l as [|x l IH]; [done|].
  rewrite filter_cons_True by done. by rewrite IH.
Qed.

(** X4.  After a successful [add_note] the id it returns was not stored
    before, and listing all notes gives the notes that were stored before and
    the new one, once, with the title, tags (or [[]]), workspace (or
    ["default"]) and content (the transcript, if audio was given) of the
    call. *)
Theorem add_note_then_list (e e' : env) (w w' : world) (title content : string)
    (tags : option (list string)) (workspace audio_path : option string) (id : Z) :
  add_note e title content tags workspace audio_path w = (Ok id, w') →
  db_fails e' FindAll = false →
  notes w !! id = None ∧
  ∃ l w'',
    list_notes e' (λ _, True) w' = (Ok l, w'') ∧
    l ≡ₚ (id, new_note e title (stored_content e content audio_path) tags workspace)
         :: stored w.
Proof.
  intros Hadd Hfind.
  apply add_note_inserts in Hadd as [(_ & _ & Hno)|[(_ & _ & Hno)|(_ & Hfree & Hnotes & Hid)]];
    [by destruct (Hno id)..|].
  rewrite (Hid _ eq_refl). split; [done|].
  unfold list_notes. rewrite find_run, Hfind. eexists _, _. split; [done|].
  rewrite filter_all by done. unfold stored.
  rewrite Hnotes. by apply map_to_list_insert.
Qed.

Lemma add_note_then_list_witness :
  ∃ l w'',
    list_notes (working_env code_points) (λ _, True)
      (add_note (working_env code_points) "Test" "Content" (Some ["tag1"]) (Some "work")
         None empty_world).2 = (Ok l, w'') ∧
    l ≡ₚ [(1, new_note (working_env code_points) "Test" "Content" (Some ["tag1"])
                (Some "work"))].
Proof.
  destruct (add_note_then_list (working_env code_points) (working_env code_points)
              empty_world _ "Test" "Content" (Some ["tag1"]) (Some "work") None 1
              ltac:(vm_compute; reflexivity) eq_refl) as (_ & l & w'' & Hrun & Hl).
  exists l, w''. split; [exact Hrun|]. exact Hl.
Defined.

(** X5.  Removing from the index an id that has no entry leaves the entries
    as they are, and still marks the index as modified. *)
Theorem remove_note_from_index_absent (w : world) (id : Z) :
  id ∉ index_ids w →
  ∃ w', remove_note_from_index id w = (Ok tt, w') ∧
        index_entries w' = index_entries w ∧
        _index_modified w' = true ∧
        notes w' = notes w.
Proof.
  intros Hout. rewrite remove_note_from_index_run. eexists. split; [done|].
  fields. split; [|done]. unfold remove_ids, index_ids in *. revert Hout.
  induction (index_entries w) as [|[i v] idx IH]; [done|].
  rewrite fmap_cons. intros [Hne Hout]%not_elem_of_cons.
  rewrite filter_cons_True by (simpl in *; congruence). f_equal. by apply IH.
Qed.

Lemma remove_note_from_index_absent_witness :
  ∃ w', remove_note_from_index 3 empty_world = (Ok tt, w') ∧ _index_modified w' = true.
Proof.
  destruct (remove_note_from_index_absent empty_world 3) as (w' & Hrun & _ & Hflag & _).
  - vm_compute. apply not_elem_of_nil.
  - exists w'. split; [exact Hrun | exact Hflag].
Defined.

(** ** The index and its file *)

Lemma run_command_index_file (e : env) (c : command) (w : world) :
  c ≠ SaveIndex → index_file (run_command e c w) = index_file w.
Proof.
  intros Hc. set (I := λ w', index_file w' = index_file w).
  destruct (maintains_index_functions I) as (Hload & Hadd & Hremove); [done..|].
  destruct c as [[title content tags workspace audio_path|id updates|id]|question k|n|];
    simpl; [..|done].
  - by apply (maintains_add_note I).
  - by apply (maintains_edit_note I).
  - by apply (maintains_delete_note I).
  - by apply (maintains_ask_question I).
  - by apply (maintains_run_agents I).
Qed.

(** X6.  Only [save_index] writes the index file.  Creating, updating and
    deleting notes, asking questions and evaluating agents leave the file as it
    was, so a new process sees the index of the file: what these operations
    did to the index is not there. *)
Theorem index_file_untouched (cmds : list (env * command)) (w : world) :
  Forall (λ ec, ec.2 ≠ SaveIndex) cmds →
  index_file (run_commands cmds w) = index_file w ∧
  index_entries (restart (run_commands cmds w)) = default [] (index_file w).
Proof.
  intros Hcmds.
  assert (Hfile : index_file (run_commands cmds w) = index_file w).
  { revert w. induction Hcmds as [|[e c] cmds Hc _ IH]; intros w; [done|].
    simpl. rewrite IH. by apply run_command_index_file. }
  split; [done|]. unfold index_entries, restart; simpl. by rewrite Hfile.
Qed.

Lemma index_file_untouched_witness :
  index_entries
    (restart (run_commands
                [(working_env code_points,
                  Repository (Create "T" "C" None None None))] empty_world))
  = [].
Proof.
  refine (proj2 (index_file_untouched
                   [(working_env code_points, Repository (Create "T" "C" None None None))]
                   empty_world _)).
  repeat constructor. discriminate.
Defined.

Lemma load_index_sound : maintains flag_sound load_index.
Proof.
  intros w Hw. rewrite load_index_run. unfold loaded, flag_sound in *; simpl.
  destruct (_index w) as [idx|] eqn:Hidx; [by rewrite Hidx|]. simpl.
  intros idx [= <-] _. unfold index_entries. by rewrite Hidx.
Qed.

Lemma add_note_to_index_sound (e : env) (id : Z) (text : string) :
  maintains flag_sound (add_note_to_index e id text).
Proof.
  intros w Hw. pose proof (load_index_sound w Hw) as Hl. rewrite load_index_run in Hl.
  rewrite add_note_to_index_run. destruct (encode e text); simpl; [|done].
  by intros idx _ Hclean.
Qed.

Lemma remove_note_from_index_sound (id : Z) :
  maintains flag_sound (remove_note_from_index id).
Proof. intros w Hw. rewrite remove_note_from_index_run. by intros idx _ Hclean. Qed.

Lemma save_index_sound : maintains flag_sound save_index.
Proof.
  intros w Hw. unfold save_index. run.
  destruct (_index w) as [idx|] eqn:Hidx; [|by unfold flag_sound; simpl; rewrite Hidx].
  destruct (_index_modified w) eqn:Hm; simpl; [|done].
  unfold flag_sound; simpl. rewrite Hidx. by intros idx' [= <-] _.
Qed.

Lemma run_command_sound (e : env) (c : command) (w : world) :
  flag_sound w → flag_sound (run_command e c w).
Proof.
  pose proof load_index_sound. pose proof add_note_to_index_sound.
  pose proof remove_note_from_index_sound.
  destruct c as [[title content tags workspace audio_path|id updates|id]|question k|n|];
    simpl.
  - by apply (maintains_add_note flag_sound).
  - by apply (maintains_edit_note flag_sound).
  - by apply (maintains_delete_note flag_sound).
  - by apply (maintains_ask_question flag_sound).
  - by apply (maintains_run_agents flag_sound).
  - apply save_index_sound.
Qed.

(** X7.  The dirty flag is kept right: in a process that started without a
    loaded index (or with one that matches its flag), after whatever it did,
    [save_index] followed by a restart gives back the index the process had,
    entry for entry. *)
Theorem save_index_round_trip (cmds : list (env * command)) (w : world) :
  flag_sound w →
  flag_sound (run_commands cmds w) ∧
  index_entries (restart (save_index (run_commands cmds w)).2)
  = index_entries (run_commands cmds w).
Proof.
  intros Hw.
  assert (Hsound : flag_sound (run_commands cmds w)).
  { revert w Hw. induction cmds as [|[e c] cmds IH]; intros w Hw; [done|].
    simpl. by apply IH, run_command_sound. }
  split; [done|]. revert Hsound. generalize (run_commands cmds w). clear.
  intros w Hw. unfold save_index. run. unfold index_entries, restart, flag_sound in *.
  destruct (_index w) as [idx|] eqn:Hidx; simpl; [|done].
  destruct (_index_modified w) eqn:Hm; simpl; [done|].
  symmetry. by apply Hw.
Qed.

Lemma save_index_round_trip_witness :
  index_entries
    (restart (save_index
                (run_commands
                   [(working_env code_points,
                     Repository (Create "T" "C" None None None))] empty_world)).2)
  = [(1, code_points "C")].
Proof.
  rewrite (proj2 (save_index_round_trip
                    [(working_env code_points, Repository (Create "T" "C" None None None))]
                    empty_world ltac:(by intros idx Hidx))).
  vm_compute. reflexivity.
Defined.

(** X8.  Agent evaluation never touches the vector index, its dirty flag,
    the index file or the id counter, whatever the rules are and whatever the
    handlers do to the notes. *)
Theorem run_agents_index_untouched (e : env) (n : note) (w : world) :
  index_state (run_agents e n w).2 = index_state w ∧
  counter_seq (run_agents e n w).2 = counter_seq w.
Proof.
  split.
  - by apply (maintains_run_agents (λ w', index_state w' = index_state w)).
  - by apply (maintains_run_agents (λ w', counter_seq w' = counter_seq w)).
Qed.

(** ** Agent evaluation, rule by rule *)

Lemma dispatched_log_quiet (ev : event) (w : world) :
  is_dispatch ev = false → dispatched (log ev w) = dispatched w.
Proof.
  intros Hev. unfold dispatched. simpl. rewrite filter_app, filter_cons_False.
  - by rewrite filter_nil, app_nil_r.
  - rewrite Hev. intros [].
Qed.

Lemma dispatched_log_dispatch (ev : event) (w : world) :
  is_dispatch ev = true → dispatched (log ev w) = dispatched w ++ [ev].
Proof.
  intros Hev. unfold dispatched. simpl. rewrite filter_app, filter_cons_True.
  - by rewrite filter_nil.
  - rewrite Hev. exact I.
Qed.

(** Inside a handler nothing is dispatched. *)
Lemma handler_dispatched (e : env) (n : note) (w : world) (func : env → note → M unit)
    (action : string) :
  action_functions action = Some func →
  dispatched (func e n w).2 = dispatched w.
Proof.
  set (I := λ w', dispatched w' = dispatched w).
  assert (Hlog : ∀ ev w', is_dispatch ev = false → I w' → I (log ev w')).
  { intros ev w' Hev Hw'. unfold I. by rewrite dispatched_log_quiet. }
  unfold action_functions. repeat case_decide; intros [= <-].
  - by apply (maintains_add_to_calendar I).
  - by apply (maintains_share_to_whatsapp I).
  - by apply (maintains_rephrase_note I).
  - by apply (maintains_suggest_tags I).
Qed.

Lemma handler_returns (e : env) (n : note) (func : env → note → M unit) (action : string) :
  has_title_and_content n → action_functions action = Some func → returns (func e n).
Proof.
  intros Hn. unfold action_functions. repeat case_decide; intros [= <-];
    auto using add_to_calendar_returns, share_to_whatsapp_returns,
               rephrase_note_returns, suggest_tags_returns.
Qed.

Lemma run_agent_dispatched (e : env) (n : note) (agent : string * agent_config) (w : world) :
  has_title_and_content n →
  ∃ w', run_agent e n agent w = (Ok tt, w') ∧
        dispatched w' = dispatched w ++ fired n agent.
Proof.
  intros Hn. unfold run_agent, fired. cbv zeta.
  destruct (truthy _ && truthy _); [|exists w; by rewrite app_nil_r].
  destruct (check_trigger _ n); [|exists w; by rewrite app_nil_r].
  unfold perform_action.
  destruct (action_functions _) as [func|] eqn:Hfunc.
  - unfold bind, emit, modify. set (a := default EmptyString (action agent.2)) in *.
    destruct (handler_returns e n func a Hn Hfunc (log (EvAction a (_id n)) w))
      as ([] & w' & Hrun).
    exists w'. split; [done|].
    pose proof (handler_dispatched e n (log (EvAction a (_id n)) w) func a Hfunc) as Hd.
    rewrite Hrun in Hd. simpl in Hd. rewrite Hd. by apply dispatched_log_dispatch.
  - eexists. split; [done|]. by apply dispatched_log_dispatch.
Qed.

Lemma run_agents_dispatched (e : env) (n : note) (w : world) :
  has_title_and_content n →
  ∃ w', run_agents e n w = (Ok tt, w') ∧
        dispatched w' = dispatched w ++ concat (fired n <$> default [] (agents_json e)).
Proof.
  intros Hn. unfold run_agents. destruct (agents_json e) as [agents|]; simpl.
  2:{ exists w. by rewrite app_nil_r. }
  revert w. induction agents as [|agent agents IH]; intros w; simpl.
  { exists w. by rewrite app_nil_r. }
  unfold bind. destruct (run_agent_dispatched e n agent w Hn) as (w1 & -> & Hd1).
  destruct (IH w1) as (w' & Hrun & Hd). exists w'. split; [done|].
  by rewrite Hd, Hd1, app_assoc.
Qed.

Lemma check_trigger_satisfies (n : note) (X : string) :
  check_trigger ("tag:" +:+ X) n = true ↔ satisfies_tag X n.
Proof.
  unfold satisfies_tag. case_decide as HX.
  - subst X. apply check_trigger_marker.
  - by apply check_trigger_tag.
Qed.

Lemma fired_tag_rule (n : note) (name X a : string) :
  a ≠ EmptyString →
  fired n (name, AgentConfig (Some ("tag:" +:+ X)) (Some a)) =
    if check_trigger ("tag:" +:+ X) n then [dispatch_of a n] else [].
Proof.
  intros Ha. unfold fired, dispatch_of, truthy. cbn [trigger action snd default].
  rewrite (bool_decide_eq_true_2 (a ≠ EmptyString)) by done.
  rewrite bool_decide_eq_true_2 by done. unfold id. cbn [andb].
  destruct (check_trigger _ n); [|done]. by destruct (action_functions a).
Qed.

(** C9.  A trigger ["tag:X"] is satisfied exactly when [X] is among the tags
    of the note, except for the marker: ["tag:[]"] is satisfied exactly when
    the note has no tags, also for a note that carries a tag named [[]].
    Agent evaluation of a note (with the title and content that every stored
    note has) goes through the rules in the order of the file and dispatches
    the action of every rule whose trigger is satisfied, and of no other; so
    for a note without tags it fires every rule on the marker and no rule on
    ["tag:work"]. *)
Theorem check_trigger_by_tags (e : env) (n : note) (w : world) :
  has_title_and_content n →
  (∀ X, check_trigger ("tag:" +:+ X) n = true ↔ satisfies_tag X n) ∧
  (∃ w', run_agents e n w = (Ok tt, w') ∧
         dispatched w' =
           dispatched w ++ concat (fired n <$> default [] (agents_json e))) ∧
  (∀ name X a, a ≠ EmptyString →
     (satisfies_tag X n →
        fired n (name, AgentConfig (Some ("tag:" +:+ X)) (Some a)) = [dispatch_of a n]) ∧
     (¬ satisfies_tag X n →
        fired n (name, AgentConfig (Some ("tag:" +:+ X)) (Some a)) = [])) ∧
  (note_tags n = [] →
     ∀ name a, a ≠ EmptyString →
       fired n (name, AgentConfig (Some "tag:[]") (Some a)) = [dispatch_of a n] ∧
       fired n (name, AgentConfig (Some "tag:work") (Some a)) = []).
Proof.
  intros Hn.
  assert (Hrule : ∀ name X a, a ≠ EmptyString →
     (satisfies_tag X n →
        fired n (name, AgentConfig (Some ("tag:" +:+ X)) (Some a)) = [dispatch_of a n]) ∧
     (¬ satisfies_tag X n →
        fired n (name, AgentConfig (Some ("tag:" +:+ X)) (Some a)) = [])).
  { intros name X a Ha. rewrite (fired_tag_rule n name X a Ha).
    pose proof (check_trigger_satisfies n X) as Hiff.
    destruct (check_trigger ("tag:" +:+ X) n).
    - split; [done|]. intros Hnot. destruct Hnot. by apply Hiff.
    - split; [|done]. intros Hsat. apply Hiff in Hsat. discriminate Hsat. }
  split; [apply check_trigger_satisfies|].
  split; [by apply run_agents_dispatched|].
  split; [exact Hrule|].
  intros Hnone name a Ha. split.
  - apply (Hrule name "[]" a Ha). unfold satisfies_tag. by rewrite decide_True.
  - apply (Hrule name "work" a Ha). unfold satisfies_tag.
    rewrite decide_False by done. rewrite Hnone. apply not_elem_of_nil.
Qed.

(** A note without tags, a rule on the marker between two rules on
    ["tag:work"]. *)
Lemma check_trigger_by_tags_witness :
  ∃ w', run_agents
          (set_agents_json
             (Some [("a", AgentConfig (Some "tag:work") (Some "calendar_event"));
                    ("b", AgentConfig (Some "tag:[]") (Some "share_to_whatsapp"));
                    ("c", AgentConfig (Some "tag:work") (Some "suggest_tags"))])
             (working_env code_points))
          (1, new_note (working_env code_points) "T" "C" None None)
          empty_world = (Ok tt, w') ∧
        dispatched w' = [EvAction "share_to_whatsapp" 1].
Proof.
  destruct (check_trigger_by_tags
              (set_agents_json
                 (Some [("a", AgentConfig (Some "tag:work") (Some "calendar_event"));
                        ("b", AgentConfig (Some "tag:[]") (Some "share_to_whatsapp"));
                        ("c", AgentConfig (Some "tag:work") (Some "suggest_tags"))])
                 (working_env code_points))
              (1, new_note (working_env code_points) "T" "C" None None)
              empty_world) as (_ & (w' & Hrun & Hd) & _).
  - split; eexists; reflexivity.
  - exists w'. split; [exact Hrun|]. rewrite Hd. vm_compute. reflexivity.
Defined.

(** A note that carries a tag named [[]]: the tag is among its tags, the
    trigger ["tag:[]"] is not satisfied, and the rule on it is not fired. *)
Lemma tag_named_like_marker :
  "[]" ∈ note_tags (1, new_note (working_env code_points) "T" "C" (Some ["[]"]) None) ∧
  check_trigger "tag:[]"
    (1, new_note (working_env code_points) "T" "C" (Some ["[]"]) None) = false ∧
  ∃ w', run_agents
          (set_agents_json
             (Some [("b", AgentConfig (Some "tag:[]") (Some "share_to_whatsapp"))])
             (working_env code_points))
          (1, new_note (working_env code_points) "T" "C" (Some ["[]"]) None)
          empty_world = (Ok tt, w') ∧
        dispatched w' = [].
Proof.
  split; [vm_compute; left|]. split; [reflexivity|].
  eexists. split; vm_compute; reflexivity.
Qed.

(** *** What the program stores has a title and a content *)

Lemma stored_keys_same (w w' : world) :
  notes w' = notes w → stored_keys w → stored_keys w'.
Proof. unfold stored_keys. by intros ->. Qed.

Lemma stored_keys_log (ev : event) (w : world) : stored_keys w → stored_keys (log ev w).
Proof. by apply stored_keys_same. Qed.

Lemma stored_keys_insert_one (e : env) (id : Z) (d : document) :
  has_title_and_content (id, d) → maintains stored_keys (insert_one e id d).
Proof.
  intros Hd w Hw. rewrite insert_one_run.
  destruct (db_fails e (InsertOne id)); [done|].
  destruct (notes w !! id); [done|]. simpl.
  intros id' d'. fields. intros [[-> ->]|[_ Hold]]%lookup_insert_Some; [done|].
  by apply Hw.
Qed.

Lemma stored_keys_update_one (e : env) (id : Z) (updates : document) :
  maintains stored_keys (update_one e id updates).
Proof.
  intros w Hw. rewrite update_one_run.
  destruct (db_fails e (UpdateOne id)); [done|].
  destruct (notes w !! id) as [d|] eqn:Hd; [|done].
  case_decide; [done|]. simpl.
  intros id' d'. fields. intros [[-> <-]|[_ Hold]]%lookup_insert_Some; [|by apply Hw].
  destruct (Hw _ _ Hd) as [[t Ht] [c Hc]]. simpl in Ht, Hc.
  split; unfold apply_set, fields, set_field; simpl; rewrite ?Ht, ?Hc;
    [destruct (title updates)|destruct (content updates)]; eauto.
Qed.

Lemma stored_keys_delete_one (e : env) (id : Z) :
  maintains stored_keys (delete_one e id).
Proof.
  intros w Hw. rewrite delete_one_run.
  destruct (db_fails e (DeleteOne id)); [done|].
  destruct (notes w !! id); [|done]. simpl.
  intros id' d'. fields. intros [_ Hold]%lookup_delete_Some. by apply Hw.
Qed.

Lemma stored_keys_index_functions :
  maintains stored_keys load_index ∧
  (∀ e id text, maintains stored_keys (add_note_to_index e id text)) ∧
  (∀ id, maintains stored_keys (remove_note_from_index id)).
Proof. apply maintains_index_functions; intros; by eapply stored_keys_same. Qed.

Lemma stored_keys_add_note (e : env) (title content : string)
    (tags : option (list string)) (workspace audio_path : option string) :
  maintains stored_keys (add_note e title content tags workspace audio_path).
Proof.
  destruct stored_keys_index_functions as (_ & Hadd & _).
  assert (Htext : ∀ text, maintains stored_keys
                            (add_note e title text tags workspace None)).
  { intros text w Hw. rewrite add_note_run.
    pose proof (maintains_get_next_note_id stored_keys
                  ltac:(intros; by apply stored_keys_log)
                  ltac:(intros; by eapply stored_keys_same) e w Hw) as H1.
    destruct (get_next_note_id e w) as [[id|x] w1]; [|done]. simpl in H1.
    pose proof (stored_keys_insert_one e id (new_note e title text tags workspace)
                  ltac:(split; eexists; reflexivity) w1 H1) as H2.
    destruct (insert_one e id _ w1) as [[[]|x] w2]; [|done]. simpl in H2.
    pose proof (Hadd e id text w2 H2) as H3.
    by destruct (add_note_to_index e id text w2) as [[[]|x] w3]. }
  destruct audio_path as [p|]; [|apply Htext].
  destruct (decide (p = EmptyString)) as [->|Hp]; [apply (Htext content)|].
  intros w Hw. rewrite (add_note_audio_run _ _ _ _ _ _ _ Hp).
  destruct (recognize_google e p) as [text|]; [|by apply stored_keys_log].
  apply Htext. by apply stored_keys_log.
Qed.

Lemma stored_keys_edit_note (e : env) (id : Z) (updates : document) :
  maintains stored_keys (edit_note e id updates).
Proof.
  destruct stored_keys_index_functions as (_ & Hadd & Hremove).
  intros w Hw. rewrite edit_note_run. destruct (content updates) as [c|].
  - pose proof (Hremove id w Hw) as H1.
    pose proof (stored_keys_update_one e id updates _ H1) as H2.
    destruct (update_one e id updates _) as [[n|x] w2]; [|done]. simpl in H2.
    case_decide; [done|]. pose proof (Hadd e id c w2 H2) as H3.
    by destruct (add_note_to_index e id c w2) as [[[]|x] w3].
  - by apply stored_keys_update_one.
Qed.

Lemma stored_keys_delete_note (e : env) (id : Z) :
  maintains stored_keys (delete_note e id).
Proof.
  destruct stored_keys_index_functions as (_ & _ & Hremove).
  intros w Hw. rewrite delete_note_run.
  pose proof (stored_keys_delete_one e id w Hw) as H1.
  destruct (delete_one e id w) as [[n|x] w1]; [|done]. simpl in H1.
  case_decide; [done|]. by apply Hremove.
Qed.

Lemma stored_keys_generate_response (e : env) (prompt : string) (web : bool) :
  maintains stored_keys (generate_response e prompt web).
Proof.
  apply maintains_generate_response; intros; by eapply stored_keys_same.
Qed.

Lemma stored_keys_handler (e : env) (n : note) (func : env → note → M unit)
    (action : string) :
  action_functions action = Some func → maintains stored_keys (func e n).
Proof.
  unfold action_functions. repeat case_decide; intros [= <-].
  - apply maintains_add_to_calendar. intros. by apply stored_keys_log.
  - apply maintains_share_to_whatsapp. intros. by apply stored_keys_log.
  - unfold rephrase_note. apply maintains_try_except; [|intros; apply maintains_ret].
    apply maintains_bind; [apply maintains_subscript|]. intros c.
    apply maintains_bind; [apply stored_keys_generate_response|]. intros r.
    apply maintains_bind; [apply stored_keys_update_one|]. intros _.
    apply maintains_ret.
  - unfold suggest_tags. apply maintains_try_except; [|intros; apply maintains_ret].
    apply maintains_bind; [apply maintains_subscript|]. intros c.
    apply maintains_bind; [apply stored_keys_generate_response|]. intros r.
    apply maintains_bind; [apply stored_keys_update_one|]. intros _.
    apply maintains_ret.
Qed.

Lemma stored_keys_run_agents (e : env) (n : note) :
  maintains stored_keys (run_agents e n).
Proof.
  unfold run_agents. destruct (agents_json e) as [agents|]; [|apply maintains_ret].
  apply maintains_for_each. intros agent. unfold run_agent. cbv zeta.
  destruct (truthy _ && truthy _); [|apply maintains_ret].
  destruct (check_trigger _ n); [|apply maintains_ret].
  unfold perform_action. destruct (action_functions _) as [func|] eqn:Hfunc.
  - apply maintains_bind; [|intros _; by eapply stored_keys_handler].
    intros w Hw. by apply stored_keys_log.
  - intros w Hw. by apply stored_keys_log.
Qed.

Lemma stored_keys_run_command (e : env) (c : command) (w : world) :
  stored_keys w → stored_keys (run_command e c w).
Proof.
  intros Hw. destruct c as [[title content tags workspace audio_path|id updates|id]
                           |question k|n|]; simpl.
  - by apply stored_keys_add_note.
  - by apply stored_keys_edit_note.
  - by apply stored_keys_delete_note.
  - destruct stored_keys_index_functions as (Hload & _).
    apply maintains_ask_question; try done; intros; by eapply stored_keys_same.
  - by apply stored_keys_run_agents.
  - unfold save_index, bind, get, modify, ret.
    destruct (_index w); [|done]. destruct (_index_modified w); [|done].
    by eapply stored_keys_same.
Qed.

(** Whatever the process was asked to do since the database was empty. *)
Lemma stored_keys_run_commands (cmds : list (env * command)) :
  stored_keys (run_commands cmds empty_world).
Proof.
  assert (H : ∀ w, stored_keys w → stored_keys (run_commands cmds w)).
  { induction cmds as [|[e c] cmds IH]; intros w Hw; [done|].
    simpl. apply IH. by apply stored_keys_run_command. }
  apply H. intros id d Hd. simpl in Hd. by rewrite lookup_empty in Hd.
Qed.

(** The [edit] command, from the point where the note is written: the agents
    cannot make it fail, it prints its result. *)
Lemma cli_edit_completes (e : env) (w w1 : world) (note_id : Z)
    (title content tags : string) (n : Z) :
  stored_keys w →
  edit_note e note_id
    (Document (if decide (title = EmptyString) then None else Some title)
              (if decide (content = EmptyString) then None else Some content)
              (if decide (tags = EmptyString) then None
               else Some (strip <$> split_on ","%char tags))
              None None None) w = (Ok n, w1) →
  (n ≠ 0 → db_fails e (FindOne note_id) = false) →
  ∃ w', cli_edit e note_id title content tags false w = (Ok tt, w') ∧
        last (trace w') = Some (EvConsole ("Modified " +:+ pretty n +:+ " note(s)")).
Proof.
  intros Hw Hedit Hfind.
  assert (Hw1 : stored_keys w1).
  { change w1 with (Ok n, w1).2. rewrite <- Hedit. by apply stored_keys_edit_note. }
  unfold cli_edit. unfold bind at 1.
  assert (Hstep : (if decide (content = EmptyString) then ret None
                   else if false
                        then match fernet_encrypt e content with
                             | Some c => ret (Some c)
                             | None => raise (EnvironmentError "NOTE_ENCRYPTION_KEY not set")
                             end
                        else ret (Some content)) w
                  = (Ok (if decide (content = EmptyString) then None else Some content), w)).
  { by destruct (decide (content = EmptyString)). }
  rewrite Hstep. cbv zeta. unfold bind at 1. rewrite Hedit.
  destruct (decide (n = 0)) as [->|Hn].
  - unfold bind, ret, emit, modify. eexists. split; [done|]. simpl. apply last_snoc.
  - unfold bind at 1. unfold bind at 1. unfold find_one. run.
    rewrite (Hfind Hn). simpl.
    destruct (notes w1 !! note_id) as [d|] eqn:Hd; simpl.
    + destruct (run_agents_returns e (note_id, d) (Hw1 _ _ Hd)
                  (log (EvDb (FindOne note_id)) w1)) as ([] & w2 & ->).
      eexists. split; [done|]. simpl. apply last_snoc.
    + eexists. split; [done|]. simpl. apply last_snoc.
Qed.

(** C4.  Whatever the process did since the database was empty, and whatever
    fails inside the handlers (the file system, the database, the generation
    provider): agent evaluation of a stored note returns, having dispatched
    every rule whose trigger the note satisfies, in the order of the file, so
    a handler that failed did not keep the rules after it from running; and
    the [add] and [edit] commands, once their note is written and read back,
    go through the agent evaluation and print their result. *)
Theorem run_agents_isolates_handlers (cmds : list (env * command)) (e : env) :
  let w := run_commands cmds empty_world in
  (∀ id d, notes w !! id = Some d →
     ∃ w', run_agents e (id, d) w = (Ok tt, w') ∧
           dispatched w' =
             dispatched w ++ concat (fired (id, d) <$> default [] (agents_json e))) ∧
  (∀ title content tags workspace audio_path id w1,
     add_note e (or_default title EmptyString) (or_default content EmptyString)
       (Some (tags_list_of tags)) (Some (or_default workspace "default"))
       (if decide (audio_path = EmptyString) then None else Some audio_path) w
     = (Ok id, w1) →
     db_fails e (FindOne id) = false →
     ∃ w', cli_add e title content tags workspace false audio_path w = (Ok tt, w') ∧
           last (trace w') = Some (EvConsole ("Note added with ID " +:+ pretty id))) ∧
  (∀ note_id title content tags n w1,
     edit_note e note_id
       (Document (if decide (title = EmptyString) then None else Some title)
                 (if decide (content = EmptyString) then None else Some content)
                 (if decide (tags = EmptyString) then None
                  else Some (strip <$> split_on ","%char tags))
                 None None None) w = (Ok n, w1) →
     (n ≠ 0 → db_fails e (FindOne note_id) = false) →
     ∃ w', cli_edit e note_id title content tags false w = (Ok tt, w') ∧
           last (trace w') = Some (EvConsole ("Modified " +:+ pretty n +:+ " note(s)"))).
Proof.
  intros w. pose proof (stored_keys_run_commands cmds) as Hw. fold w in Hw.
  split; [|split].
  - intros id d Hd. apply run_agents_dispatched. by apply (Hw id d).
  - intros title content tags workspace audio_path id w1 Hadd Hfind.
    by eapply cli_add_completes.
  - intros note_id title content tags n w1 Hedit Hfind.
    by eapply cli_edit_completes.
Qed.

(** A note tagged [reminder] was added; then the file system and the
    generation provider are down, and the database refuses the update of the
    tagging handler.  Both handlers fail inside; both rules are dispatched. *)
Lemma run_agents_isolates_handlers_witness :
  ∃ w', run_agents
          (Env (λ _, None) (λ s, Some (code_points s)) (λ _, None) (λ _ _, false)
               (λ c, match c with UpdateOne _ => true | _ => false end) true None 0 0 (λ _ _, "date")
               (Some reminder_rules) (λ s, Some s) (λ s, Some s))
          (1, new_note (working_env code_points) "T" "call the bank"
                (Some ["reminder"]) None)
          (run_commands
             [(working_env code_points,
               Repository (Create "T" "call the bank" (Some ["reminder"]) None None))]
             empty_world) = (Ok tt, w') ∧
        dispatched w' = [EvAction "calendar_event" 1; EvAction "suggest_tags" 1].
Proof.
  destruct (proj1 (run_agents_isolates_handlers
                     [(working_env code_points,
                       Repository (Create "T" "call the bank" (Some ["reminder"])
                                     None None))]
                     (Env (λ _, None) (λ s, Some (code_points s)) (λ _, None) (λ _ _, false)
                          (λ c, match c with UpdateOne _ => true | _ => false end) true None 0 0 (λ _ _, "date")
                          (Some reminder_rules) (λ s, Some s) (λ s, Some s)))
              1 (new_note (working_env code_points) "T" "call the bank"
                   (Some ["reminder"]) None))
    as (w' & Hrun & Hd).
  - vm_compute. reflexivity.
  - exists w'. split; [exact Hrun|]. rewrite Hd. vm_compute. reflexivity.
Defined.

(** X9.  For a note that has a title and a content, [run_agents] goes through
    the whole file: every rule with a trigger and an action whose trigger the
    note satisfies is dispatched once, in the order of the file (a handler
    entered, or an unknown action name reported), the other rules are passed
    over, and nothing else is dispatched. *)
Theorem run_agents_dispatches_in_order (e : env) (n : note) (w : world) :
  has_title_and_content n →
  ∃ w', run_agents e n w = (Ok tt, w') ∧
        dispatched w' = dispatched w ++ concat (fired n <$> default [] (agents_json e)).
Proof.
  intros Hn. unfold run_agents. destruct (agents_json e) as [agents|]; simpl.
  2:{ exists w. by rewrite app_nil_r. }
  revert w. induction agents as [|agent agents IH]; intros w; simpl.
  { exists w. by rewrite app_nil_r. }
  unfold bind. destruct (run_agent_dispatched e n agent w Hn) as (w1 & -> & Hd1).
  destruct (IH w1) as (w' & Hrun & Hd). exists w'. split; [done|].
  by rewrite Hd, Hd1, app_assoc.
Qed.

Lemma run_agents_dispatches_in_order_witness :
  ∃ w', run_agents
          (set_agents_json
             (Some [("share", AgentConfig (Some "tag:reminder") (Some "share_to_whatsapp"));
                    ("work", AgentConfig (Some "tag:work") (Some "calendar_event"));
                    ("typo", AgentConfig (Some "tag:reminder") (Some "calender_event"));
                    ("calendar", AgentConfig (Some "tag:reminder") (Some "calendar_event"))])
             (working_env code_points))
          (1, new_note (working_env code_points) "T" "C" (Some ["reminder"]) None)
          empty_world = (Ok tt, w') ∧
        dispatched w' = [EvAction "share_to_whatsapp" 1; EvUnknownAction "calender_event";
                         EvAction "calendar_event" 1].
Proof.
  destruct (run_agents_dispatches_in_order
              (set_agents_json
                 (Some [("share", AgentConfig (Some "tag:reminder") (Some "share_to_whatsapp"));
                        ("work", AgentConfig (Some "tag:work") (Some "calendar_event"));
                        ("typo", AgentConfig (Some "tag:reminder") (Some "calender_event"));
                        ("calendar", AgentConfig (Some "tag:reminder") (Some "calendar_event"))])
                 (working_env code_points))
              (1, new_note (working_env code_points) "T" "C" (Some ["reminder"]) None)
              empty_world) as (w' & Hrun & Hd).
  - split; eexists; reflexivity.
  - exists w'. split; [exact Hrun|]. rewrite Hd. vm_compute. reflexivity.
Defined.

(** ** Generation *)

Lemma generate_response_ready (e : env) (prompt : string) (web : bool) (w : world) :
  gemini_ready e w →
  generate_response e prompt web w =
  (Ok (response_text e (sent_prompt web prompt)),
   log (EvGenerate (sent_prompt web prompt))
     (if _gemini_configured w then w else set_gemini_configured true w)).
Proof.
  intros Hready. unfold generate_response, _ensure_gemini, response_text, sent_prompt.
  unfold bind at 1. unfold bind at 1. unfold get.
  destruct (_gemini_configured w) eqn:Hconf.
  - by destruct web; destruct (generate_content e _) eqn:Hgen; run; rewrite ?Hgen.
  - destruct Hready as [?|Hkey]; [congruence|]. rewrite decide_False by done.
    by destruct web; destruct (generate_content e _) eqn:Hgen; run; rewrite ?Hgen.
Qed.

(** X10.  [generate_response] raises in one case only: the module is not
    configured yet and [GEMINI_API_KEY] is set to the empty string (an unset
    variable stands for ["default_key"]); then nothing was called.  In every
    other case it calls the provider once, with the prompt or the web-search
    prompt, marks the module configured and returns the provider's text or,
    when the provider raised, ["[AI response failed]"]. *)
Theorem generate_response_outcomes (e : env) (prompt : string) (web : bool) (w : world) :
  (gemini_ready e w →
     ∃ w', generate_response e prompt web w
             = (Ok (response_text e (sent_prompt web prompt)), w') ∧
           _gemini_configured w' = true ∧
           trace w' = trace w ++ [EvGenerate (sent_prompt web prompt)] ∧
           notes w' = notes w ∧ _qa_cache w' = _qa_cache w) ∧
  (¬ gemini_ready e w →
     generate_response e prompt web w
       = (Raise (EnvironmentError "GEMINI_API_KEY not set"), w)).
Proof.
  split.
  - intros Hready. rewrite generate_response_ready by done. eexists. split; [done|].
    destruct (_gemini_configured w) eqn:Hconf; by fields.
  - intros Hnot. unfold generate_response, _ensure_gemini. run.
    destruct (_gemini_configured w) eqn:Hconf.
    { destruct Hnot. by left. }
    case_decide as Hkey; [done|]. destruct Hnot. by right.
Qed.

Lemma generate_response_outcomes_witness :
  ∃ w', generate_response (set_generate_content (λ _, None) (working_env code_points))
          "p" true empty_world = (Ok AI_RESPONSE_FAILED, w') ∧
        _gemini_configured w' = true.
Proof.
  destruct (proj1 (generate_response_outcomes
                     (set_generate_content (λ _, None) (working_env code_points))
                     "p" true empty_world)) as (w' & Hrun & Hconf & _).
  - right. vm_compute. discriminate.
  - exists w'. split; [exact Hrun | exact Hconf].
Defined.

(** X11.  [rephrase_note] stores whatever [generate_response] returns as the
    note's new content: the provider's text, and ["[AI response failed]"]
    when the provider raised.  It does not touch the vector index, whose entry
    for the note still is the embedding of the old content. *)
Theorem rephrase_note_overwrites (e : env) (n : note) (w : world) (c : string)
    (d : document) :
  content (fields n) = Some c →
  gemini_ready e w →
  db_fails e (UpdateOne (_id n)) = false →
  notes w !! _id n = Some d →
  ∃ w', rephrase_note e n w = (Ok tt, w') ∧
        notes w' !! _id n =
          Some (apply_set
                  (Document None
                     (Some (response_text e ("Rephrase the following note: " +:+ c)))
                     None None None (Some (utcnow e))) d) ∧
        (∀ id, id ≠ _id n → notes w' !! id = notes w !! id) ∧
        index_state w' = index_state w.
Proof.
  intros Hc Hready Hdb Hd. unfold rephrase_note, try_except.
  unfold bind at 1. rewrite Hc. unfold subscript, ret at 1.
  unfold bind at 1. rewrite generate_response_ready by done.
  set (w1 := log _ _).
  assert (Hnotes : notes w1 = notes w)
    by (unfold w1; destruct (_gemini_configured w); by fields).
  assert (Hidx : index_state w1 = index_state w)
    by (unfold w1; by destruct (_gemini_configured w)).
  clearbody w1. unfold bind at 1. rewrite update_one_run, Hdb, Hnotes, Hd.
  case_decide as Hsame; eexists; (split; [reflexivity|]); fields; rewrite Hnotes.
  - split; [|split; [done|exact Hidx]].
    rewrite Hd. f_equal. symmetry. exact Hsame.
  - split; [apply lookup_insert_eq|]. split; [|exact Hidx].
    intros id Hne. by rewrite lookup_insert_ne.
Qed.

Lemma rephrase_note_overwrites_witness :
  ∃ w', rephrase_note (set_generate_content (λ _, None) (working_env code_points))
          (1, new_note (working_env code_points) "T" "my text" None None)
          (run_ops [(working_env code_points, Create "T" "my text" None None None)]
             empty_world) = (Ok tt, w') ∧
        (content <$> notes w' !! 1) = Some (Some AI_RESPONSE_FAILED) ∧
        index_entries w' = [(1, code_points "my text")].
Proof.
  destruct (rephrase_note_overwrites
              (set_generate_content (λ _, None) (working_env code_points))
              (1, new_note (working_env code_points) "T" "my text" None None)
              (run_ops [(working_env code_points, Create "T" "my text" None None None)]
                 empty_world)
              "my text" (new_note (working_env code_points) "T" "my text" None None))
    as (w' & Hrun & Hnote & _ & Hidx).
  - reflexivity.
  - right. vm_compute. discriminate.
  - reflexivity.
  - vm_compute. reflexivity.
  - exists w'. split; [exact Hrun|]. split.
    + change (notes w' !! 1) with
        (notes w' !! _id (1, new_note (working_env code_points) "T" "my text" None None)).
      rewrite Hnote. reflexivity.
    + unfold index_entries. injection Hidx as -> _ _. vm_compute. reflexivity.
Defined.

(** X12.  [suggest_tags] stores as the note's tags the tags of the note it
    was given together with the comma-separated, stripped pieces of what
    [generate_response] returned, each once: no tag of the note is lost, and
    when the provider raised, ["[AI response failed]"] becomes a tag.  The
    other fields of the stored note stay. *)
Theorem suggest_tags_merges (e : env) (n : note) (w : world) (c : string) (d : document) :
  content (fields n) = Some c →
  gemini_ready e w →
  db_fails e (UpdateOne (_id n)) = false →
  notes w !! _id n = Some d →
  ∃ w' new_tags,
    suggest_tags e n w = (Ok tt, w') ∧
    notes w' !! _id n = Some (apply_set (Document None None (Some new_tags) None None None) d) ∧
    NoDup new_tags ∧
    (∀ t, t ∈ new_tags ↔
          t ∈ note_tags n ∨
          t ∈ strip <$> split_on ","%char
                  (response_text e ("Suggest 1 to 3 tags for this note: " +:+ c))) ∧
    (generate_content e ("Suggest 1 to 3 tags for this note: " +:+ c) = None →
       AI_RESPONSE_FAILED ∈ new_tags).
Proof.
  intros Hc Hready Hdb Hd. unfold suggest_tags, try_except.
  unfold bind at 1. rewrite Hc. unfold subscript, ret at 1.
  unfold bind at 1. rewrite generate_response_ready by done.
  set (w1 := log _ _).
  assert (Hnotes : notes w1 = notes w)
    by (unfold w1; destruct (_gemini_configured w); by fields).
  clearbody w1. cbv zeta. unfold bind at 1. rewrite update_one_run, Hdb, Hnotes, Hd.
  set (new_tags := list_set _).
  assert (Hmem : ∀ t, t ∈ new_tags ↔
            t ∈ note_tags n ∨
            t ∈ strip <$> split_on ","%char
                    (response_text e ("Suggest 1 to 3 tags for this note: " +:+ c))).
  { intros t. unfold new_tags, list_set. by rewrite elem_of_remove_dups, elem_of_app. }
  assert (Hfailed : generate_content e ("Suggest 1 to 3 tags for this note: " +:+ c) = None →
            AI_RESPONSE_FAILED ∈ new_tags).
  { intros Hnone. apply Hmem. right. unfold response_text. rewrite Hnone.
    vm_compute. left. }
  assert (Hnodup : NoDup new_tags) by apply NoDup_remove_dups.
  clearbody new_tags.
  case_decide as Hsame; eexists _, new_tags; (split; [reflexivity|]); fields;
    rewrite ?Hnotes.
  - split; [|done]. rewrite Hd. f_equal. symmetry. exact Hsame.
  - split; [apply lookup_insert_eq|done].
Qed.

(** The provider answers with a unit separator (U+001F) after the second
    tag. *)
Lemma suggest_tags_merges_witness :
  ∃ w' new_tags,
    suggest_tags (set_generate_content (λ _, Some ("urgent, bank" +:+ String "031"%char ",todo")) (working_env code_points))
      (1, new_note (working_env code_points) "T" "call the bank" (Some ["todo"]) None)
      (run_ops [(working_env code_points, Create "T" "call the bank" (Some ["todo"]) None None)]
         empty_world) = (Ok tt, w') ∧
    (tags <$> notes w' !! 1) = Some (Some new_tags) ∧
    new_tags = ["urgent"; "bank"; "todo"].
Proof.
  destruct (suggest_tags_merges
              (set_generate_content (λ _, Some ("urgent, bank" +:+ String "031"%char ",todo")) (working_env code_points))
              (1, new_note (working_env code_points) "T" "call the bank" (Some ["todo"]) None)
              (run_ops [(working_env code_points,
                         Create "T" "call the bank" (Some ["todo"]) None None)] empty_world)
              "call the bank"
              (new_note (working_env code_points) "T" "call the bank" (Some ["todo"]) None))
    as (w' & new_tags & Hrun & Hnote & _).
  - reflexivity.
  - right. vm_compute. discriminate.
  - reflexivity.
  - vm_compute. reflexivity.
  - exists w', new_tags. split; [exact Hrun|].
    change (notes w' !! 1) with
      (notes w' !! _id (1, new_note (working_env code_points) "T" "call the bank"
                            (Some ["todo"]) None)).
    rewrite Hnote. split; [reflexivity|].
    vm_compute in Hrun. injection Hrun as <-. vm_compute in Hnote.
    injection Hnote as <-. reflexivity.
Defined.

(** ** Questions *)

(** X13.  [ask_question_web] neither reads nor fills the answer cache, and
    it calls the provider whenever the searches went through, also when they
    found nothing and also for a question whose answer is cached: the answer is
    the provider's text for the web prompt, or ["[AI response failed]"]. *)
Theorem ask_question_web_uncached (e : env) (w w1 w2 w3 : world) (question : string)
    (k : nat) (ids : list Z) (ft rel : list note) :
  search_similar_notes e question k w = (Ok ids, w1) →
  full_text_search e question w1 = (Ok ft, w2) →
  collect_relevant_notes e ids ft w2 = (Ok rel, w3) →
  gemini_ready e w →
  ∃ w', ask_question_web e question k w
          = (Ok (response_text e (web_prompt e question k rel)), w') ∧
        last (trace w') = Some (EvGenerate (web_prompt e question k rel)) ∧
        _qa_cache w' = _qa_cache w ∧
        notes w' = notes w.
Proof.
  intros H1 H2 H3 Hready.
  assert (Hready3 : gemini_ready e w3).
  { destruct Hready as [Hconf|Hkey]; [left|by right].
    set (I := λ w', _gemini_configured w' = true).
    destruct (maintains_index_functions I) as (Hload & _); [done..|].
    assert (I w1) as Hw1.
    { pose proof (maintains_search_similar_notes I ltac:(done) Hload e question k w Hconf)
        as Hm. by rewrite H1 in Hm. }
    assert (I w2) as Hw2.
    { pose proof (maintains_full_text_search I ltac:(done) e question w1 Hw1) as Hm.
      by rewrite H2 in Hm. }
    pose proof (maintains_collect_relevant_notes I ltac:(done) e ids ft w2 Hw2) as Hm.
    by rewrite H3 in Hm. }
  assert (Hcache3 : _qa_cache w3 = _qa_cache w).
  { apply keeps_run in H1; [|auto with cache]. apply keeps_run in H2; [|auto with cache].
    apply keeps_run in H3; [|auto with cache]. congruence. }
  assert (Hnotes3 : notes w3 = notes w).
  { set (I := λ w', notes w' = notes w).
    destruct (maintains_index_functions I) as (Hload & _); [done..|].
    assert (I w1) as Hw1.
    { pose proof (maintains_search_similar_notes I ltac:(done) Hload e question k w eq_refl)
        as Hm. by rewrite H1 in Hm. }
    assert (I w2) as Hw2.
    { pose proof (maintains_full_text_search I ltac:(done) e question w1 Hw1) as Hm.
      by rewrite H2 in Hm. }
    pose proof (maintains_collect_relevant_notes I ltac:(done) e ids ft w2 Hw2) as Hm.
    by rewrite H3 in Hm. }
  unfold ask_question_web. unfold bind at 1. rewrite H1.
  unfold bind at 1. rewrite H2. unfold bind at 1. rewrite H3. cbv zeta.
  rewrite generate_response_ready by done. eexists. split; [reflexivity|].
  fields. split; [apply last_snoc|].
  destruct (_gemini_configured w3); by fields.
Qed.

Lemma ask_question_web_uncached_witness :
  ∃ w', ask_question_web (working_env code_points) "anything" 5 empty_world
          = (Ok "answer", w') ∧
        _qa_cache w' = ∅.
Proof.
  edestruct (ask_question_web_uncached (working_env code_points) empty_world)
    with (question := "anything") (k := 5%nat)
    as (w' & Hrun & _ & Hcache & _).
  - vm_compute. reflexivity.
  - vm_compute. reflexivity.
  - vm_compute. reflexivity.
  - right. vm_compute. discriminate.
  - exists w'. split; [exact Hrun | exact Hcache].
Defined.

(** ** The candidates of an answer *)

(** C5.  On a question that is not cached and reaches both searches, the
    candidate list is the stored notes whose id the semantic search returned
    (in the order in which the database lists them), followed by exactly the
    full-text matches whose id it did not return: a stored note is a candidate
    when its id was returned or its text matches, whatever its content, and no
    two candidates have the same id.  This is the list that [ask_question]
    answers from: with no candidate it gives the fixed response, otherwise it
    sends the prompt made of these candidates to the provider;
    [ask_question_web] makes its prompt of the same list. *)
Theorem relevant_notes_by_id (e : env) (w w1 w2 : world) (question : string)
    (k : nat) (ids : list Z) (ft : list note) :
  _qa_cache w !! question = None →
  search_similar_notes e question k w = (Ok ids, w1) →
  full_text_search e question w1 = (Ok ft, w2) →
  (ids ≠ [] → db_fails e (FindIn ids) = false) →
  gemini_ready e w →
  ∃ semantic_notes rel,
    semantic_notes ≡ₚ filter (λ n, _id n ∈ ids) (stored w) ∧
    ft ≡ₚ text_matches e question w ∧
    rel = semantic_notes ++ filter (λ n, _id n ∉ ids) ft ∧
    (∀ n, n ∈ rel ↔
          n ∈ stored w ∧ (_id n ∈ ids ∨ Is_true (text_match e question (fields n)))) ∧
    NoDup (_id <$> rel) ∧
    (∃ w', ask_question e question k w =
             (Ok (match rel with
                  | [] => NO_MATCHING_NOTES
                  | _ :: _ => response_text e (qa_prompt e question k rel)
                  end), w') ∧
           (rel ≠ [] →
              last (trace w') = Some (EvGenerate (qa_prompt e question k rel)))) ∧
    (∃ w', ask_question_web e question k w =
             (Ok (response_text e (web_prompt e question k rel)), w') ∧
           last (trace w') = Some (EvGenerate (web_prompt e question k rel))).
Proof.
  intros Hmiss H1 H2 Hfind Hready.
  destruct (collect_relevant_notes e ids ft w2) as [r w3] eqn:H3.
  assert (∃ rel, r = Ok rel) as [rel ->].
  { revert H3. rewrite collect_relevant_notes_run. case_decide as Hids.
    - intros [= <- _]. by eexists.
    - rewrite (Hfind Hids). intros [= <- _]. by eexists. }
  destruct (relevant_notes_collected _ _ _ _ _ _ _ _ _ _ H1 H2 H3)
    as (Hft & Hrel & Hin & Hnodup).
  exists (filter (λ n, _id n ∈ ids) (stored w)), rel.
  split; [done|]. split; [by rewrite Hft|]. split; [done|].
  split; [done|]. split; [done|].
  assert (Hready3 : gemini_ready e w3).
  { destruct Hready as [Hconf|Hkey]; [left|by right].
    set (I := λ w', _gemini_configured w' = true).
    destruct (maintains_index_functions I) as (Hload & _); [done..|].
    assert (I w1) as Hw1.
    { pose proof (maintains_search_similar_notes I ltac:(done) Hload e question k w Hconf)
        as Hm. by rewrite H1 in Hm. }
    assert (I w2) as Hw2.
    { pose proof (maintains_full_text_search I ltac:(done) e question w1 Hw1) as Hm.
      by rewrite H2 in Hm. }
    pose proof (maintains_collect_relevant_notes I ltac:(done) e ids ft w2 Hw2) as Hm.
    by rewrite H3 in Hm. }
  split.
  - rewrite (ask_question_miss _ _ _ _ Hmiss), H1, H2, H3.
    destruct rel as [|n rel']; [by eexists|].
    rewrite generate_response_ready by done. eexists. split; [reflexivity|].
    intros _. fields. apply last_snoc.
  - unfold ask_question_web. unfold bind at 1. rewrite H1.
    unfold bind at 1. rewrite H2. unfold bind at 1. rewrite H3. cbv zeta.
    rewrite generate_response_ready by done. eexists. split; [reflexivity|].
    fields. apply last_snoc.
Qed.

(** Two notes with the same content and different ids: both are candidates,
    and the prompt that [ask_question] sends is made of both. *)
Lemma relevant_notes_by_id_witness :
  ∃ rel w',
    length rel = 2%nat ∧
    NoDup (_id <$> rel) ∧
    ask_question (set_text_match (λ _ _, true) (working_env code_points)) "same" 5
      (run_ops [(working_env code_points, Create "A" "same" None None None);
                (working_env code_points, Create "B" "same" None None None)]
         empty_world) = (Ok "answer", w') ∧
    last (trace w') =
      Some (EvGenerate
              (qa_prompt (set_text_match (λ _ _, true) (working_env code_points))
                 "same" 5 rel)).
Proof.
  edestruct (relevant_notes_by_id
               (set_text_match (λ _ _, true) (working_env code_points))
               (run_ops [(working_env code_points, Create "A" "same" None None None);
                         (working_env code_points, Create "B" "same" None None None)]
                  empty_world))
    with (question := "same") (k := 5%nat)
    as (sem & rel & Hsem & _ & Hrel & _ & Hnodup & (w' & Hask & Hlast) & _).
  - vm_compute. reflexivity.
  - vm_compute. reflexivity.
  - vm_compute. reflexivity.
  - intros _. reflexivity.
  - right. discriminate.
  - assert (Hlen : length rel = 2%nat).
    { rewrite Hrel, length_app, Hsem. vm_compute. reflexivity. }
    exists rel, w'. split; [exact Hlen|]. split; [exact Hnodup|].
    destruct rel as [|n rel]; [discriminate Hlen|].
    split; [exact Hask|]. by apply Hlast.
Defined.

(** X14.  A call of [ask_question] that raises (the encoder, the database
    or the configuration failed) caches nothing, so the same question is tried
    again by the next call; this is unlike a provider failure, whose
    ["[AI response failed]"] is cached. *)
Theorem ask_question_failure_not_cached (e : env) (w w' : world) (question : string)
    (k : nat) (x : exn) :
  ask_question e question k w = (Raise x, w') →
  _qa_cache w' = _qa_cache w ∧ _qa_cache w !! question = None.
Proof.
  intros Hrun. split.
  - apply ask_question_cache in Hrun as [[Hsame _]|(_ & a & Hr & _)]; [done|discriminate Hr].
  - destruct (_qa_cache w !! question) as [a|] eqn:Hhit; [|done].
    rewrite (ask_question_hit _ _ _ _ _ Hhit) in Hrun. discriminate Hrun.
Qed.

Lemma ask_question_failure_not_cached_witness :
  _qa_cache (ask_question (set_encode (λ _, None) (working_env code_points)) "q" 5
               empty_world).2 = ∅.
Proof.
  refine (proj1 (ask_question_failure_not_cached
                   (set_encode (λ _, None) (working_env code_points)) empty_world _ "q" 5
                   (ServiceError "encode") _)).
  vm_compute. reflexivity.
Defined.

(** ** The other commands *)

(** X15.  The [add-voice] command never raises and never evaluates the agent
    rules, unlike [add]; and when a non-empty audio path cannot be transcribed
    it stores nothing, takes no id and prints no result. *)
Theorem cli_add_voice_no_agents (e : env) (w : world)
    (audio_path title tags workspace : string) :
  ∃ w', cli_add_voice e audio_path title tags workspace w = (Ok tt, w') ∧
        dispatched w' = dispatched w ∧
        (audio_path ≠ EmptyString → recognize_google e audio_path = None →
           notes w' = notes w ∧ counter_seq w' = counter_seq w ∧
           trace w' = trace w ++ [EvTranscribe audio_path]).
Proof.
  unfold cli_add_voice, try_except. cbv zeta. unfold bind at 1.
  set (I := λ w', dispatched w' = dispatched w).
  assert (Hlog : ∀ ev w', is_dispatch ev = false → I w' → I (log ev w')).
  { intros ev w' Hev Hw'. unfold I. by rewrite dispatched_log_quiet. }
  destruct (maintains_index_functions I) as (_ & Hadd & _); [done..|].
  pose proof (maintains_add_note I Hlog ltac:(done) ltac:(done) Hadd e
                (or_default title EmptyString) EmptyString (Some (tags_list_of tags))
                (Some (or_default workspace "default"))
                (if decide (audio_path = EmptyString) then None else Some audio_path)
                w eq_refl) as Hd.
  destruct (add_note e _ _ _ _ _ w) as [[id|x] w1] eqn:Hrun; simpl in Hd.
  - eexists. split; [reflexivity|]. split.
    + unfold emit, modify. simpl. by rewrite dispatched_log_quiet.
    + intros Hp Hnone. rewrite decide_False in Hrun by done.
      rewrite (add_note_audio_run _ _ _ _ _ _ _ Hp), Hnone in Hrun. discriminate Hrun.
  - eexists. split; [reflexivity|]. split; [done|].
    intros Hp Hnone. rewrite decide_False in Hrun by done.
    rewrite (add_note_audio_run _ _ _ _ _ _ _ Hp), Hnone in Hrun.
    injection Hrun as _ <-. by fields.
Qed.

Lemma cli_add_voice_no_agents_witness :
  ∃ w', cli_add_voice (Env (λ _, None) (λ s, Some (code_points s)) (λ _, Some "answer")
                         (λ _ _, false) (λ _, false) false None 0 0 (λ _ _, "date")
                         (Some reminder_rules) (λ s, Some s) (λ s, Some s))
          "memo.wav" "T" "reminder" "default" empty_world = (Ok tt, w') ∧
        notes w' = ∅.
Proof.
  destruct (cli_add_voice_no_agents
              (Env (λ _, None) (λ s, Some (code_points s)) (λ _, Some "answer")
                 (λ _ _, false) (λ _, false) false None 0 0 (λ _ _, "date")
                 (Some reminder_rules) (λ s, Some s) (λ s, Some s))
              empty_world "memo.wav" "T" "reminder" "default") as (w' & Hrun & _ & Hfail).
  exists w'. split; [exact Hrun|].
  exact (proj1 (Hfail ltac:(discriminate) eq_refl)).
Defined.

Lemma append_empty_r (s : string) : s +:+ EmptyString = s.
Proof.
  induction s as [|c s IH]; [done|].
  change (String c s +:+ EmptyString) with (String c (s +:+ EmptyString)).
  by rewrite IH.
Qed.

Lemma for_each_console_print {A} (e : env) (f : A → string) (l : list A) (w : world) :
  (∀ x, x ∈ l → is_Some (rich_render e (f x))) →
  ∃ w' shown,
    for_each l (λ x, console_print e (f x)) w = (Ok tt, w') ∧
    trace w' = trace w ++ (EvConsole <$> shown) ∧
    Forall2 (λ markup text, rich_render e markup = Some text) (f <$> l) shown ∧
    notes w' = notes w.
Proof.
  revert w. induction l as [|x l IH]; intros w Hl.
  - exists w, []. simpl. by rewrite app_nil_r.
  - destruct (Hl x ltac:(left)) as [text Htext].
    destruct (IH (log (EvConsole text) w)) as (w' & shown & Hrun & Htrace & Hshown & Hnotes).
    { intros y Hy. apply Hl. by right. }
    exists w', (text :: shown). split.
    { cbn [for_each]. unfold bind at 1, console_print at 1. rewrite Htext.
      unfold emit, modify. exact Hrun. }
    rewrite Htrace, Hnotes. fields. split; [done|split; [|done]].
    by constructor.
Qed.

Lemma cli_search_run (e : env) (query : string) (w : world) :
  db_fails e EnsureTextIndex = false →
  db_fails e (TextSearch query) = false →
  (∀ markup, markup ∈ search_markup query (text_matches e query w) →
             is_Some (rich_render e markup)) →
  ∃ w' shown,
    cli_search e query w = (Ok tt, w') ∧
    trace w' = trace w ++ [EvDb EnsureTextIndex; EvDb (TextSearch query)] ++
               (EvConsole <$> shown) ∧
    Forall2 (λ markup text, rich_render e markup = Some text)
      (search_markup query (text_matches e query w)) shown ∧
    notes w' = notes w.
Proof.
  intros H1 H2 Hrich. unfold cli_search. unfold bind at 1.
  rewrite full_text_search_run, H1, H2. fold (text_matches e query w).
  unfold search_markup in *.
  destruct (text_matches e query w) as [|n results].
  - destruct (Hrich _ ltac:(left)) as [text Htext].
    unfold bind, console_print. rewrite Htext. simpl.
    exists (log (EvConsole text)
              (log (EvDb (TextSearch query)) (log (EvDb EnsureTextIndex) w))), [text].
    split; [done|]. fields. split; [done|]. split; [|done].
    by repeat constructor.
  - unfold bind at 1. unfold ret.
    destruct (for_each_console_print e note_line (n :: results)
                (log (EvDb (TextSearch query)) (log (EvDb EnsureTextIndex) w)))
      as (w' & shown & -> & Htrace & Hshown & Hnotes).
    { intros x Hx. apply Hrich. by apply list_elem_of_fmap_2. }
    exists w', shown. split; [done|]. rewrite Htrace, Hnotes. by fields.
Qed.

(** X17.  When the database answers and rich accepts what it is given, the
    [search] command passes to the console one line per note whose text
    matches (in the order in which the database lists them), with the id, the
    title and the content cut after 50 characters, or the single line that
    there are no results; what is shown is what rich makes of these lines, and
    no note is changed. *)
Theorem cli_search_lines (e : env) (query : string) (w : world) :
  db_fails e EnsureTextIndex = false →
  db_fails e (TextSearch query) = false →
  (∀ markup, markup ∈ search_markup query (text_matches e query w) →
             is_Some (rich_render e markup)) →
  ∃ w' results shown,
    cli_search e query w = (Ok tt, w') ∧
    trace w' = trace w ++ [EvDb EnsureTextIndex; EvDb (TextSearch query)] ++
               (EvConsole <$> shown) ∧
    results ≡ₚ text_matches e query w ∧
    Forall2 (λ markup text, rich_render e markup = Some text)
      (search_markup query results) shown ∧
    notes w' = notes w.
Proof.
  intros H1 H2 Hrich.
  destruct (cli_search_run e query w H1 H2 Hrich)
    as (w' & shown & Hrun & Htrace & Hshown & Hn).
  exists w', (text_matches e query w), shown.
  split; [exact Hrun|]. split; [exact Htrace|]. split; [reflexivity|].
  split; [exact Hshown|exact Hn].
Qed.

(** A content of 51 characters, the first of them outside ASCII. *)
Lemma cli_search_lines_witness :
  ∃ w', cli_search (set_text_match (λ _ _, true) (working_env code_points)) "bank"
          (run_ops [(working_env code_points,
                     Create "T" (String "233"%char "t" +:+ repeat_char "x"%char 49)
                       None None None)] empty_world)
          = (Ok tt, w') ∧
        last (trace w') =
          Some (EvConsole ("ID: 1 | Title: T | Content: " +:+
                           String "233"%char "t" +:+ repeat_char "x"%char 48 +:+ "...")).
Proof.
  destruct (cli_search_lines (set_text_match (λ _ _, true) (working_env code_points)) "bank"
              (run_ops [(working_env code_points,
                         Create "T" (String "233"%char "t" +:+ repeat_char "x"%char 49)
                           None None None)] empty_world)
              eq_refl eq_refl) as (w' & results & shown & Hrun & _).
  - intros markup _. by eexists.
  - exists w'. split; [exact Hrun|].
    vm_compute in Hrun. injection Hrun as <-. vm_compute. reflexivity.
Defined.

Lemma escape_newlines_one_line (s : string) :
  ("010"%char ∉ chars (escape_newlines s)) ∧
  ("010"%char ∉ chars s → escape_newlines s = s).
Proof.
  unfold chars. induction s as [|c s (IH1 & IH2)]; simpl.
  { split; [apply not_elem_of_nil|done]. }
  case_decide as Hc; simpl.
  - split.
    + intros [?|[?|?]%elem_of_cons]%elem_of_cons; done.
    + intros Hout. destruct Hout. rewrite Hc. left.
  - split.
    + intros [?|?]%elem_of_cons; done.
    + intros [_ Hout]%not_elem_of_cons. by rewrite (IH2 Hout).
Qed.

(** X18.  For a note with a title and a content, [add_to_calendar] returns
    whatever the file system does.  It writes the event to the file of the
    note and then, when that went through, to [reminders.ics]; the description
    of the event is the content with every line feed replaced by a backslash
    and an [n], so it holds no line feed and is the content itself when the
    content has none.  No note is changed. *)
Theorem add_to_calendar_description (e : env) (n : note) (w : world) (t c : string) :
  title (fields n) = Some t →
  content (fields n) = Some c →
  ∃ w' description,
    add_to_calendar e n w = (Ok tt, w') ∧
    description = escape_newlines c ∧
    ("010"%char ∉ chars description) ∧
    ("010"%char ∉ chars c → description = c) ∧
    (let ics := ics_content e n t description (now e + 86400) (now e + 86400 + 3600) in
     trace w' =
       trace w ++
       EvFile ("calendar_events/event_" +:+ pretty (_id n) +:+ ".ics") ics ::
       (if fs_fails e then [] else [EvFile "reminders.ics" (ics +:+ nl)])) ∧
    notes w' = notes w.
Proof.
  intros Ht Hc. unfold add_to_calendar. rewrite Ht, Hc.
  destruct (escape_newlines_one_line c) as [Hfree Hsame].
  unfold bind at 1. unfold subscript at 1, ret at 1.
  unfold bind at 1. unfold subscript at 1, ret at 1.
  cbv zeta. unfold try_except, write_file, bind, emit, modify, raise, ret.
  destruct (fs_fails e); simpl;
    eexists _, _; (split; [reflexivity|]); (split; [reflexivity|]);
    (split; [exact Hfree|]); (split; [exact Hsame|]); fields;
    (split; [|done]); by rewrite <- ?app_assoc.
Qed.

Lemma add_to_calendar_description_witness :
  ∃ w' description,
    add_to_calendar (working_env code_points)
      (1, new_note (working_env code_points) "T" ("two" +:+ nl +:+ "lines") None None)
      empty_world = (Ok tt, w') ∧
    description = "two\nlines" ∧
    length (trace w') = 2%nat.
Proof.
  destruct (add_to_calendar_description (working_env code_points)
              (1, new_note (working_env code_points) "T" ("two" +:+ nl +:+ "lines")
                    None None)
              empty_world "T" ("two" +:+ nl +:+ "lines") eq_refl eq_refl)
    as (w' & description & Hrun & Hd & _ & _ & Htrace & _).
  exists w', description. split; [exact Hrun|]. split.
  - rewrite Hd. vm_compute. reflexivity.
  - rewrite Htrace. reflexivity.
Defined.

(** ** The connection to the database *)

Lemma connect_loop_first_success (outcomes : nat → attempt)
    (MONGO_DB_NAME : option string) (retries : nat) (delay : Z) (name : string)
    (d : nat) :
  0 ≤ delay →
  ∀ (i0 len : nat) (st : connection),
    (d < len)%nat → (i0 + d < retries)%nat →
    (∀ i, (i0 ≤ i < i0 + d)%nat → attempt_fails (outcomes i)) →
    database_of MONGO_DB_NAME (outcomes (i0 + d)%nat) = Some name →
    connect_loop outcomes MONGO_DB_NAME retries delay (seq i0 len) st =
      (Ok tt, Connection true (Some name),
       flat_map (λ i, [Attempt i; Sleep delay]) (seq i0 d) ++ [Attempt (i0 + d)%nat]).
Proof.
  intros Hdelay. induction d as [|d IH]; intros i0 len st Hlen Hj Hfail Hok.
  - destruct len as [|len]; [lia|]. rewrite Nat.add_0_r in *. simpl.
    destruct (outcomes i0); simpl in Hok; try discriminate Hok;
      by injection Hok as <-.
  - destruct len as [|len]; [lia|]. simpl.
    assert (Hrec : ∀ st', connect_loop outcomes MONGO_DB_NAME retries delay
                            (seq (S i0) len) st' =
                          (Ok tt, Connection true (Some name),
                           flat_map (λ i, [Attempt i; Sleep delay]) (seq (S i0) d) ++
                           [Attempt (i0 + S d)%nat])).
    { intros st'. replace (i0 + S d)%nat with (S i0 + d)%nat by lia.
      apply IH; [lia|lia| |].
      - intros i Hi. apply Hfail. lia.
      - by replace (S i0 + d)%nat with (i0 + S d)%nat by lia. }
    destruct (Hfail i0 ltac:(lia)) as [-> | ->]; cbv beta zeta;
      rewrite decide_True by lia; rewrite decide_False by lia; by rewrite Hrec.
Qed.

Lemma connect_loop_exhausted (outcomes : nat → attempt)
    (MONGO_DB_NAME : option string) (retries : nat) (delay : Z) (len : nat) :
  0 ≤ delay →
  ∀ (i0 : nat) (st : connection),
    (i0 + S len = retries)%nat →
    (∀ i, (i0 ≤ i < retries)%nat → attempt_fails (outcomes i)) →
    ∃ st', connect_loop outcomes MONGO_DB_NAME retries delay (seq i0 (S len)) st =
             (Raise (RuntimeError "Failed to connect to MongoDB"), st',
              flat_map (λ i, [Attempt i; Sleep delay]) (seq i0 len) ++
              [Attempt (i0 + len)%nat]) ∧
           _db st' = _db st ∧
           (_client st' = true ↔
              _client st = true ∨
              ∃ i, (i0 ≤ i < retries)%nat ∧ outcomes i = DefaultRaises).
Proof.
  intros Hdelay. induction len as [|len IH]; intros i0 st Hretries Hfail.
  - rewrite Nat.add_0_r. cbn [seq connect_loop].
    destruct (Hfail i0 ltac:(lia)) as [Hi0 | Hi0]; rewrite Hi0; cbv beta zeta;
      rewrite decide_False by lia.
    + exists st. split; [done|]. split; [done|]. split; [by left|].
      intros [?|(i & Hi & Hraises)]; [done|].
      replace i with i0 in Hraises by lia. congruence.
    + exists (Connection true (_db st)). split; [done|]. split; [done|]. split; [|done].
      intros _. right. exists i0. split; [lia|done].
  - change (seq i0 (S (S len))) with (i0 :: seq (S i0) (S len)). cbn [connect_loop].
    destruct (Hfail i0 ltac:(lia)) as [Hi0 | Hi0]; rewrite Hi0; cbv beta zeta;
      rewrite decide_True by lia; rewrite decide_False by lia.
    + destruct (IH (S i0) st ltac:(lia)) as (st' & Hrun & Hdb & Hclient).
      { intros i Hi. apply Hfail. lia. }
      rewrite Hrun. exists st'. split.
      { cbn [flat_map app]. by replace (S i0 + len)%nat with (i0 + S len)%nat by lia. }
      split; [done|]. rewrite Hclient. split.
      * intros [?|(i & Hi & Hraises)]; [by left|]. right. exists i. split; [lia|done].
      * intros [?|(i & Hi & Hraises)]; [by left|]. right. exists i. split; [|done].
        destruct (decide (i = i0)) as [->|]; [congruence|lia].
    + destruct (IH (S i0) (Connection true (_db st)) ltac:(lia))
        as (st' & Hrun & Hdb & Hclient).
      { intros i Hi. apply Hfail. lia. }
      rewrite Hrun. exists st'. split.
      { cbn [flat_map app]. by replace (S i0 + len)%nat with (i0 + S len)%nat by lia. }
      split; [done|]. rewrite Hclient. split.
      * intros _. right. exists i0. split; [lia|done].
      * intros _. by left.
Qed.

(** X19.  For a [delay] that is not negative, a first call of
    [connect_to_db] whose attempts fail until attempt [j], below [retries],
    goes through returns the database of that attempt (the default database of
    the URL, or else the one named by MONGO_DB_NAME, or else ai_notes), after
    one sleep of [delay] per failed attempt and no further attempt; every later
    call returns the same database without any attempt. *)
Theorem connect_to_db_first_success (outcomes : nat → attempt)
    (MONGO_DB_NAME : option string) (retries : nat) (delay : Z) (st : connection)
    (j : nat) (name : string) :
  0 ≤ delay →
  _client st = false →
  (j < retries)%nat →
  (∀ i, (i < j)%nat → attempt_fails (outcomes i)) →
  database_of MONGO_DB_NAME (outcomes j) = Some name →
  connect_to_db outcomes MONGO_DB_NAME retries delay st =
    (Ok (Some name), Connection true (Some name),
     failed_attempts delay j ++ [Attempt j]) ∧
  ∀ outcomes' retries' delay',
    connect_to_db outcomes' MONGO_DB_NAME retries' delay' (Connection true (Some name)) =
      (Ok (Some name), Connection true (Some name), []).
Proof.
  intros Hdelay Hclient Hj Hfail Hok. split; [|done].
  unfold connect_to_db, failed_attempts. rewrite Hclient.
  rewrite (connect_loop_first_success outcomes MONGO_DB_NAME retries delay name j
             Hdelay 0 retries st); try done.
  intros i Hi. apply Hfail. lia.
Qed.

Lemma connect_to_db_first_success_witness :
  connect_to_db (λ i, if decide (i = 2%nat) then DefaultNone else ClientRaises)
    None 3 2 (Connection false None) =
  (Ok (Some "ai_notes"), Connection true (Some "ai_notes"),
   [Attempt 0; Sleep 2; Attempt 1; Sleep 2; Attempt 2]).
Proof.
  refine (proj1 (connect_to_db_first_success
                   (λ i, if decide (i = 2%nat) then DefaultNone else ClientRaises)
                   None 3 2 (Connection false None) 2 "ai_notes" _ eq_refl _ _ eq_refl)).
  - lia.
  - lia.
  - intros i Hi. left. destruct i as [|[|i]]; [reflexivity|reflexivity|lia].
Defined.

(** X20.  For a [delay] that is not negative, a first call of
    [connect_to_db] all of whose attempts fail raises the connection error
    after [retries - 1] sleeps (with [retries = 0] it makes no attempt and
    returns the unset database), and leaves [_db] as it was.  If at some
    attempt the client was made and only [get_default_database] raised,
    [_client] stays set: every later call then makes no attempt and returns
    the database that was never set, without raising.  For a negative [delay]
    and two retries or more, the call ends in the first sleep instead, with
    the [ValueError] of [time.sleep], after one attempt. *)
Theorem connect_to_db_exhausted (outcomes : nat → attempt)
    (MONGO_DB_NAME : option string) (retries : nat) (delay : Z) (st : connection) :
  _client st = false →
  (∀ i, (i < retries)%nat → attempt_fails (outcomes i)) →
  (0 ≤ delay →
   ∃ st',
    connect_to_db outcomes MONGO_DB_NAME retries delay st =
      (match retries with
       | O => Ok (_db st)
       | S _ => Raise (RuntimeError "Failed to connect to MongoDB")
       end, st',
       match retries with
       | O => []
       | S r => failed_attempts delay r ++ [Attempt r]
       end) ∧
    _db st' = _db st ∧
    (_client st' = true ↔ ∃ i, (i < retries)%nat ∧ outcomes i = DefaultRaises) ∧
    (_client st' = true →
       ∀ outcomes' retries' delay',
         connect_to_db outcomes' MONGO_DB_NAME retries' delay' st' = (Ok (_db st), st', []))) ∧
  (delay < 0 → (2 ≤ retries)%nat →
   ∃ st',
    connect_to_db outcomes MONGO_DB_NAME retries delay st =
      (Raise (ValueError "sleep length must be non-negative"), st',
       [Attempt 0; Sleep delay]) ∧
    _db st' = _db st ∧
    (_client st' = true ↔ outcomes 0%nat = DefaultRaises)).
Proof.
  intros Hclient Hfail. split.
  2:{ intros Hdelay Hretries. unfold connect_to_db. rewrite Hclient.
      destruct retries as [|[|r]]; [lia|lia|].
      change (seq 0 (S (S r))) with (0%nat :: seq 1 (S r)). cbn [connect_loop].
      destruct (Hfail 0%nat ltac:(lia)) as [H0 | H0]; rewrite H0; cbv beta zeta;
        rewrite decide_True by lia; rewrite decide_True by lia.
      - exists st. split; [done|]. split; [done|]. rewrite Hclient. split; done.
      - exists (Connection true (_db st)). split; [done|]. split; done. }
  intros Hdelay. unfold connect_to_db at 1. rewrite Hclient.
  destruct retries as [|r].
  - exists st. split; [done|]. split; [done|]. rewrite Hclient. split.
    + split; [done|]. intros (i & Hi & _). lia.
    + done.
  - destruct (connect_loop_exhausted outcomes MONGO_DB_NAME (S r) delay r Hdelay 0 st)
      as (st' & Hrun & Hdb & Hset); [done| |].
    { intros i Hi. apply Hfail. lia. }
    rewrite Hrun. exists st'. split; [done|]. split; [done|]. split.
    + rewrite Hset, Hclient. split.
      * intros [?|(i & Hi & Hraises)]; [done|]. exists i. split; [lia|done].
      * intros (i & Hi & Hraises). right. exists i. split; [lia|done].
    + intros Hst' outcomes' retries' delay'. unfold connect_to_db.
      by rewrite Hst', Hdb.
Qed.

Lemma connect_to_db_exhausted_witness :
  ∃ st', connect_to_db (λ _, DefaultRaises) None 3 2 (Connection false None) =
           (Raise (RuntimeError "Failed to connect to MongoDB"), st',
            [Attempt 0; Sleep 2; Attempt 1; Sleep 2; Attempt 2]) ∧
         connect_to_db (λ _, DefaultIs "notes") None 3 2 st' = (Ok None, st', []).
Proof.
  destruct (proj1 (connect_to_db_exhausted (λ _, DefaultRaises) None 3 2
                     (Connection false None) eq_refl (λ _ _, or_intror eq_refl))
              ltac:(lia))
    as (st' & Hrun & _ & Hset & Hlater).
  exists st'. split; [exact Hrun|].
  apply Hlater. apply Hset. exists 0%nat. split; [lia|reflexivity].
Defined.

(** ** The exporters *)

Lemma append_assoc_string (a b c : string) : (a +:+ b) +:+ c = a +:+ (b +:+ c).
Proof.
  induction a as [|x a IH]; [done|].
  change (String x ((a +:+ b) +:+ c) = String x (a +:+ (b +:+ c))).
  by rewrite IH.
Qed.

Lemma export_note_run (template : string) (prepare : string → string) (n : note)
    (w : world) :
  has_export_keys n →
  export_note template prepare n w = (Ok (chomp template), w).
Proof.
  intros ([t Ht] & [ts Hts] & [ws Hws] & [c Hc]).
  unfold export_note. rewrite Ht, Hts, Hws, Hc. done.
Qed.

Lemma export_note_missing (n : note) :
  ¬ has_export_keys n →
  ∃ key, key ∈ ["title"; "tags"; "workspace"; "content"] ∧
         ∀ template prepare w,
           export_note template prepare n w = (Raise (KeyError key), w).
Proof.
  intros Hmissing. unfold export_note.
  destruct (title (fields n)) as [t|] eqn:Ht;
    [|exists "title"; split; [set_solver|done]].
  destruct (tags (fields n)) as [ts|] eqn:Hts;
    [|exists "tags"; split; [set_solver|done]].
  destruct (workspace (fields n)) as [ws|] eqn:Hws;
    [|exists "workspace"; split; [set_solver|done]].
  destruct (content (fields n)) as [c|] eqn:Hc;
    [|exists "content"; split; [set_solver|done]].
  destruct Hmissing. unfold has_export_keys. rewrite Ht, Hts, Hws, Hc. eauto.
Qed.

Lemma export_notes_run (template : string) (prepare : string → string)
    (notes : list note) :
  ∀ (acc : string) (w : world),
    Forall has_export_keys notes →
    export_notes template prepare notes acc w =
      (Ok (acc +:+ repeat_string (length notes) (chomp template)), w).
Proof.
  induction notes as [|n notes IH]; intros acc w Hkeys.
  - simpl. by rewrite append_empty_r.
  - apply Forall_cons in Hkeys as [Hn Hkeys].
    cbn [export_notes length repeat_string]. unfold bind at 1.
    rewrite export_note_run by done. rewrite IH by done.
    by rewrite append_assoc_string.
Qed.

Lemma export_notes_missing (good : list note) (n : note) (rest : list note) :
  Forall has_export_keys good → ¬ has_export_keys n →
  ∃ key, key ∈ ["title"; "tags"; "workspace"; "content"] ∧
         ∀ template prepare acc w,
           export_notes template prepare (good ++ n :: rest) acc w =
             (Raise (KeyError key), w).
Proof.
  intros Hkeys Hn. destruct (export_note_missing n Hn) as (key & Hkey & Hrun).
  exists key. split; [done|]. intros template prepare.
  induction Hkeys as [|g good Hg Hkeys IH]; intros acc w.
  - cbn [app export_notes]. unfold bind at 1. by rewrite Hrun.
  - cbn [app export_notes]. unfold bind at 1. rewrite export_note_run by done.
    apply IH.
Qed.

(** X21.  For notes that all have a title, tags, a workspace and a content,
    both exporters return one copy of their template (less its final line
    feed) per note: the text depends on the number of notes only, not on what
    the notes hold.  It is written to the output path exactly when a non-empty
    path is given. *)
Theorem export_copies_template (e : env) (notes : list note)
    (output_path : option string) (w : world) :
  Forall has_export_keys notes →
  let md := repeat_string (length notes) (chomp _MARKDOWN_TEMPLATE) in
  let html := repeat_string (length notes) (chomp _HTML_TEMPLATE) in
  let written (text : string) :=
    if truthy output_path
    then (if fs_fails e then Raise (ServiceError "file system") else Ok text,
          log (EvFile (default EmptyString output_path) text) w)
    else (Ok text, w) in
  export_notes_to_markdown e notes output_path w = written md ∧
  export_notes_to_html e notes output_path w = written html.
Proof.
  intros Hkeys. cbv zeta.
  unfold export_notes_to_markdown, export_notes_to_html.
  split; unfold bind at 1; rewrite export_notes_run by done;
    change (EmptyString +:+ ?s) with s;
    destruct (truthy output_path); try done;
    unfold write_file, bind, emit, modify, raise, ret; simpl;
    by destruct (fs_fails e).
Qed.

Lemma export_copies_template_witness :
  export_notes_to_markdown (working_env code_points)
    [(1, Document (Some "A") (Some "first") (Some ["x"]) (Some "default") None None);
     (2, Document (Some "B") (Some "second") (Some []) (Some "work") None None)]
    None empty_world =
  (Ok (chomp _MARKDOWN_TEMPLATE +:+ chomp _MARKDOWN_TEMPLATE), empty_world).
Proof.
  refine (proj1 (export_copies_template (working_env code_points)
                   [(1, Document (Some "A") (Some "first") (Some ["x"]) (Some "default")
                          None None);
                    (2, Document (Some "B") (Some "second") (Some []) (Some "work")
                          None None)]
                   None empty_world _)).
  repeat constructor; eexists; reflexivity.
Defined.

(** X22.  When some note lacks one of the four keys, both exporters raise
    [KeyError] for a key of the first such note and write no file, whatever
    the output path and the notes before and after it. *)
Theorem export_missing_key (e : env) (good : list note) (n : note) (rest : list note)
    (output_path : option string) (w : world) :
  Forall has_export_keys good → ¬ has_export_keys n →
  ∃ key,
    key ∈ ["title"; "tags"; "workspace"; "content"] ∧
    export_notes_to_markdown e (good ++ n :: rest) output_path w =
      (Raise (KeyError key), w) ∧
    export_notes_to_html e (good ++ n :: rest) output_path w =
      (Raise (KeyError key), w).
Proof.
  intros Hgood Hn.
  destruct (export_notes_missing good n rest Hgood Hn) as (key & Hkey & Hrun).
  exists key. split; [done|].
  unfold export_notes_to_markdown, export_notes_to_html.
  split; unfold bind at 1; by rewrite Hrun.
Qed.

Lemma export_missing_key_witness :
  ∃ key,
    export_notes_to_html (working_env code_points)
      [(1, Document (Some "A") (Some "first") (Some ["x"]) (Some "default") None None);
       (2, Document None (Some "second") None (Some "work") None None)]
      (Some "notes.html") empty_world = (Raise (KeyError key), empty_world).
Proof.
  destruct (export_missing_key (working_env code_points)
              [(1, Document (Some "A") (Some "first") (Some ["x"]) (Some "default")
                     None None)]
              (2, Document None (Some "second") None (Some "work") None None) []
              (Some "notes.html") empty_world) as (key & _ & _ & Hhtml).
  - repeat constructor; eexists; reflexivity.
  - intros ([t Ht] & _). discriminate Ht.
  - exists key. exact Hhtml.
Defined.

(** ** The commands that run no agent *)

Lemma maintains_emit_quiet (w : world) (ev : event) :
  is_dispatch ev = false →
  maintains (λ w', dispatched w' = dispatched w) (emit ev).
Proof. intros Hev w' Hw'. simpl. by rewrite dispatched_log_quiet. Qed.

Lemma maintains_console_print_quiet (w : world) (e : env) (markup : string) :
  maintains (λ w', dispatched w' = dispatched w) (console_print e markup).
Proof.
  unfold console_print. destruct (rich_render e markup).
  - by apply maintains_emit_quiet.
  - apply maintains_raise.
Qed.

(** X23.  The [delete], [ask] and [search] commands evaluate no agent rule:
    whatever the collaborators do, no action is dispatched while they run. *)
Theorem commands_without_agents (e : env) (w : world) :
  (∀ note_id, dispatched (cli_delete e note_id w).2 = dispatched w) ∧
  (∀ question, dispatched (cli_ask e question w).2 = dispatched w) ∧
  (∀ query, dispatched (cli_search e query w).2 = dispatched w).
Proof.
  set (I := λ w', dispatched w' = dispatched w).
  assert (Hlog : ∀ ev w', is_dispatch ev = false → I w' → I (log ev w')).
  { intros ev w' Hev Hw'. unfold I. by rewrite dispatched_log_quiet. }
  destruct (maintains_index_functions I) as (Hload & Hadd & Hremove); [done..|].
  split; [|split].
  - intros note_id. apply (maintains_bind I); [|intros n; by apply maintains_emit_quiet|done].
    by apply maintains_delete_note.
  - intros question.
    apply (maintains_bind I); [|intros a; apply maintains_console_print_quiet|done].
    by apply maintains_ask_question.
  - intros query. apply (maintains_bind I); [| |done].
    + by apply maintains_full_text_search.
    + intros results. apply maintains_bind.
      * destruct results; [apply maintains_console_print_quiet|apply maintains_ret].
      * intros _. apply maintains_for_each. intros n. apply maintains_console_print_quiet.
Qed.

Lemma loaded_dispatched (w : world) : dispatched (loaded w) = dispatched w.
Proof. unfold dispatched. by rewrite loaded_trace. Qed.

Lemma edit_note_absent (e : env) (id : Z) (updates : document) (w : world) :
  notes w !! id = None →
  ∃ r w', edit_note e id updates w = (r, w') ∧
          (r = Ok 0 ∨ ∃ x, r = Raise x) ∧
          notes w' = notes w ∧ dispatched w' = dispatched w.
Proof.
  intros Habsent. rewrite edit_note_run. destruct (content updates) as [c|].
  - rewrite remove_note_from_index_run. cbn [snd].
    set (w1 := set_index_modified _ _).
    assert (Hnotes : notes w1 = notes w) by (unfold w1; by fields).
    assert (Hd : dispatched w1 = dispatched w).
    { rewrite <- (loaded_dispatched w).
      by rewrite <- (dispatched_log_quiet (EvIndexRemove id) (loaded w)). }
    clearbody w1. rewrite update_one_run, Hnotes, Habsent.
    destruct (db_fails e (UpdateOne id)).
    + eexists _, _. split; [done|]. split; [eauto|]. fields.
      split; [done|]. by rewrite dispatched_log_quiet.
    + rewrite decide_True by done.
      eexists _, _. split; [done|]. split; [eauto|]. fields.
      split; [done|]. by rewrite dispatched_log_quiet.
  - rewrite update_one_run, Habsent.
    destruct (db_fails e (UpdateOne id)); eexists _, _;
      (split; [done|]); (split; [eauto|]); fields;
      (split; [done|]); by rewrite dispatched_log_quiet.
Qed.

(** X24.  The [edit] command on an id that no stored note has changes no note
    and runs no agent; when it returns, the last thing it did was to print
    that zero notes were modified. *)
Theorem cli_edit_absent (e : env) (w : world) (note_id : Z) (title content tags : string)
    (encrypt : bool) :
  notes w !! note_id = None →
  ∃ r w', cli_edit e note_id title content tags encrypt w = (r, w') ∧
          notes w' = notes w ∧
          dispatched w' = dispatched w ∧
          (r = Ok tt → last (trace w') = Some (EvConsole "Modified 0 note(s)")).
Proof.
  intros Habsent. unfold cli_edit. unfold bind at 1.
  set (step := if decide (content = EmptyString) then ret None else _).
  assert (Hstep : (∃ c, step w = (Ok c, w)) ∨ (∃ x, step w = (Raise x, w))).
  { unfold step. case_decide; [left; by eexists|].
    destruct encrypt; [|left; by eexists].
    destruct (fernet_encrypt e content); [left|right]; by eexists. }
  destruct Hstep as [[c ->] | [x ->]]; [|by eexists _, _].
  cbv zeta. unfold bind at 1.
  destruct (edit_note_absent e note_id
              (Document (if decide (title = EmptyString) then None else Some title) c
                 (if decide (tags = EmptyString) then None
                  else Some (strip <$> split_on ","%char tags)) None None None)
              w Habsent) as (r & w' & -> & [-> | [x ->]] & Hnotes & Hd).
  - rewrite decide_True by done. unfold bind, ret, emit, modify.
    eexists _, _. split; [done|]. fields. split; [done|]. split.
    + by rewrite dispatched_log_quiet.
    + intros _. by rewrite last_snoc.
  - by eexists _, _.
Qed.

Lemma cli_edit_absent_witness :
  ∃ r w', cli_edit (working_env code_points) 7 "T" "new text" EmptyString false empty_world
            = (r, w') ∧
          notes w' = ∅.
Proof.
  destruct (cli_edit_absent (working_env code_points) empty_world 7 "T" "new text"
              EmptyString false eq_refl) as (r & w' & Hrun & Hnotes & _).
  exists r, w'. split; [exact Hrun|exact Hnotes].
Defined.
